(** * K-Means clustering engine of mlpack ([kmeans_impl.hpp])

    A shallow embedding of [KMeans::Cluster] (both overloads), of the
    convergence loop with its two centroid buffers, and of the final
    assignment pass, followed by the properties established about them.

    Numbers of type [double] are IEEE-754 binary64 values ([spec_float] with
    precision 53 and maximal exponent 1024); [size_t] values that index a
    container are naturals, the free-running iteration counter is an integer
    modulo 2^64.

    The development also embeds the termination policies of the matrix
    factorisations ([max_iteration_termination.hpp],
    [complete_incremental_termination.hpp]), the random Acol initialisation
    ([random_acol_init.hpp]) and the training of the numeric split of a
    Hoeffding tree ([hoeffding_numeric_split_impl.hpp]). *)

From Stdlib Require Import ZArith Bool Lia.
From Stdlib Require Import Floats.SpecFloat.
From stdpp Require Import base list.

(* ================================================================== *)
(** ** Doubles                                                         *)
(* ================================================================== *)

Module Double.

Definition prec : Z := 53.
Definition emax : Z := 1024.

Definition double : Type := spec_float.

Definition zero : double := S754_zero false.
Definition infinity : double := S754_infinity false.
Definition nan : double := S754_nan.

Definition add : double -> double -> double := SFadd prec emax.
Definition sub : double -> double -> double := SFsub prec emax.
Definition mul : double -> double -> double := SFmul prec emax.
Definition div : double -> double -> double := SFdiv prec emax.
Definition sqrt : double -> double := SFsqrt prec emax.

(** Conversion of an integer to the nearest double. *)
Definition of_Z (z : Z) : double := binary_normalize prec emax z 0 false.
Definition of_size_t (n : nat) : double := of_Z (Z.of_nat n).

(** [a < b] and [a > b] of C++: false as soon as one side is NaN. *)
Definition lt (a b : double) : bool := SFltb a b.
Definition gt (a b : double) : bool := SFltb b a.
Definition le (a b : double) : bool := SFleb a b.

(** [std::isnan] and [std::isinf]. *)
Definition isnan (x : double) : bool :=
  match x with S754_nan => true | _ => false end.
Definition isinf (x : double) : bool :=
  match x with S754_infinity _ => true | _ => false end.

(** The literals [1e-4] and [1e-5], rounded to nearest. *)
Definition lit_1e_4 : double := S754_finite false 7378697629483821 (-66).
Definition lit_1e_5 : double := S754_finite false 5902958103587057 (-69).

End Double.
Import Double.

(* ================================================================== *)
(** ** Dense matrices, points as columns                               *)
(* ================================================================== *)

Definition vec : Type := list double.

(** An [arma::mat]: its row count and its columns, each of which has
    [n_rows] entries in a matrix built by the operations below. *)
Record mat : Type := Mat { n_rows : nat; columns : list vec }.

Definition n_cols (m : mat) : nat := length (columns m).

(** [arma::mat m;] *)
Definition empty_mat : mat := Mat 0 [].

(** [m.zeros(r, c)] *)
Definition zeros (r c : nat) : mat := Mat r (replicate c (replicate r zero)).

(** Element-wise [a += b] and [a /= s] on columns. *)
Definition vec_add (a b : vec) : vec := zip_with add a b.
Definition vec_div (a : vec) (s : double) : vec := (fun x => div x s) <$> a.

(** [size_t] arithmetic of the iteration counter. *)
Definition size_t_modulus : Z := 2 ^ 64.
Definition wrap (z : Z) : Z := z mod size_t_modulus.

(* ================================================================== *)
(** ** Observable events, exceptions, and the computation monad        *)
(* ================================================================== *)

(** The two centroid matrices of the convergence loop. *)
Inductive buffer : Type := Primary | Other.

(** What a run emits: the messages sent to [Log::Warn], [Log::Fatal] and
    [Log::Info], and the calls made into the policy objects. *)
Inductive event : Type :=
  | Warn_more_clusters_than_points
  | Warn_zero_clusters
  | Fatal_wrong_number_of_centroids (got should : nat)
  | Fatal_wrong_dimensionality (got should : nat)
  | Fatal_wrong_assignments_length (got should : nat)
  | Info_cluster_empty (i : nat)
  | Info_iteration (iteration : Z) (residual : double)
  | Info_converged (iteration : Z)
  | Info_terminated (iteration : Z)
  | Info_distance_calculations (n : nat)
  | Call_partitioner
  | Call_Iterate (newCentroids : buffer)
  | Call_EmptyCluster (emptyCluster : nat) (newCentroids : buffer).

Definition is_warning (e : event) : bool :=
  match e with
  | Warn_more_clusters_than_points | Warn_zero_clusters => true
  | _ => false
  end.

Definition is_Call_Iterate (e : event) : bool :=
  match e with Call_Iterate _ => true | _ => false end.

Definition is_Info_iteration (e : event) : bool :=
  match e with Info_iteration _ _ => true | _ => false end.

(** Number of Lloyd iterations started in a trace. *)
Definition iterations_run (t : list event) : nat :=
  length (filter (fun e => is_Call_Iterate e = true) t).

(** The buffer handed to the last [Iterate] call of a trace as its output. *)
Fixpoint last_written (t : list event) (acc : option buffer) : option buffer :=
  match t with
  | [] => acc
  | Call_Iterate b :: t' => last_written t' (Some b)
  | _ :: t' => last_written t' acc
  end.

(** Ways a call can be cut short:
    - [Fatal]: a message on [Log::Fatal], which throws;
    - [OutOfBounds]: an element access outside a container (Armadillo
      checks [.col(j)] and throws; [v[i]] is unchecked, and the model stops
      there as well);
    - [AssertFailed]: a failed [Log::Assert] in a debug build. *)
Inductive exn : Type := Fatal | OutOfBounds | AssertFailed.

(** How a computation ends: with a value, with an exception, or, for the
    convergence loop, still running when the fuel given to it is spent. *)
Inductive result (A : Type) : Type :=
  | Ok (a : A)
  | Throw (e : exn)
  | OutOfFuel.
Arguments Ok {A} a.
Arguments Throw {A} e.
Arguments OutOfFuel {A}.

Record outcome (St A : Type) : Type :=
  Outcome { out_trace : list event; out_state : St; out_val : result A }.
Arguments Outcome {St A} _ _ _.
Arguments out_trace {St A} _.
Arguments out_state {St A} _.
Arguments out_val {St A} _.

(** Computations over a mutable state [St] that emit events and may throw. *)
Definition M (St A : Type) : Type := St -> outcome St A.

Definition ret {St A} (a : A) : M St A := fun s => Outcome [] s (Ok a).

Definition bind {St A B} (m : M St A) (k : A -> M St B) : M St B :=
  fun s =>
    let o := m s in
    match out_val o with
    | Ok a =>
        let o' := k a (out_state o) in
        Outcome (out_trace o ++ out_trace o') (out_state o') (out_val o')
    | Throw e => Outcome (out_trace o) (out_state o) (Throw e)
    | OutOfFuel => Outcome (out_trace o) (out_state o) OutOfFuel
    end.

Definition get {St} : M St St := fun s => Outcome [] s (Ok s).
Definition modify {St} (f : St -> St) : M St unit :=
  fun s => Outcome [] (f s) (Ok tt).
Definition emit {St} (e : event) : M St unit := fun s => Outcome [e] s (Ok tt).
Definition throw {St A} (e : exn) : M St A := fun s => Outcome [] s (Throw e).
Definition diverge {St A} : M St A := fun s => Outcome [] s OutOfFuel.

Declare Scope kmeans_scope.
Delimit Scope kmeans_scope with kmeans.
Notation "'do' x <- m ; k" := (bind m (fun x => k))
  (at level 10, x name, m at level 100, k at level 200) : kmeans_scope.
Notation "'do' ' p <- m ; k" := (bind m (fun x => let 'p := x in k))
  (at level 10, p pattern, m at level 100, k at level 200) : kmeans_scope.
Notation "m >> k" := (bind m (fun _ => k))
  (at level 100, k at level 200, right associativity) : kmeans_scope.
Local Open Scope kmeans_scope.

(** [Log::Fatal << msg << std::endl]: the message, then the exception. *)
Definition Log_Fatal {St A} (msg : event) : M St A := emit msg >> throw Fatal.

(** [if (c) m;] *)
Definition when {St} (c : bool) (m : M St unit) : M St unit :=
  if c then m else ret tt.

(** [for (size_t i = start; i < start + n; ++i) body(i)], with the loop
    carried value [a]. *)
Fixpoint for_loop {St A} (start n : nat) (body : nat -> A -> M St A) (a : A)
  : M St A :=
  match n with
  | O => ret a
  | S n' => do a' <- body start a; for_loop (S start) n' body a'
  end.

(** [do body while (cond)]: [body] returns the carried value and whether the
    loop condition holds afterwards. *)
Fixpoint do_while {St A} (fuel : nat) (body : A -> M St (A * bool)) (a : A)
  : M St A :=
  match fuel with
  | O => diverge
  | S fuel' =>
      do r <- body a;
      if snd r then do_while fuel' body (fst r) else ret (fst r)
  end.

(* ================================================================== *)
(** ** The policy interfaces (template parameters of [KMeans])         *)
(* ================================================================== *)

(** The member functions of the policy objects are taken as functions that
    return: what they change (the object itself, the matrices passed by
    reference) comes back as part of their result. *)

(** [MetricType]: [metric.Evaluate(a, b)]. *)
Class MetricType (MT : Type) : Type :=
  Evaluate : MT -> vec -> vec -> double.

(** [InitialPartitionPolicy]: its [Cluster] member has one of two shapes,
    filling either an assignment row or a centroid matrix; the second also
    sees the centroid matrix it is given. *)
Inductive partitioner_shape (PT : Type) : Type :=
  | ReturnsAssignments (f : PT -> mat -> nat -> PT * list nat)
  | ReturnsCentroids (f : PT -> mat -> nat -> mat -> PT * mat).
Arguments ReturnsAssignments {PT} f.
Arguments ReturnsCentroids {PT} f.

Class InitialPartitionPolicy (PT : Type) : Type :=
  ipp_Cluster : partitioner_shape PT.

(** [GivesCentroids<InitialPartitionPolicy>::value] *)
Definition GivesCentroids {PT} `{!InitialPartitionPolicy PT} : bool :=
  match ipp_Cluster with
  | ReturnsCentroids _ => true
  | ReturnsAssignments _ => false
  end.

(** [EmptyClusterPolicy]:
    [EmptyCluster(data, emptyCluster, oldCentroids, newCentroids,
    clusterCounts, metric, iteration)] updates the policy object,
    [newCentroids] and [clusterCounts]. *)
Class EmptyClusterPolicy (MT ET : Type) : Type :=
  EmptyCluster :
    ET -> mat -> nat -> mat -> mat -> list nat -> MT -> Z ->
    ET * mat * list nat.

(** [LloydStepType<MetricType, MatType>]: constructed from the data and the
    metric; [Iterate(centroids, newCentroids, counts)] updates the step
    object, [newCentroids] and [counts], and returns the residual. *)
Class LloydStepType (MT LT : Type) : Type := {
  LloydStep_new : mat -> MT -> LT;
  Iterate : LT -> mat -> mat -> list nat -> LT * mat * list nat * double;
  DistanceCalculations : LT -> nat
}.

(* ================================================================== *)
(** ** The [KMeans] object and the state a call works on               *)
(* ================================================================== *)

Record KMeans (MT PT ET : Type) : Type := mkKMeans {
  maxIterations : Z;
  metric : MT;
  partitioner : PT;
  emptyClusterAction : ET
}.
Arguments mkKMeans {MT PT ET} _ _ _ _.
Arguments maxIterations {MT PT ET} _.
Arguments metric {MT PT ET} _.
Arguments partitioner {MT PT ET} _.
Arguments emptyClusterAction {MT PT ET} _.

(** What the caller can see of a call: the object and the two matrices
    passed by reference. *)
Record frame (MT PT ET : Type) : Type := mkFrame {
  this : KMeans MT PT ET;
  assignments : list nat;
  centroids : mat
}.
Arguments mkFrame {MT PT ET} _ _ _.
Arguments this {MT PT ET} _.
Arguments assignments {MT PT ET} _.
Arguments centroids {MT PT ET} _.

Definition set_centroids {MT PT ET} (c : mat) (fr : frame MT PT ET)
  : frame MT PT ET :=
  mkFrame (this fr) (assignments fr) c.

Definition set_assignments {MT PT ET} (a : list nat) (fr : frame MT PT ET)
  : frame MT PT ET :=
  mkFrame (this fr) a (centroids fr).

Definition set_partitioner {MT PT ET} (p : PT) (fr : frame MT PT ET)
  : frame MT PT ET :=
  mkFrame (mkKMeans (maxIterations (this fr)) (metric (this fr)) p
             (emptyClusterAction (this fr)))
          (assignments fr) (centroids fr).

Definition set_emptyClusterAction {MT PT ET} (e : ET) (fr : frame MT PT ET)
  : frame MT PT ET :=
  mkFrame (mkKMeans (maxIterations (this fr)) (metric (this fr))
             (partitioner (this fr)) e)
          (assignments fr) (centroids fr).

(** Local variables of [Cluster] that live across the convergence loop. *)
Record locals (LT : Type) : Type := mkLocals {
  counts : list nat;
  iteration : Z;
  lloydStep : LT;
  centroidsOther : mat
}.
Arguments mkLocals {LT} _ _ _ _.
Arguments counts {LT} _.
Arguments iteration {LT} _.
Arguments lloydStep {LT} _.
Arguments centroidsOther {LT} _.

(** [if (std::isnan(cNorm) || std::isinf(cNorm)) cNorm = 1e-4;] *)
Definition clamp_residual (cNorm : double) : double :=
  if isnan cNorm || isinf cNorm then lit_1e_4 else cNorm.

(** [cNorm > 1e-5 && iteration != maxIterations] *)
Definition loop_condition (cNorm : double) (iteration maxIterations : Z)
  : bool :=
  gt cNorm lit_1e_5 && negb (iteration =? maxIterations)%Z.

(** [arma::Row::set_size(n)]: the size becomes [n]; the memory is kept when
    the size does not change, and is otherwise fresh (taken as zeros). *)
Definition set_size (n : nat) (a : list nat) : list nat :=
  if length a =? n then a else replicate n 0.

(* ================================================================== *)
(** ** [KMeans::Cluster]                                               *)
(* ================================================================== *)

Section KMeans.

Context {MT PT ET LT : Type}.
Context `{!MetricType MT, !InitialPartitionPolicy PT,
          !EmptyClusterPolicy MT ET, !LloydStepType MT LT}.

(** Whether [Log::Assert] is compiled in (the [DEBUG] macro). *)
Variable DEBUG : bool.

Local Abbreviation frame := (frame MT PT ET).
Local Abbreviation locals := (locals LT).

(** [Log::Assert(cond)] *)
Definition Log_Assert (cond : bool) : M frame unit :=
  if DEBUG then (if cond then ret tt else throw AssertFailed) else ret tt.

(** [GetInitialAssignmentsOrCentroids(partitioner, data, clusters,
    assignments, centroids)] (lines 57-89): [true] when assignments were
    given. *)
Definition GetInitialAssignmentsOrCentroids
    (data : mat) (clusters : nat) (assignments : list nat)
  : M frame (bool * list nat) :=
  do fr <- get;
  emit Call_partitioner >>
  match ipp_Cluster with
  | ReturnsAssignments f =>
      let '(p, a) := f (partitioner (this fr)) data clusters in
      modify (set_partitioner p) >> ret (true, a)
  | ReturnsCentroids f =>
      let '(p, c) := f (partitioner (this fr)) data clusters (centroids fr) in
      modify (fun fr => set_centroids c (set_partitioner p fr)) >>
      ret (false, assignments)
  end.

(** [centroids.col(j) op= ...]: bounds-checked column access. *)
Definition update_col (f : vec -> vec) (j : nat) : M frame unit :=
  do fr <- get;
  let c := centroids fr in
  if j <? n_cols c
  then modify (set_centroids (Mat (n_rows c) (alter f j (columns c))))
  else throw OutOfBounds.

(** The block "calculate centroids from those assignments"; it occurs in
    both overloads with the same text (lines 200-211 and 308-319). *)
Definition centroids_from_assignments
    (data : mat) (clusters : nat) (assignments : list nat)
  : M frame unit :=
  let counts := replicate clusters 0 in
  modify (set_centroids (zeros (n_rows data) clusters)) >>
  do counts <-
    for_loop 0 (n_cols data) (fun i counts =>
      match assignments !! i, columns data !! i with
      | Some a, Some p =>
          update_col (fun c => vec_add c p) a >>
          ret (alter S a counts)
      | _, _ => throw OutOfBounds
      end) counts;
  for_loop 0 clusters (fun i _ =>
    match counts !! i with
    | Some n =>
        when (negb (n =? 0))
             (update_col (fun c => vec_div c (of_size_t n)) i)
    | None => throw OutOfBounds
    end) tt.

(** The call of [lloydStep.Iterate] with the buffers chosen by the parity
    of the iteration number (lines 228-231). *)
Definition lloyd_iterate (lv : locals) : M frame (locals * double) :=
  do fr <- get;
  if (iteration lv mod 2 =? 0)%Z then
    emit (Call_Iterate Other) >>
    let '(ls, newCentroids, cnt, cNorm) :=
      Iterate (lloydStep lv) (centroids fr) (centroidsOther lv) (counts lv) in
    ret (mkLocals cnt (iteration lv) ls newCentroids, cNorm)
  else
    emit (Call_Iterate Primary) >>
    let '(ls, newCentroids, cnt, cNorm) :=
      Iterate (lloydStep lv) (centroidsOther lv) (centroids fr) (counts lv) in
    modify (set_centroids newCentroids) >>
    ret (mkLocals cnt (iteration lv) ls (centroidsOther lv), cNorm).

(** Body of the loop over the clusters that looks for empty ones
    (lines 235-247). *)
Definition empty_cluster_check (data : mat) (i : nat) (lv : locals)
  : M frame locals :=
  match counts lv !! i with
  | None => throw OutOfBounds
  | Some O =>
      emit (Info_cluster_empty i) >>
      do fr <- get;
      if (iteration lv mod 2 =? 0)%Z then
        emit (Call_EmptyCluster i Other) >>
        let '(e, newCentroids, cnt) :=
          EmptyCluster (emptyClusterAction (this fr)) data i
            (centroids fr) (centroidsOther lv) (counts lv)
            (metric (this fr)) (iteration lv) in
        modify (set_emptyClusterAction e) >>
        ret (mkLocals cnt (iteration lv) (lloydStep lv) newCentroids)
      else
        emit (Call_EmptyCluster i Primary) >>
        let '(e, newCentroids, cnt) :=
          EmptyCluster (emptyClusterAction (this fr)) data i
            (centroidsOther lv) (centroids fr) (counts lv)
            (metric (this fr)) (iteration lv) in
        modify (fun fr => set_centroids newCentroids
                             (set_emptyClusterAction e fr)) >>
        ret (mkLocals cnt (iteration lv) (lloydStep lv) (centroidsOther lv))
  | Some (S _) => ret lv
  end.

(** One pass of the [do ... while] loop (lines 224-255), with the value of
    its condition. *)
Definition loop_body (data : mat) (clusters : nat) (lv : locals)
  : M frame (locals * bool) :=
  do '(lv1, cNorm) <- lloyd_iterate lv;
  do lv2 <- for_loop 0 clusters (empty_cluster_check data) lv1;
  let iteration' := wrap (iteration lv2 + 1) in
  emit (Info_iteration iteration' cNorm) >>
  let cNorm' := clamp_residual cNorm in
  do fr <- get;
  ret (mkLocals (counts lv2) iteration' (lloydStep lv2) (centroidsOther lv2),
       loop_condition cNorm' iteration' (maxIterations (this fr))).

(** What follows the loop (lines 257-274): the buffer steal and the
    closing messages. *)
Definition after_loop (lv : locals) : M frame unit :=
  when (wrap (iteration lv - 1) mod 2 =? 0)%Z
       (modify (set_centroids (centroidsOther lv))) >>
  (do fr <- get;
   if negb (iteration lv =? maxIterations (this fr))%Z
   then emit (Info_converged (iteration lv))
   else emit (Info_terminated (iteration lv))) >>
  emit (Info_distance_calculations (DistanceCalculations (lloydStep lv))).

(** Warnings and the validation of the initial guess (lines 163-183). *)
Definition check_configuration
    (data : mat) (clusters : nat) (initialGuess : bool) : M frame unit :=
  (if n_cols data <? clusters then emit Warn_more_clusters_than_points
   else if clusters =? 0 then emit Warn_zero_clusters
   else ret tt) >>
  when initialGuess
    (do fr <- get;
     when (negb (n_cols (centroids fr) =? clusters))
          (Log_Fatal (Fatal_wrong_number_of_centroids
                        (n_cols (centroids fr)) clusters)) >>
     when (negb (n_rows (centroids fr) =? n_rows data))
          (Log_Fatal (Fatal_wrong_dimensionality
                        (n_rows (centroids fr)) (n_rows data)))).

(** The use of the partitioner when there is no initial guess
    (lines 187-213). *)
Definition initial_centroids
    (data : mat) (clusters : nat) (initialGuess : bool) : M frame unit :=
  when (negb initialGuess)
    (do '(gotAssignments, assignments) <-
       GetInitialAssignmentsOrCentroids data clusters [];
     when gotAssignments
          (centroids_from_assignments data clusters assignments)).

(** The convergence loop with its local variables (lines 216-255).
    [counts] is created with [clusters] elements that [Iterate] is expected
    to overwrite; they are taken as zeros. *)
Definition convergence_loop (fuel : nat) (data : mat) (clusters : nat)
  : M frame locals :=
  do fr <- get;
  let lv0 :=
    mkLocals (replicate clusters 0) 0%Z
             (LloydStep_new data (metric (this fr))) empty_mat in
  do_while fuel (loop_body data clusters) lv0.

(** [Cluster(data, clusters, centroids, initialGuess)] (lines 158-275) *)
Definition Cluster
    (fuel : nat) (data : mat) (clusters : nat) (initialGuess : bool)
  : M frame unit :=
  check_configuration data clusters initialGuess >>
  initial_centroids data clusters initialGuess >>
  do lv <- convergence_loop fuel data clusters;
  after_loop lv.

(** The inner loop of the final pass (lines 333-342): the closest centroid
    to [p] among the columns from index [j] on. *)
Fixpoint closest_scan (m : MT) (p : vec) (cs : list vec) (j : nat)
    (minDistance : double) (closestCluster : nat) : double * nat :=
  match cs with
  | [] => (minDistance, closestCluster)
  | c :: cs' =>
      let distance := Evaluate m p c in
      if lt distance minDistance
      then closest_scan m p cs' (S j) distance j
      else closest_scan m p cs' (S j) minDistance closestCluster
  end.

(** "Calculate final assignments." (lines 325-346) *)
Definition final_assignments (data : mat) : M frame unit :=
  modify (fun fr =>
            set_assignments (set_size (n_cols data) (assignments fr)) fr) >>
  for_loop 0 (n_cols data) (fun i _ =>
    do fr <- get;
    match columns data !! i with
    | None => throw OutOfBounds
    | Some p =>
        let minDistance := infinity in
        let closestCluster := n_cols (centroids fr) in
        let '(_, closestCluster) :=
          closest_scan (metric (this fr)) p (columns (centroids fr)) 0
                       minDistance closestCluster in
        Log_Assert (negb (closestCluster =? n_cols (centroids fr))) >>
        modify (fun fr =>
                  set_assignments (<[i := closestCluster]> (assignments fr))
                                  fr)
    end) tt.

(** [Cluster(data, clusters, assignments, centroids,
    initialAssignmentGuess, initialCentroidGuess)] (lines 292-347) *)
Definition Cluster_assignments
    (fuel : nat) (data : mat) (clusters : nat)
    (initialAssignmentGuess initialCentroidGuess : bool)
  : M frame unit :=
  when initialAssignmentGuess
    (do fr <- get;
     when (negb (length (assignments fr) =? n_cols data))
          (Log_Fatal (Fatal_wrong_assignments_length
                        (length (assignments fr)) (n_cols data))) >>
     centroids_from_assignments data clusters (assignments fr)) >>
  Cluster fuel data clusters
          (initialAssignmentGuess || initialCentroidGuess) >>
  final_assignments data.

End KMeans.

(* ================================================================== *)
(** ** Notions used to state the properties                            *)
(* ================================================================== *)

(** The arithmetic mean of the points assigned to a cluster, as the
    specification words it: the points of cluster [j] in dataset order,
    their sum divided by their number, and the zero vector when there are
    none. *)
Definition cluster_members (data : mat) (assignments : list nat) (j : nat)
  : list vec :=
  snd <$> filter (fun ap => ap.1 = j) (zip assignments (columns data)).

Definition cluster_mean (dim : nat) (members : list vec) : vec :=
  match length members with
  | O => replicate dim zero
  | S _ =>
      vec_div (foldl vec_add (replicate dim zero) members)
              (of_size_t (length members))
  end.

Definition mean_centroids (data : mat) (clusters : nat)
    (assignments : list nat) : mat :=
  Mat (n_rows data)
      ((fun j => cluster_mean (n_rows data)
                   (cluster_members data assignments j))
         <$> seq 0 clusters).

(** An assignment row is usable for a dataset and a cluster count when it
    has one entry per point and every entry names a cluster. *)
Definition valid_assignments (data : mat) (clusters : nat)
    (assignments : list nat) : Prop :=
  length assignments = n_cols data /\
  Forall (fun a => a < clusters) assignments.

(** The part of a call an event belongs to. *)
Inductive phase : Type := Configuration | Partitioning | Looping | Closing.

Definition phase_of (e : event) : phase :=
  match e with
  | Warn_more_clusters_than_points | Warn_zero_clusters
  | Fatal_wrong_number_of_centroids _ _
  | Fatal_wrong_dimensionality _ _
  | Fatal_wrong_assignments_length _ _ => Configuration
  | Call_partitioner => Partitioning
  | Info_cluster_empty _ | Info_iteration _ _
  | Call_Iterate _ | Call_EmptyCluster _ _ => Looping
  | Info_converged _ | Info_terminated _
  | Info_distance_calculations _ => Closing
  end.

Definition in_phase (ph : phase) (e : event) : Prop := phase_of e = ph.

(** A computation is tame for a class of events when it emits only events
    of that class, never throws [Fatal], leaves the iteration limit of the
    object alone and, unless [fueled], never runs out of fuel. *)
Definition tame {MT PT ET A} (P : event -> Prop) (fueled : bool)
    (m : M (frame MT PT ET) A) : Prop :=
  forall s,
    Forall P (out_trace (m s)) /\
    out_val (m s) <> Throw Fatal /\
    (fueled = false -> out_val (m s) <> OutOfFuel) /\
    maxIterations (this (out_state (m s))) = maxIterations (this s).

(** The messages of a rejected centroid guess. *)
Definition guess_complaints (data : mat) (clusters : nat) (c : mat)
  : list event :=
  if negb (n_cols c =? clusters)
  then [Fatal_wrong_number_of_centroids (n_cols c) clusters]
  else if negb (n_rows c =? n_rows data)
  then [Fatal_wrong_dimensionality (n_rows c) (n_rows data)]
  else [].

(** Events of the empty-cluster pass: neither an [Iterate] call nor the
    message that closes an iteration. *)
Definition quiet (e : event) : Prop :=
  in_phase Looping e /\ is_Call_Iterate e = false /\
  is_Info_iteration e = false.

(** The warnings found in a trace. *)
Definition warnings (t : list event) : list event :=
  filter (fun e => is_warning e = true) t.

(** The warnings a configuration calls for. *)
Definition expected_warnings (data : mat) (clusters : nat) : list event :=
  if n_cols data <? clusters then [Warn_more_clusters_than_points]
  else if clusters =? 0 then [Warn_zero_clusters]
  else [].

(** The shape test applied to an initial centroid guess. *)
Definition centroid_guess_mismatch (data : mat) (clusters : nat) (c : mat)
  : bool :=
  negb (n_cols c =? clusters) || negb (n_rows c =? n_rows data).


(** The centroid matrix of a frame fits the dataset and the cluster count. *)
Definition has_shape {MT PT ET} (data : mat) (clusters : nat)
    (fr : frame MT PT ET) : Prop :=
  n_cols (centroids fr) = clusters /\ n_rows (centroids fr) = n_rows data.

(** The cluster the final pass gives to a point: the result of the scan
    started with an infinite minimum and the invalid index. *)
Definition nearest_centroid {MT} `{!MetricType MT} (m : MT) (cs : list vec)
    (p : vec) : nat :=
  (closest_scan m p cs 0 infinity (length cs)).2.

(** The buffer an iteration with the given number writes. *)
Definition target_of (iteration : Z) : buffer :=
  if (iteration mod 2 =? 0)%Z then Other else Primary.

(** The accumulation and the division loops as plain folds. *)
Definition accumulate_step (st : list vec * list nat) (ap : nat * vec)
  : list vec * list nat :=
  (alter (fun c => vec_add c ap.2) ap.1 st.1, alter S ap.1 st.2).

Definition divide_step (counts : list nat) (cs : list vec) (i : nat)
  : list vec :=
  match counts !! i with
  | Some (S n) => alter (fun c => vec_div c (of_size_t (S n))) i cs
  | _ => cs
  end.

(* ================================================================== *)
(** ** Policies used for concrete runs                                 *)
(* ================================================================== *)

Module Policies.

(** Modelled from the spec: the metric class itself is not part of the
    sources at hand; section 4.5 names Euclidean-like metrics as the
    expected default.  The Euclidean distance of two points. *)
Definition EuclideanDistance_Evaluate (_ : unit) (a b : vec) : double :=
  sqrt (foldl add zero (zip_with (fun x y => mul (sub x y) (sub x y)) a b)).

#[export] Instance EuclideanDistance : MetricType unit :=
  EuclideanDistance_Evaluate.

(** Modelled from the spec: section 4.3, the assignment-producing shape of
    the partitioner; this one deals the points out in turn. *)
Definition round_robin (p : unit) (data : mat) (clusters : nat)
  : unit * list nat :=
  (p, (fun i => i mod clusters) <$> seq 0 (n_cols data)).

#[export] Instance RoundRobinPartition : InitialPartitionPolicy unit :=
  ReturnsAssignments round_robin.

(** Modelled from the spec: section 7, a policy may leave an empty cluster
    empty; this one changes nothing. *)
#[export] Instance AllowEmptyClusters {MT} : EmptyClusterPolicy MT unit :=
  fun e _ _ _ newCentroids clusterCounts _ _ => (e, newCentroids, clusterCounts).

(** Modelled from the spec: section 4.2, the Lloyd update.  The step class
    is not part of the sources at hand. *)
Record NaiveKMeans (MT : Type) : Type := mkNaive {
  naive_dataset : mat;
  naive_metric : MT;
  naive_distanceCalculations : nat
}.
Arguments mkNaive {MT} _ _ _.
Arguments naive_dataset {MT} _.
Arguments naive_metric {MT} _.
Arguments naive_distanceCalculations {MT} _.

Section Naive.

Context {MT : Type} `{!MetricType MT}.

(** Index of the nearest centroid, ties to the lowest index. *)
Definition nearest (m : MT) (p : vec) (cs : list vec) : nat :=
  snd (closest_scan m p cs 0 infinity (length cs)).

(** Accumulate every point into the column of its nearest centroid. *)
Fixpoint accumulate (m : MT) (cs : list vec) (points : list vec)
    (sums : list vec) (counts : list nat) : list vec * list nat :=
  match points with
  | [] => (sums, counts)
  | p :: points' =>
      let j := nearest m p cs in
      accumulate m cs points' (alter (fun c => vec_add c p) j sums)
                 (alter S j counts)
  end.

(** Divide each column by its count; columns with count zero stay. *)
Definition normalize (sums : list vec) (counts : list nat) : list vec :=
  zip_with (fun c n => if n =? 0 then c else vec_div c (of_size_t n))
           sums counts.

(** Frobenius norm of the difference of two matrices. *)
Definition frobenius_distance (a b : list vec) : double :=
  sqrt (foldl add zero
          (zip_with (fun x y => mul (sub x y) (sub x y))
                    (concat a) (concat b))).

Definition naive_Iterate (ls : NaiveKMeans MT)
    (centroids newCentroids : mat) (counts : list nat)
  : NaiveKMeans MT * mat * list nat * double :=
  let k := n_cols centroids in
  let '(sums, counts') :=
    accumulate (naive_metric ls) (columns centroids)
               (columns (naive_dataset ls))
               (columns (zeros (n_rows centroids) k)) (replicate k 0) in
  let new := normalize sums counts' in
  (mkNaive (naive_dataset ls) (naive_metric ls)
           (naive_distanceCalculations ls + k * n_cols (naive_dataset ls)),
   Mat (n_rows centroids) new, counts',
   frobenius_distance (columns centroids) new).

#[export] Instance NaiveLloydStep : LloydStepType MT (NaiveKMeans MT) := {
  LloydStep_new data m := mkNaive data m 0;
  Iterate := naive_Iterate;
  DistanceCalculations := naive_distanceCalculations
}.

End Naive.

(** One-dimensional points with integer coordinates. *)
Definition points_1d (xs : list Z) : mat := Mat 1 ((fun x => [of_Z x]) <$> xs).

(** An engine with the policies above and a given iteration limit. *)
Definition engine (limit : Z) : KMeans unit unit unit :=
  mkKMeans limit tt tt tt.

(** Eleven points on a line, and a call that starts from the centroids 0
    and 1. *)
Definition line : mat := points_1d [0; 1; 2; 3; 4; 5; 6; 7; 8; 9; 10]%Z.

Definition line_start (limit : Z) : frame unit unit unit :=
  mkFrame (engine limit) [] (points_1d [0; 1]%Z).

(** Four points with an assignment guess, and a centroid matrix of the
    wrong shape. *)
Definition four : mat := points_1d [0; 1; 2; 3]%Z.

Definition four_both_guesses : frame unit unit unit :=
  mkFrame (engine 5) [0; 0; 1; 1] empty_mat.

(** A dataset whose only entry is NaN, with one centroid at the origin. *)
Definition missing_value : mat := Mat 1 [[nan]].

Definition missing_value_start : frame unit unit unit :=
  mkFrame (engine 5) [] (points_1d [0]%Z).

(** The double [m * 2^e]. *)
Definition dyadic (m e : Z) : double := binary_normalize prec emax m e false.

(** Three points with finite coordinates, -3 * 2^510 once and 3 * 2^510
    twice, and a call for one cluster with the iteration limit 1 that
    starts from a centroid at the origin: every point is at a finite
    distance of the guess; the mean of the points is 2^510, at the distance
    2^512 of the first point, the square of which exceeds the largest
    double. *)
Definition outlier : mat :=
  Mat 1 [[dyadic (-3) 510]; [dyadic 3 510]; [dyadic 3 510]].

Definition outlier_start : frame unit unit unit :=
  mkFrame (engine 1) [] (points_1d [0]%Z).

(** Three points, 0, 2 + 2^-20 and 3, and a call for two clusters that
    starts from the centroids 1 + 10 * 2^-22 and 3: the middle point is
    almost as near to the one as to the other. *)
Definition near_tie : mat :=
  Mat 1 [[of_Z 0]; [dyadic (2 ^ 21 + 1) (-20)]; [of_Z 3]].

Definition near_tie_start : frame unit unit unit :=
  mkFrame (engine 5) [] (Mat 1 [[dyadic (2 ^ 22 + 10) (-22)]; [of_Z 3]]).

(** Four points with an assignment guess that is too short, and with one
    that names a third cluster, each beside a centroid guess. *)
Definition four_short_guess : frame unit unit unit :=
  mkFrame (engine 5) [0; 1] (points_1d [5; 6]%Z).

Definition four_stray_guess : frame unit unit unit :=
  mkFrame (engine 5) [0; 0; 1; 2] (points_1d [5; 6]%Z).

(** Modelled from the spec: section 4.4, a policy may reseed an empty
    cluster from the data; this one moves the centroid of the empty cluster
    to the last point of the dataset, and counts its calls. *)
#[export] Instance ReseedFromLastPoint {MT} : EmptyClusterPolicy MT nat :=
  fun e data i _ newCentroids clusterCounts _ _ =>
    (S e,
     Mat (n_rows newCentroids)
         (match last (columns data) with
          | Some p => <[i := p]> (columns newCentroids)
          | None => columns newCentroids
          end),
     clusterCounts).

(** A call with the reseeding policy that starts from the centroids 0 and
    100: on the eleven points of [line] the second cluster is empty after
    the first iteration. *)
Definition far_guess (limit : Z) : frame unit unit nat :=
  mkFrame (mkKMeans limit tt tt 0) [] (points_1d [0; 100]%Z).

End Policies.

(* ================================================================== *)
(** ** Contracts a policy may honour                                   *)
(* ================================================================== *)

(** Two matrices of the same shape. *)
Definition same_shape (a b : mat) : Prop :=
  n_cols a = n_cols b /\ n_rows a = n_rows b.

(** [Iterate] writes new centroids of the shape of the centroids it reads. *)
Definition Iterate_keeps_shape {MT LT} `{!LloydStepType MT LT} : Prop :=
  forall (ls : LT) centroids newCentroids counts,
    same_shape (Iterate ls centroids newCentroids counts).1.1.2 centroids.

(** [EmptyCluster] keeps the shape of the matrix it may rewrite. *)
Definition EmptyCluster_keeps_shape {MT ET} `{!EmptyClusterPolicy MT ET}
  : Prop :=
  forall (e : ET) data i oldCentroids newCentroids counts (m : MT) it,
    same_shape
      (EmptyCluster e data i oldCentroids newCentroids counts m it).1.2
      newCentroids.

(** [EmptyCluster] leaves the cluster counts as they are. *)
Definition EmptyCluster_keeps_counts {MT ET} `{!EmptyClusterPolicy MT ET}
  : Prop :=
  forall (e : ET) data i oldCentroids newCentroids counts (m : MT) it,
    (EmptyCluster e data i oldCentroids newCentroids counts m it).2 = counts.

(** A matrix with one column per cluster and the rows of the dataset. *)
Definition shaped (data : mat) (clusters : nat) (c : mat) : Prop :=
  n_cols c = clusters /\ n_rows c = n_rows data.

(** A partitioner that returns centroids returns them in that shape. *)
Definition partitioner_gives_shape {PT} `{!InitialPartitionPolicy PT}
    (data : mat) (clusters : nat) : Prop :=
  match ipp_Cluster with
  | ReturnsAssignments _ => True
  | ReturnsCentroids f =>
      forall (p : PT) c, shaped data clusters (f p data clusters c).2
  end.

(** What the empty-cluster pass emits for the clusters [js]. *)
Definition empty_cluster_events (target : buffer) (js : list nat)
  : list event :=
  js ≫= (fun i => [Info_cluster_empty i; Call_EmptyCluster i target]).

(** The matrix [Iterate] reads in the iteration about to start. *)
Definition current_centroids {MT PT ET LT}
    (lv : locals LT) (fr : frame MT PT ET) : mat :=
  if (iteration lv mod 2 =? 0)%Z then centroids fr else centroidsOther lv.

(** The matrix an iteration writes. *)
Definition written_centroids {MT PT ET LT}
    (it : Z) (lv : locals LT) (fr : frame MT PT ET) : mat :=
  if (it mod 2 =? 0)%Z then centroidsOther lv else centroids fr.


(** The number of calls of the partitioner in a trace. *)
Definition is_Call_partitioner (e : event) : bool :=
  match e with Call_partitioner => true | _ => false end.

Definition partitioner_calls (t : list event) : nat :=
  length (filter (fun e => is_Call_partitioner e = true) t).

(** What the pass over the clusters [js] of lines 235-247 amounts to, as
    a function of what it starts from: the policy object, the matrix
    [Iterate] has written and the counts.  It gives the three as the pass
    leaves them, with the events of the pass, or nothing when the pass reads
    a count that is not there. *)
Fixpoint empty_cluster_repairs {MT ET} `{!EmptyClusterPolicy MT ET}
    (data : mat) (m : MT) (it : Z) (old : mat) (js : list nat)
    (e : ET) (new : mat) (cnt : list nat)
  : option (ET * mat * list nat * list event) :=
  match js with
  | [] => Some (e, new, cnt, [])
  | i :: js' =>
      match cnt !! i with
      | None => None
      | Some O =>
          let '(e', new', cnt') := EmptyCluster e data i old new cnt m it in
          match empty_cluster_repairs data m it old js' e' new' cnt' with
          | Some (e2, new2, cnt2, evs) =>
              Some (e2, new2, cnt2,
                    Info_cluster_empty i ::
                    Call_EmptyCluster i (target_of it) :: evs)
          | None => None
          end
      | Some (S _) => empty_cluster_repairs data m it old js' e new cnt
      end
  end.

(** The states the loop goes through: [passes data clusters lv fr lv' fr']
    when passes of the loop, each ending with its condition true, lead from
    the locals [lv] and the frame [fr] to [lv'] and [fr']. *)
Inductive passes {MT PT ET LT}
    `{!MetricType MT, !InitialPartitionPolicy PT,
      !EmptyClusterPolicy MT ET, !LloydStepType MT LT}
    (data : mat) (clusters : nat)
  : locals LT -> frame MT PT ET -> locals LT -> frame MT PT ET -> Prop :=
  | passes_none lv fr : passes data clusters lv fr lv fr
  | passes_more lv fr t lv1 fr1 lv2 fr2 :
      loop_body data clusters lv fr = Outcome t fr1 (Ok (lv1, true)) ->
      passes data clusters lv1 fr1 lv2 fr2 ->
      passes data clusters lv fr lv2 fr2.

(** A Lloyd step whose residual is a function [res] of the centroids it
    reads, for the step objects a run on [data] with the metric [m] goes
    through. *)
Definition Iterate_residual_is {MT LT} `{!LloydStepType MT LT}
    (data : mat) (m : MT) (res : mat -> double) : Prop :=
  exists I : LT -> Prop,
    I (LloydStep_new data m) /\
    forall ls centroids newCentroids counts,
      I ls ->
      I (Iterate ls centroids newCentroids counts).1.1.1 /\
      (Iterate ls centroids newCentroids counts).2 = res centroids.

(* ================================================================== *)
(** ** Termination policies of the matrix factorisations               *)
(* ================================================================== *)

(** [max_iteration_termination.hpp] and
    [complete_incremental_termination.hpp].  What a termination policy
    offers to the class that wraps it: [Initialize(V)] and
    [IsConverged(W, H)], which update the policy object. *)
Class TerminationPolicy (T : Type) : Type := {
  tp_Initialize : mat -> T -> T;
  tp_IsConverged : mat -> mat -> T -> T * bool
}.

Module MaxIterationTermination.

(** The one message of the class. *)
Inductive message : Type := Warn_never_terminates.

(** The object: two [size_t] members. *)
Record t : Type := mk { maxIterations : Z; iteration : Z }.

(** The constructor (lines 43-51), with what it logs. *)
Definition new (maxIterations : Z) : list message * t :=
  (if (maxIterations =? 0)%Z then [Warn_never_terminates] else [],
   mk maxIterations 0).

(** [Initialize(V)] (line 57): nothing to do. *)
Definition Initialize (V : mat) (p : t) : t := p.

(** [IsConverged(H, W)] (lines 62-66):
    [return (++iteration >= maxIterations);] *)
Definition IsConverged (H W : mat) (p : t) : t * bool :=
  let iteration' := wrap (iteration p + 1) in
  (mk (maxIterations p) iteration', (maxIterations p <=? iteration')%Z).

(** [Index()] (lines 70-73) *)
Definition Index (p : t) : Z :=
  if (maxIterations p <? iteration p)%Z then 0%Z
  else wrap (maxIterations p - iteration p).

(** The object after a series of [IsConverged] calls. *)
Definition after_calls (args : list (mat * mat)) (p : t) : t :=
  foldl (fun p a => (IsConverged a.1 a.2 p).1) p args.

(** Both members hold a [size_t]. *)
Definition in_range (p : t) : Prop :=
  (0 <= maxIterations p < size_t_modulus)%Z /\
  (0 <= iteration p < size_t_modulus)%Z.

End MaxIterationTermination.

#[export] Instance MaxIterationTermination_policy
  : TerminationPolicy MaxIterationTermination.t := {|
  tp_Initialize := MaxIterationTermination.Initialize;
  tp_IsConverged := MaxIterationTermination.IsConverged
|}.

Module CompleteIncrementalTermination.

(** The object: the wrapped policy and two [size_t] members, which the
    constructor (lines 47-49) leaves without a value. *)
Record t (T : Type) : Type := mk {
  tPolicy : T;
  incrementalIndex : Z;
  iteration : Z
}.
Arguments mk {T} _ _ _.
Arguments tPolicy {T} _.
Arguments incrementalIndex {T} _.
Arguments iteration {T} _.

(** [x != 0] on a double: true for NaN. *)
Definition nonzero (x : double) : bool := negb (SFeqb x zero).

(** [arma::accu(V != 0)]: the number of entries different from zero; it
    is at most the number of entries, which fits a [size_t]. *)
Definition count_nonzero (V : mat) : Z :=
  Z.of_nat (length (filter (fun x => nonzero x = true) (concat (columns V)))).

Section Wrapper.

Context {T : Type} `{!TerminationPolicy T}.

(** [Initialize(V)] for a dense matrix (lines 57-64) *)
Definition Initialize (V : mat) (c : t T) : t T :=
  mk (tp_Initialize V (tPolicy c)) (count_nonzero V) 0.

(** [IsConverged(W, H)] (lines 88-99); [None] stands for the remainder of
    a division by zero, which has no defined result. *)
Definition IsConverged (W H : mat) (c : t T) : option (t T * bool) :=
  let iteration' := wrap (iteration c + 1) in
  if (incrementalIndex c =? 0)%Z then None
  else if (iteration' mod incrementalIndex c =? 0)%Z
  then let '(p, b) := tp_IsConverged W H (tPolicy c) in
       Some (mk p (incrementalIndex c) iteration', b)
  else Some (mk (tPolicy c) (incrementalIndex c) iteration', false).

(** A series of [IsConverged] calls, with their answers. *)
Fixpoint calls (args : list (mat * mat)) (c : t T)
  : option (t T * list bool) :=
  match args with
  | [] => Some (c, [])
  | (W, H) :: args' =>
      match IsConverged W H c with
      | None => None
      | Some (c1, b) =>
          match calls args' c1 with
          | None => None
          | Some (c2, bs) => Some (c2, b :: bs)
          end
      end
  end.

End Wrapper.

End CompleteIncrementalTermination.

(* ================================================================== *)
(** ** The random Acol initialisation of a factorisation               *)
(* ================================================================== *)

(** [random_acol_init.hpp].  The random numbers come from outside: [rand k]
    is what the call number [k] of [math::RandInt(0, m)] returns, and
    [uniform i j] the entry that [H.randu(r, m)] draws for row [i] and
    column [j]. *)
Module RandomAcolInitialization.

(** The one message of the class. *)
Inductive message : Type := Warn_more_columns_than_available.

Section Rule.

(** The template parameter. *)
Variable columnsToAverage : nat.

Variable rand : nat -> nat.
Variable uniform : nat -> nat -> double.

(** The inner loop (lines 81-85): [W.unsafe_col(col) += V.col(...)], with
    the number of random draws made so far; [V.col] checks its index. *)
Fixpoint sum_picks (V : mat) (randCol : nat) (w : vec) (k : nat)
  : result (vec * nat) :=
  match randCol with
  | O => Ok (w, k)
  | S randCol' =>
      match columns V !! rand k with
      | Some v => sum_picks V randCol' (vec_add w v) (S k)
      | None => Throw OutOfBounds
      end
  end.

(** The outer loop (lines 79-86), from column [col] on. *)
Fixpoint fill_columns (V : mat) (col remaining : nat) (W : list vec)
    (k : nat) : result (list vec * nat) :=
  match remaining with
  | O => Ok (W, k)
  | S remaining' =>
      match W !! col with
      | Some w =>
          match sum_picks V columnsToAverage w k with
          | Ok (w', k') =>
              fill_columns V (S col) remaining' (<[col := w']> W) k'
          | Throw e => Throw e
          | OutOfFuel => OutOfFuel
          end
      | None => Throw OutOfBounds
      end
  end.

(** [Initialize(V, r, W, H)] (lines 60-93): what it logs, and [W] and [H]
    when it returns. *)
Definition Initialize (V : mat) (r : nat)
  : list message * result (mat * mat) :=
  let n := n_rows V in
  let m := n_cols V in
  (if m <? columnsToAverage then [Warn_more_columns_than_available] else [],
   match fill_columns V 0 r (columns (zeros n r)) 0 with
   | Ok (W, _) =>
       Ok (Mat n ((fun c => vec_div c (of_size_t columnsToAverage)) <$> W),
           Mat r ((fun j => (fun i => uniform i j) <$> seq 0 r) <$> seq 0 m))
   | Throw e => Throw e
   | OutOfFuel => OutOfFuel
   end).

End Rule.

End RandomAcolInitialization.

(* ================================================================== *)
(** ** The numeric split of a Hoeffding tree                           *)
(* ================================================================== *)

(** [hoeffding_numeric_split_impl.hpp], with [double] observations. *)
Module HoeffdingNumericSplit.

(** An [arma::Mat<size_t>]: its row count and its columns. *)
Record umat : Type := UMat { u_n_rows : nat; u_columns : list (list nat) }.

(** The template parameter [FitnessFunction], with its static
    [Evaluate(counts)]. *)
Class FitnessFunction : Type :=
  fitness_Evaluate : umat -> double.

(** [arma::zeros<arma::Mat<size_t>>(r, c)] *)
Definition u_zeros (r c : nat) : umat := UMat r (replicate c (replicate r 0)).

(** [m(row, col)++], an access that Armadillo checks. *)
Definition u_incr (row col : nat) (m : umat) : result umat :=
  if (row <? u_n_rows m) && (col <? length (u_columns m))
  then Ok (UMat (u_n_rows m) (alter (alter S row) col (u_columns m)))
  else Throw OutOfBounds.

(** The object; the three [size_t] members that enter the arithmetic are
    integers modulo 2^64. *)
Record t : Type := mk {
  observations : list double;
  labels : list nat;
  splitPoints : list double;
  bins : Z;
  observationsBeforeBinning : Z;
  samplesSeen : Z;
  sufficientStatistics : umat
}.

Definition set_statistics (m : umat) (s : t) : t :=
  mk (observations s) (labels s) (splitPoints s) (bins s)
     (observationsBeforeBinning s) (samplesSeen s) m.

(** The constructor (lines 31-44). *)
Definition new (numClasses : nat) (bins observationsBeforeBinning : Z) : t :=
  let n := Z.to_nat (wrap (observationsBeforeBinning - 1)) in
  mk (replicate n zero) (replicate n 0) [] bins observationsBeforeBinning 0
     (u_zeros numClasses (Z.to_nat bins)).

(** [while (bin < bins - 1 && value > splitPoints[bin]) ++bin;] over the
    split points still ahead. *)
Fixpoint scan_bins (value : double) (ahead : list double) (bin : nat) : nat :=
  match ahead with
  | [] => bin
  | s :: ahead' => if gt value s then scan_bins value ahead' (S bin) else bin
  end.

(** The bin of a value (lines 99-101 and 109-111); the split points hold
    [bins - 1] entries since the resize of line 89. *)
Definition find_bin (bins : Z) (splitPoints : list double) (value : double)
  : nat :=
  scan_bins value (take (Z.to_nat (wrap (bins - 1))) splitPoints) 0.

(** One turn of the loop of lines 79-85. *)
Definition min_max_step (mm : double * double) (o : double)
  : double * double :=
  if lt o mm.1 then (o, mm.2)
  else if gt o mm.2 then (mm.1, o)
  else mm.

(** Lines 89-92. *)
Definition make_split_points (bins : Z) (min max : double) : list double :=
  let binWidth := div (sub max min) (of_Z bins) in
  (fun i => add min (mul (of_size_t (i + 1)) binWidth))
    <$> seq 0 (Z.to_nat (wrap (bins - 1))).

(** One turn of the loop of lines 96-104. *)
Definition count_stored (bins : Z) (splitPoints : list double)
    (r : result umat) (lo : nat * double) : result umat :=
  match r with
  | Ok m => u_incr lo.1 (find_bin bins splitPoints lo.2) m
  | other => other
  end.

(** [Train(value, label)] (lines 61-114) *)
Definition Train (value : double) (label : nat) (s : t) : result t :=
  let limit := wrap (observationsBeforeBinning s - 1) in
  if (samplesSeen s <? limit)%Z then
    Ok (mk (<[Z.to_nat (samplesSeen s) := value]> (observations s))
           (<[Z.to_nat (samplesSeen s) := label]> (labels s))
           (splitPoints s) (bins s) (observationsBeforeBinning s)
           (wrap (samplesSeen s + 1)) (sufficientStatistics s))
  else
    let binned :=
      if (samplesSeen s =? limit)%Z then
        let stored := take (Z.to_nat limit) (observations s) in
        let mm := foldl min_max_step (value, value) stored in
        let points := make_split_points (bins s) mm.1 mm.2 in
        match foldl (count_stored (bins s) points)
                    (Ok (sufficientStatistics s))
                    (zip (take (Z.to_nat limit) (labels s)) stored) with
        | Ok m =>
            Ok (mk (observations s) (labels s) points (bins s)
                   (observationsBeforeBinning s) (wrap (samplesSeen s + 1)) m)
        | Throw e => Throw e
        | OutOfFuel => OutOfFuel
        end
      else Ok s in
    match binned with
    | Ok s1 =>
        match u_incr label (find_bin (bins s1) (splitPoints s1) value)
                     (sufficientStatistics s1) with
        | Ok m => Ok (set_statistics m s1)
        | Throw e => Throw e
        | OutOfFuel => OutOfFuel
        end
    | other => other
    end.

(** [EvaluateFitnessFunction(bestFitness, secondBestFitness)]
    (lines 116-126): the two values it writes. *)
Definition EvaluateFitnessFunction {FF : FitnessFunction} (s : t)
  : double * double :=
  (if (samplesSeen s <? observationsBeforeBinning s)%Z then zero
   else fitness_Evaluate (sufficientStatistics s),
   zero).

(** A stream of samples given to [Train] one after the other. *)
Fixpoint train_all (samples : list (double * nat)) (s : t) : result t :=
  match samples with
  | [] => Ok s
  | (value, label) :: samples' =>
      match Train value label s with
      | Ok s1 => train_all samples' s1
      | other => other
      end
  end.

(** The number of samples of class [c] that the statistics hold. *)
Definition class_total (c : nat) (m : umat) : nat :=
  foldr (fun col acc => default 0 (col !! c) + acc) 0 (u_columns m).

(** The number of samples of a stream that carry the label [c]. *)
Definition label_count (c : nat) (samples : list (double * nat)) : nat :=
  length (filter (fun vl => vl.2 = c) samples).

(** Statistics with one row per class and one column per bin. *)
Definition stats_shaped (numClasses nbins : nat) (m : umat) : Prop :=
  u_n_rows m = numClasses /\ length (u_columns m) = nbins /\
  Forall (fun col => length col = numClasses) (u_columns m).

(** The object that has only stored the samples [seen]: they fill the
    front of [observations] and [labels] in the order of arrival, the rest
    is as the constructor left it. *)
Definition collecting (numClasses : nat) (bins observationsBeforeBinning : Z)
    (seen : list (double * nat)) : t :=
  let n := Z.to_nat (wrap (observationsBeforeBinning - 1)) in
  mk ((fst <$> seen) ++ replicate (n - length seen) zero)
     ((snd <$> seen) ++ replicate (n - length seen) 0)
     [] bins observationsBeforeBinning (Z.of_nat (length seen))
     (u_zeros numClasses (Z.to_nat bins)).

End HoeffdingNumericSplit.

(* ================================================================== *)
(** ** Order facts on doubles                                          *)
(* ================================================================== *)

Ltac compare_cases :=
  repeat match goal with
    | s : bool |- _ => destruct s
    end;
  simpl; try congruence;
  repeat match goal with
    | |- context [Pos.compare_cont Eq ?a ?b] =>
        change (Pos.compare_cont Eq a b) with (Pos.compare a b)
    end;
  repeat match goal with
    | |- context [Z.compare ?a ?b] => destruct (Z.compare_spec a b)
    end;
  try congruence; try lia;
  repeat match goal with
    | |- context [Pos.compare ?a ?b] => destruct (Pos.compare_spec a b)
    end;
  simpl; try congruence; try lia.

Lemma SFcompare_lt_trans (a b c : double) :
  SFcompare a b = Some Lt -> SFcompare b c = Some Lt ->
  SFcompare a c = Some Lt.
Proof.
  destruct a as [sa|sa| |sa ma ea], b as [sb|sb| |sb mb eb],
           c as [sc|sc| |sc mc ec]; compare_cases.
Qed.

Lemma SFcompare_eq_lt_trans (a b c : double) :
  SFcompare a b = Some Eq -> SFcompare b c = Some Lt ->
  SFcompare a c = Some Lt.
Proof.
  destruct a as [sa|sa| |sa ma ea], b as [sb|sb| |sb mb eb],
           c as [sc|sc| |sc mc ec]; compare_cases.
Qed.

Lemma lt_trans (a b c : double) :
  lt a b = true -> lt b c = true -> lt a c = true.
Proof.
  unfold lt, SFltb. intros Hab Hbc.
  destruct (SFcompare a b) as [[]|] eqn:Eab; try discriminate.
  destruct (SFcompare b c) as [[]|] eqn:Ebc; try discriminate.
  by rewrite (SFcompare_lt_trans a b c).
Qed.

Lemma le_lt_trans (a b c : double) :
  le a b = true -> lt b c = true -> lt a c = true.
Proof.
  unfold le, lt, SFleb, SFltb. intros Hab Hbc.
  destruct (SFcompare b c) as [[]|] eqn:Ebc; try discriminate.
  destruct (SFcompare a b) as [[]|] eqn:Eab; try discriminate.
  - by rewrite (SFcompare_eq_lt_trans a b c).
  - by rewrite (SFcompare_lt_trans a b c).
Qed.

Lemma lt_irrefl (a : double) : lt a a = false.
Proof.
  unfold lt, SFltb.
  destruct a as [s|s| |s m e]; try destruct s; simpl; try reflexivity;
    rewrite Z.compare_refl;
    change (Pos.compare_cont Eq m m) with (Pos.compare m m);
    by rewrite Pos.compare_refl.
Qed.

Lemma clamp_residual_gt (cNorm : double) :
  isnan cNorm || isinf cNorm = true ->
  gt (clamp_residual cNorm) lit_1e_5 = true.
Proof. unfold clamp_residual. by intros ->. Qed.

(* ================================================================== *)
(** ** Facts about computations                                        *)
(* ================================================================== *)

Section Computations.

Context {St : Type}.

Lemma bind_trace {A B} (m : M St A) (k : A -> M St B) (s : St) :
  out_trace (bind m k s) =
  out_trace (m s) ++
  match out_val (m s) with
  | Ok a => out_trace (k a (out_state (m s)))
  | _ => []
  end.
Proof.
  unfold bind. destruct (out_val (m s)); simpl; by rewrite ?app_nil_r.
Qed.

Lemma bind_Ok {A B} (m : M St A) (k : A -> M St B) s t s' a :
  m s = Outcome t s' (Ok a) ->
  bind m k s =
  Outcome (t ++ out_trace (k a s')) (out_state (k a s')) (out_val (k a s')).
Proof. unfold bind. by intros ->. Qed.

Lemma bind_silent {A B} (m : M St A) (k : A -> M St B) s s' a :
  m s = Outcome [] s' (Ok a) -> bind m k s = k a s'.
Proof. intros H. rewrite (bind_Ok _ _ _ _ _ _ H). simpl. by destruct (k a s'). Qed.

Lemma bind_Throw {A B} (m : M St A) (k : A -> M St B) s t s' e :
  m s = Outcome t s' (Throw e) -> bind m k s = Outcome t s' (Throw e).
Proof. unfold bind. by intros ->. Qed.

Lemma bind_returns {A B} (m : M St A) (k : A -> M St B) s t s' b :
  bind m k s = Outcome t s' (Ok b) ->
  exists t1 s1 a t2,
    m s = Outcome t1 s1 (Ok a) /\ k a s1 = Outcome t2 s' (Ok b) /\
    t = t1 ++ t2.
Proof.
  unfold bind. destruct (m s) as [t1 s1 [a|e|]]; simpl; try discriminate.
  destruct (k a s1) as [t2 s2 r] eqn:E. simpl. intros [= <- <- ->].
  by exists t1, s1, a, t2.
Qed.

(** An invariant of the carried value and the state that every returning
    turn keeps is kept by the returning loop. *)
Lemma for_loop_inv {A} (J : A -> St -> Prop) (body : nat -> A -> M St A) :
  (forall i a s t s' a',
      J a s -> body i a s = Outcome t s' (Ok a') -> J a' s') ->
  forall n start a s t s' a',
    J a s -> for_loop start n body a s = Outcome t s' (Ok a') -> J a' s'.
Proof.
  intros Hb. induction n as [|n IH]; intros start a s t s' a' HJ; simpl.
  - by intros [= _ <- <-].
  - intros H. apply bind_returns in H as (t1 & s1 & a1 & t2 & H1 & H2 & _).
    eauto.
Qed.

Lemma for_loop_total {A} (body : nat -> A -> M St A) :
  (forall i a s, out_val (body i a s) <> OutOfFuel) ->
  forall n start a s, out_val (for_loop start n body a s) <> OutOfFuel.
Proof.
  intros Hb. induction n as [|n IH]; intros start a s; simpl; [done|].
  unfold bind. specialize (Hb start a s).
  destruct (body start a s) as [t s1 [a1|e|]]; simpl in *; try done.
Qed.

Lemma for_loop_throws {A} (E : exn -> Prop) (body : nat -> A -> M St A) :
  (forall i a s e, out_val (body i a s) = Throw e -> E e) ->
  forall n start a s e, out_val (for_loop start n body a s) = Throw e -> E e.
Proof.
  intros Hb. induction n as [|n IH]; intros start a s e; simpl; [done|].
  unfold bind. specialize (Hb start a s).
  destruct (body start a s) as [t s1 [a1|e1|]]; simpl in *; try done.
  - apply IH.
  - intros [= <-]. by apply Hb.
Qed.

End Computations.

(* ================================================================== *)
(** ** Tame computations                                               *)
(* ================================================================== *)

Section Tame.

Context {MT PT ET : Type}.
Local Abbreviation frame := (frame MT PT ET).

Lemma tame_ret {A} P d (a : A) : tame P d (ret a : M frame A).
Proof. intros s. simpl. auto. Qed.

Lemma tame_get P d : tame P d (get : M frame frame).
Proof. intros s. simpl. auto. Qed.

Lemma tame_emit P d e : P e -> tame P d (emit e : M frame unit).
Proof. intros H s. simpl. auto. Qed.

Lemma tame_throw {A} P d e :
  e <> Fatal -> tame P d (throw e : M frame A).
Proof. intros H s. simpl. split_and!; auto. congruence. Qed.

Lemma tame_diverge {A} P : tame P true (diverge : M frame A).
Proof. intros s. simpl. split_and!; auto. Qed.

Lemma tame_modify P d (f : frame -> frame) :
  (forall s, maxIterations (this (f s)) = maxIterations (this s)) ->
  tame P d (modify f).
Proof. intros H s. simpl. auto. Qed.

Lemma tame_bind {A B} P d (m : M frame A) (k : A -> M frame B) :
  tame P d m -> (forall a, tame P d (k a)) -> tame P d (bind m k).
Proof.
  intros Hm Hk s. destruct (Hm s) as (Ht & Hv & Hf & Hs).
  unfold bind. destruct (m s) as [t s1 [a|e|]]; simpl in *;
    [| split_and!; [done | intros [= ->]; by destruct Hv | done | done]
     | split_and!; [done | done | intros Hd; by destruct (Hf Hd) | done] ].
  destruct (Hk a s1) as (Ht' & Hv' & Hf' & Hs').
  split_and!; [apply Forall_app; auto | auto | auto | congruence].
Qed.

Lemma tame_when P d (c : bool) (m : M frame unit) :
  tame P d m -> tame P d (when c m).
Proof. destruct c; simpl; auto using tame_ret. Qed.

Lemma tame_for_loop {A} P d (body : nat -> A -> M frame A) n :
  (forall i a, tame P d (body i a)) ->
  forall start a, tame P d (for_loop start n body a).
Proof.
  intros Hb. induction n as [|n IH]; intros start a; simpl.
  - apply tame_ret.
  - apply tame_bind; auto.
Qed.

Lemma tame_do_while {A} P (body : A -> M frame (A * bool)) fuel :
  (forall a, tame P true (body a)) ->
  forall a, tame P true (do_while fuel body a).
Proof.
  intros Hb. induction fuel as [|fuel IH]; intros a; simpl.
  - apply tame_diverge.
  - apply tame_bind; auto. intros [a' []]; simpl; auto using tame_ret.
Qed.

Lemma tame_weaken {A} (P Q : event -> Prop) (d d' : bool) (m : M frame A) :
  (forall e, P e -> Q e) -> (d = true -> d' = true) ->
  tame P d m -> tame Q d' m.
Proof.
  intros HPQ Hd Hm s. destruct (Hm s) as (Ht & Hv & Hf & Hs).
  split_and!; auto.
  - eapply Forall_impl; eauto.
  - intros ->. apply Hf. destruct d; auto. by specialize (Hd eq_refl).
Qed.

End Tame.

Ltac tame_step :=
  match goal with
  | |- tame _ _ (match ?x with _ => _ end) => destruct x
  | |- tame _ _ (let '(_, _) := ?x in _) => destruct x
  | |- tame _ _ (if ?c then _ else _) => destruct c
  | |- tame _ _ (bind _ _) => apply tame_bind
  | |- tame _ _ (when _ _) => apply tame_when
  | |- tame _ _ (for_loop _ _ _ _) => apply tame_for_loop
  | |- tame _ _ (do_while _ _ _) => apply tame_do_while
  | |- tame _ _ (ret _) => apply tame_ret
  | |- tame _ _ get => apply tame_get
  | |- tame _ _ (emit _) => apply tame_emit; done
  | |- tame _ _ (throw _) => apply tame_throw; discriminate
  | |- tame _ _ (modify _) => apply tame_modify; intros; reflexivity
  | |- forall _, _ => intro
  end.

Ltac tame_auto := repeat tame_step.

Section Engine.

Context {MT PT ET LT : Type}.
Context `{!MetricType MT, !InitialPartitionPolicy PT,
          !EmptyClusterPolicy MT ET, !LloydStepType MT LT}.
Local Abbreviation frame := (frame MT PT ET).
Local Abbreviation locals := (locals LT).

Lemma tame_update_col P d f j : tame P d (update_col f j : M frame unit).
Proof. unfold update_col. tame_auto. Qed.

Lemma tame_centroids_from_assignments P d data clusters asg :
  tame P d (centroids_from_assignments data clusters asg : M frame unit).
Proof.
  unfold centroids_from_assignments.
  tame_auto; try apply tame_update_col.
Qed.

Lemma tame_initial_centroids d data clusters g :
  tame (in_phase Partitioning) d (initial_centroids data clusters g : M frame unit).
Proof.
  unfold initial_centroids, GetInitialAssignmentsOrCentroids.
  tame_auto; try apply tame_centroids_from_assignments.
Qed.

Lemma tame_loop_body d data clusters (lv : locals) :
  tame (in_phase Looping) d (loop_body data clusters lv : M frame (locals * bool)).
Proof.
  unfold loop_body, lloyd_iterate, empty_cluster_check. tame_auto.
Qed.

Lemma tame_convergence_loop fuel data clusters :
  tame (in_phase Looping) true (convergence_loop fuel data clusters : M frame locals).
Proof.
  unfold convergence_loop. tame_auto. apply tame_loop_body.
Qed.

Lemma tame_after_loop d (lv : locals) :
  tame (in_phase Closing) d (after_loop lv : M frame unit).
Proof. unfold after_loop. tame_auto. Qed.

Lemma tame_final_assignments P d DEBUG data :
  tame P d (final_assignments DEBUG data : M frame unit).
Proof. unfold final_assignments, Log_Assert. tame_auto. Qed.

End Engine.

(* ================================================================== *)
(** ** The configuration checks and the shape of a call                *)
(* ================================================================== *)

Section Calls.

Context {MT PT ET LT : Type}.
Context `{!MetricType MT, !InitialPartitionPolicy PT,
          !EmptyClusterPolicy MT ET, !LloydStepType MT LT}.
Local Abbreviation frame := (frame MT PT ET).
Local Abbreviation locals := (locals LT).

Lemma check_configuration_outcome data clusters g (fr : frame) :
  check_configuration data clusters g fr =
  Outcome (expected_warnings data clusters ++
           (if g then guess_complaints data clusters (centroids fr) else []))
          fr
          (if g && centroid_guess_mismatch data clusters (centroids fr)
           then Throw Fatal else Ok tt).
Proof.
  unfold expected_warnings, guess_complaints, centroid_guess_mismatch.
  cbv [check_configuration bind get when Log_Fatal emit throw ret
       out_val out_state out_trace].
  destruct (n_cols data <? clusters), (clusters =? 0), g,
    (n_cols (centroids fr) =? clusters),
    (n_rows (centroids fr) =? n_rows data); reflexivity.
Qed.

Lemma guess_complaints_accepted data clusters c :
  centroid_guess_mismatch data clusters c = false ->
  guess_complaints data clusters c = [].
Proof.
  unfold centroid_guess_mismatch, guess_complaints.
  by destruct (n_cols c =? clusters), (n_rows c =? n_rows data).
Qed.

(** A rejected guess ends the call in the configuration checks. *)
Lemma Cluster_rejected fuel data clusters g (fr : frame) :
  g && centroid_guess_mismatch data clusters (centroids fr) = true ->
  Cluster (LT := LT) fuel data clusters g fr =
  Outcome (expected_warnings data clusters ++
           guess_complaints data clusters (centroids fr))
          fr (Throw Fatal).
Proof.
  intros Hbad. unfold Cluster.
  erewrite bind_Throw; [reflexivity|].
  rewrite check_configuration_outcome, Hbad.
  by destruct g.
Qed.

(** Otherwise the call goes on after the warnings. *)
Lemma Cluster_accepted fuel data clusters g (fr : frame) :
  g && centroid_guess_mismatch data clusters (centroids fr) = false ->
  Cluster (LT := LT) fuel data clusters g fr =
  let o := bind (initial_centroids data clusters g)
             (fun _ => bind (convergence_loop fuel data clusters) after_loop)
             fr in
  Outcome (expected_warnings data clusters ++ out_trace o)
          (out_state o) (out_val o).
Proof.
  intros Hok. unfold Cluster.
  erewrite bind_Ok; [reflexivity|].
  rewrite check_configuration_outcome, Hok.
  destruct g; [|by rewrite app_nil_r].
  rewrite guess_complaints_accepted, ?app_nil_r; done.
Qed.

Lemma tame_after_checks fuel data clusters g :
  tame (fun e => phase_of e <> Configuration) true
       (bind (initial_centroids data clusters g)
          (fun _ => bind (convergence_loop (LT := LT) fuel data clusters)
                      after_loop) : M frame unit).
Proof.
  assert (forall ph, ph <> Configuration -> forall e, in_phase ph e ->
                     phase_of e <> Configuration) as Hph
    by (unfold in_phase; congruence).
  apply tame_bind.
  - eapply tame_weaken; [apply (Hph Partitioning); done | done |].
    apply (tame_initial_centroids true).
  - intros _. apply tame_bind.
    + eapply tame_weaken; [apply (Hph Looping); done | done |].
      apply tame_convergence_loop.
    + intros lv. eapply tame_weaken; [apply (Hph Closing); done | done |].
      apply (tame_after_loop true).
Qed.

Lemma warnings_none (t : list event) :
  Forall (fun e => is_warning e = false) t -> warnings t = [].
Proof.
  unfold warnings. induction 1 as [|e t He _ IH]; [done|].
  rewrite filter_cons_False; [done|]. by rewrite He.
Qed.

Lemma warnings_expected data clusters :
  warnings (expected_warnings data clusters) = expected_warnings data clusters.
Proof.
  unfold expected_warnings.
  by destruct (n_cols data <? clusters), (clusters =? 0).
Qed.

Lemma warnings_app (t1 t2 : list event) :
  warnings (t1 ++ t2) = warnings t1 ++ warnings t2.
Proof. apply filter_app. Qed.

Lemma warnings_complaints data clusters c :
  warnings (guess_complaints data clusters c) = [].
Proof.
  unfold guess_complaints.
  by destruct (n_cols c =? clusters), (n_rows c =? n_rows data).
Qed.

Lemma not_configuration_not_warning (e : event) :
  phase_of e <> Configuration -> is_warning e = false.
Proof. by destruct e. Qed.

Lemma Cluster_warnings fuel data clusters g (fr : frame) :
  warnings (out_trace (Cluster (LT := LT) fuel data clusters g fr)) =
  expected_warnings data clusters.
Proof.
  destruct (g && centroid_guess_mismatch data clusters (centroids fr))
    eqn:Hg.
  - rewrite Cluster_rejected by done. simpl.
    by rewrite warnings_app, warnings_expected, warnings_complaints,
      app_nil_r.
  - rewrite Cluster_accepted by done. simpl.
    rewrite warnings_app, warnings_expected.
    rewrite warnings_none; [by rewrite app_nil_r|].
    destruct (tame_after_checks fuel data clusters g fr) as (Ht & _).
    eapply Forall_impl; [exact Ht|].
    apply not_configuration_not_warning.
Qed.

End Calls.

(* ================================================================== *)
(** ** The convergence loop                                            *)
(* ================================================================== *)

Section Loop.

Context {MT PT ET LT : Type}.
Context `{!MetricType MT, !InitialPartitionPolicy PT,
          !EmptyClusterPolicy MT ET, !LloydStepType MT LT}.
Local Abbreviation frame := (frame MT PT ET).
Local Abbreviation locals := (locals LT).

Lemma lloyd_iterate_outcome (lv : locals) (fr : frame) :
  exists fr1 lv1 cNorm,
    lloyd_iterate lv fr =
    Outcome [Call_Iterate (target_of (iteration lv))] fr1 (Ok (lv1, cNorm)) /\
    iteration lv1 = iteration lv /\ this fr1 = this fr.
Proof.
  unfold lloyd_iterate, target_of.
  cbv [bind get emit modify ret out_val out_state out_trace].
  destruct (iteration lv mod 2 =? 0)%Z.
  - destruct (Iterate _ _ _ _) as [[[ls new] cnt] r]. simpl. eauto 10.
  - destruct (Iterate _ _ _ _) as [[[ls new] cnt] r]. simpl. eauto 10.
Qed.

Lemma tame_empty_cluster_check d data i (lv : locals) :
  tame quiet d (empty_cluster_check data i lv : M frame locals).
Proof. unfold empty_cluster_check. tame_auto. Qed.

Lemma empty_cluster_check_iteration data i (lv lv' : locals)
    (fr fr' : frame) t :
  empty_cluster_check data i lv fr = Outcome t fr' (Ok lv') ->
  iteration lv' = iteration lv.
Proof.
  unfold empty_cluster_check.
  cbv [bind get emit modify ret throw out_val out_state out_trace].
  destruct (counts lv !! i) as [[|n]|]; try discriminate.
  - destruct (iteration lv mod 2 =? 0)%Z;
      destruct (EmptyCluster _ _ _ _ _ _ _ _) as [[e new] cnt]; simpl;
      by intros [= _ _ <-].
  - by intros [= _ _ <-].
Qed.

Lemma empty_cluster_check_total data i (lv : locals) (fr : frame) :
  out_val (empty_cluster_check data i lv fr) <> OutOfFuel.
Proof.
  unfold empty_cluster_check.
  cbv [bind get emit modify ret throw out_val out_state out_trace].
  destruct (counts lv !! i) as [[|n]|]; try done.
  destruct (iteration lv mod 2 =? 0)%Z;
    by destruct (EmptyCluster _ _ _ _ _ _ _ _) as [[e new] cnt].
Qed.

(** The two ways a pass of the loop can end. *)
Lemma loop_body_cases data clusters (lv : locals) (fr : frame) :
  exists pre, Forall quiet pre /\
    ((exists fr' lv' cNorm,
         loop_body data clusters lv fr =
         Outcome (Call_Iterate (target_of (iteration lv)) ::
                  pre ++ [Info_iteration (iteration lv') cNorm])
                 fr'
                 (Ok (lv', loop_condition (clamp_residual cNorm)
                             (iteration lv') (maxIterations (this fr')))) /\
         iteration lv' = wrap (iteration lv + 1) /\
         maxIterations (this fr') = maxIterations (this fr) /\
         exists fr1 lv1,
           lloyd_iterate lv fr =
           Outcome [Call_Iterate (target_of (iteration lv))] fr1
                   (Ok (lv1, cNorm))) \/
     (exists fr' e,
         e <> Fatal /\
         loop_body data clusters lv fr =
         Outcome (Call_Iterate (target_of (iteration lv)) :: pre) fr'
                 (Throw e))).
Proof.
  destruct (lloyd_iterate_outcome lv fr) as (fr1 & lv1 & cNorm & H1 & Hit & Hthis).
  unfold loop_body. rewrite (bind_Ok _ _ _ _ _ _ H1).
  pose proof (tame_for_loop quiet false (empty_cluster_check data) clusters
                (tame_empty_cluster_check false data) 0 lv1 fr1)
    as (Ht & Hv & _ & Hs).
  pose proof (for_loop_total (empty_cluster_check data)
                (empty_cluster_check_total data) clusters 0 lv1 fr1) as Hf.
  destruct (for_loop 0 clusters (empty_cluster_check data) lv1 fr1)
    as [t2 fr2 [lv2|e|]] eqn:H2; simpl in *; [| |done].
  - exists t2. split; [done|]. left.
    exists fr2, (mkLocals (counts lv2) (wrap (iteration lv2 + 1))
                   (lloydStep lv2) (centroidsOther lv2)), cNorm.
    assert (iteration lv2 = iteration lv) as Hit2.
    { rewrite <- Hit.
      eapply (for_loop_inv (fun a _ => iteration a = iteration lv1));
        [|reflexivity|exact H2].
      intros i a s t s' a' Ha Hb.
      apply empty_cluster_check_iteration in Hb. congruence. }
    split_and!.
    + erewrite bind_Ok by exact H2.
      cbv [bind get emit modify ret out_val out_state out_trace]. simpl.
      reflexivity.
    + simpl. by rewrite Hit2.
    + rewrite Hs. by rewrite Hthis.
    + eauto.
  - exists t2. split; [done|]. right. exists fr2, e. split.
    + intros ->. done.
    + erewrite bind_Throw by exact H2. done.
Qed.

Lemma iterations_run_cons_call b t :
  iterations_run (Call_Iterate b :: t) = S (iterations_run t).
Proof. unfold iterations_run. by rewrite filter_cons_True. Qed.

Lemma iterations_run_app t1 t2 :
  iterations_run (t1 ++ t2) = iterations_run t1 + iterations_run t2.
Proof. unfold iterations_run. by rewrite filter_app, length_app. Qed.

Lemma iterations_run_none t :
  Forall (fun e => is_Call_Iterate e = false) t -> iterations_run t = 0.
Proof.
  unfold iterations_run. induction 1 as [|e t He _ IH]; [done|].
  rewrite filter_cons_False; [done|]. by rewrite He.
Qed.

Lemma quiet_no_call t :
  Forall quiet t -> Forall (fun e => is_Call_Iterate e = false) t.
Proof. intros H. eapply Forall_impl; [exact H|]. by intros e (_ & ? & _). Qed.

Lemma wrap_range z : (0 <= wrap z < size_t_modulus)%Z.
Proof. unfold wrap, size_t_modulus. apply Z.mod_pos_bound. lia. Qed.

Lemma wrap_small z : (0 <= z < size_t_modulus)%Z -> wrap z = z.
Proof. unfold wrap. intros. by apply Z.mod_small. Qed.

Lemma wrap_succ_pred z :
  (0 <= z < size_t_modulus)%Z -> wrap (wrap (z + 1) - 1) = z.
Proof.
  unfold wrap, size_t_modulus. intros Hz.
  destruct (decide (z + 1 = 2 ^ 64)%Z) as [E|E].
  - rewrite E, Z.mod_same by lia. change ((0 - 1) mod 2 ^ 64)%Z
      with (2 ^ 64 - 1)%Z. lia.
  - rewrite (Z.mod_small (z + 1)) by lia.
    replace (z + 1 - 1)%Z with z by lia. apply Z.mod_small. lia.
Qed.

End Loop.

Section Bounds.

Context {MT PT ET LT : Type}.
Context `{!MetricType MT, !InitialPartitionPolicy PT,
          !EmptyClusterPolicy MT ET, !LloydStepType MT LT}.
Local Abbreviation frame := (frame MT PT ET).
Local Abbreviation locals := (locals LT).

Lemma convergence_loop_unfold fuel data clusters (fr : frame) :
  convergence_loop (LT := LT) fuel data clusters fr =
  do_while fuel (loop_body data clusters)
    (mkLocals (replicate clusters 0) 0%Z
              (LloydStep_new data (metric (this fr))) empty_mat) fr.
Proof.
  unfold convergence_loop. by rewrite (bind_silent get _ fr fr fr).
Qed.

Lemma loop_condition_limit cNorm it Mx :
  loop_condition cNorm it Mx = true -> it <> Mx.
Proof.
  unfold loop_condition. intros [_ H]%andb_prop.
  apply negb_true_iff in H. by apply Z.eqb_neq.
Qed.

(** Events of a phase other than the loop count for no iteration. *)
Lemma outside_loop_events ph t :
  ph <> Looping -> Forall (in_phase ph) t ->
  iterations_run t = 0 /\ Forall (fun e => is_Info_iteration e = false) t.
Proof.
  intros Hph Ht. split.
  - apply iterations_run_none. eapply Forall_impl; [exact Ht|].
    unfold in_phase. intros [] He; try done; by rewrite <- He in Hph.
  - eapply Forall_impl; [exact Ht|].
    unfold in_phase. intros [] He; try done; by rewrite <- He in Hph.
Qed.

Lemma configuration_events data clusters g c :
  Forall (in_phase Configuration)
         (expected_warnings data clusters ++
          (if g : bool then guess_complaints data clusters c else [])).
Proof.
  unfold expected_warnings, guess_complaints, in_phase.
  destruct (n_cols data <? clusters), (clusters =? 0), g,
    (n_cols c =? clusters), (n_rows c =? n_rows data); simpl;
    repeat constructor.
Qed.

Lemma do_while_bounded data clusters (Mx : Z) :
  (0 < Mx < size_t_modulus)%Z ->
  forall fuel (lv : locals) (fr : frame),
    (0 <= iteration lv < Mx)%Z -> maxIterations (this fr) = Mx ->
    let o := do_while fuel (loop_body data clusters) lv fr in
    (Z.of_nat (iterations_run (out_trace o)) <= Mx - iteration lv)%Z /\
    Forall (fun e => forall i r, e = Info_iteration i r ->
                                 (iteration lv < i <= Mx)%Z) (out_trace o) /\
    ((Mx - iteration lv <= Z.of_nat fuel)%Z -> out_val o <> OutOfFuel).
Proof.
  intros HM. induction fuel as [|fuel IH]; intros lv fr Hit Hmax; simpl.
  - split_and!; [unfold iterations_run; simpl; lia | constructor | lia].
  - destruct (loop_body_cases data clusters lv fr)
      as (pre & Hpre & [(fr' & lv' & c & Hb & Hit' & Hmax' & _)
                       |(fr' & e & He & Hb)]).
    + assert (Hquiet : Forall (fun e => forall i r, e = Info_iteration i r ->
                 (iteration lv < i <= Mx)%Z) pre).
      { eapply Forall_impl; [exact Hpre|].
        intros e (_ & _ & Hi) i r ->. done. }
      rewrite wrap_small in Hit' by lia.
      rewrite (bind_Ok _ _ _ _ _ _ Hb). simpl fst. simpl snd.
      destruct (loop_condition _ _ _) eqn:Hc.
      * apply loop_condition_limit in Hc.
        rewrite Hmax', Hmax in Hc.
        destruct (IH lv' fr') as (IH1 & IH2 & IH3); [lia|congruence|].
        simpl. split_and!.
        -- rewrite iterations_run_cons_call, !iterations_run_app.
           rewrite (iterations_run_none pre) by by apply quiet_no_call.
           rewrite (iterations_run_none [_]) by by repeat constructor.
           lia.
        -- constructor; [done|]. rewrite <- app_assoc.
           apply Forall_app. split; [done|].
           constructor; [intros i r [= <- _]; lia|].
           eapply Forall_impl; [exact IH2|].
           intros e0 H0 i r Hi. specialize (H0 i r Hi). lia.
        -- intros Hf. apply IH3. lia.
      * simpl. split_and!.
        -- rewrite app_nil_r, iterations_run_cons_call, iterations_run_app.
           rewrite (iterations_run_none pre) by by apply quiet_no_call.
           rewrite (iterations_run_none [_]) by by repeat constructor.
           lia.
        -- rewrite app_nil_r. constructor; [done|].
           apply Forall_app. split; [done|].
           constructor; [intros i r [= <- _]; lia|constructor].
        -- done.
    + rewrite (bind_Throw _ _ _ _ _ _ Hb). simpl. split_and!.
      * rewrite iterations_run_cons_call.
        rewrite (iterations_run_none pre) by by apply quiet_no_call. lia.
      * constructor; [done|].
        eapply Forall_impl; [exact Hpre|].
        intros e0 (_ & _ & Hi) i r ->. done.
      * done.
Qed.

End Bounds.

Section LoopClaims.

Context {MT PT ET LT : Type}.
Context `{!MetricType MT, !InitialPartitionPolicy PT,
          !EmptyClusterPolicy MT ET, !LloydStepType MT LT}.
Local Abbreviation frame := (frame MT PT ET).
Local Abbreviation locals := (locals LT).

Lemma loop_then_close_bounded fuel data clusters (fr : frame) (Mx : Z) :
  (0 < Mx < size_t_modulus)%Z -> maxIterations (this fr) = Mx ->
  let o := bind (convergence_loop (LT := LT) fuel data clusters)
                after_loop fr in
  (Z.of_nat (iterations_run (out_trace o)) <= Mx)%Z /\
  Forall (fun e => forall i r, e = Info_iteration i r -> (0 < i <= Mx)%Z)
         (out_trace o) /\
  ((Mx <= Z.of_nat fuel)%Z -> out_val o <> OutOfFuel).
Proof.
  intros HM Hmax. cbv zeta.
  pose proof (do_while_bounded data clusters Mx HM fuel
                (mkLocals (replicate clusters 0) 0%Z
                   (LloydStep_new data (metric (this fr))) empty_mat) fr)
    as Hloop.
  simpl in Hloop. destruct Hloop as (H1 & H2 & H3); [lia|done|].
  rewrite <- convergence_loop_unfold in H1, H2, H3.
  rewrite Z.sub_0_r in H1, H3.
  unfold bind.
  destruct (convergence_loop fuel data clusters fr) as [tl fr1 [lv| e |]];
    simpl in *;
    [| split_and!; done
     | split_and!; [done | done | intros Hle; by destruct (H3 Hle)] ].
  destruct (tame_after_loop false lv fr1) as (Ha & _ & Hf & _).
  destruct (outside_loop_events Closing _ ltac:(done) Ha) as (Hn & Hi).
  split_and!.
  - rewrite iterations_run_app, Hn. lia.
  - apply Forall_app. split; [done|].
    eapply Forall_impl; [exact Hi|]. by intros e He i r ->.
  - intros _. by apply Hf.
Qed.

(** C4: for a run with iteration limit [Mx > 0], the loop starts at most
    [Mx] iterations, every iteration number it reports lies in [1, Mx],
    and [Mx] units of fuel are enough for the call to come to an end. *)
Theorem C4_iteration_limit fuel data clusters g (fr : frame) (Mx : Z) :
  (0 < Mx < size_t_modulus)%Z -> maxIterations (this fr) = Mx ->
  let o := Cluster (LT := LT) fuel data clusters g fr in
  (Z.of_nat (iterations_run (out_trace o)) <= Mx)%Z /\
  Forall (fun e => forall i r, e = Info_iteration i r -> (0 < i <= Mx)%Z)
         (out_trace o) /\
  ((Mx <= Z.of_nat fuel)%Z -> out_val o <> OutOfFuel).
Proof.
  intros HM Hmax. cbv zeta.
  destruct (g && centroid_guess_mismatch data clusters (centroids fr))
    eqn:Hg.
  - rewrite Cluster_rejected by done. simpl.
    pose proof (configuration_events data clusters true (centroids fr)) as Hc.
    destruct (outside_loop_events Configuration _ ltac:(done) Hc)
      as (Hn & Hi).
    split_and!; [rewrite Hn; lia | | done].
    eapply Forall_impl; [exact Hi|]. by intros e He i r ->.
  - rewrite Cluster_accepted by done. cbv zeta. simpl.
    pose proof (configuration_events data clusters false (centroids fr)) as Hc.
    rewrite app_nil_r in Hc.
    destruct (outside_loop_events Configuration _ ltac:(done) Hc)
      as (Hcn & Hci).
    destruct (tame_initial_centroids false data clusters g fr)
      as (Ht & _ & Hf & Hs).
    destruct (outside_loop_events Partitioning _ ltac:(done) Ht)
      as (Hpn & Hpi).
    assert (Hskip : forall t, Forall (fun e => is_Info_iteration e = false) t ->
              Forall (fun e => forall i r, e = Info_iteration i r ->
                                           (0 < i <= Mx)%Z) t).
    { intros t Hq. eapply Forall_impl; [exact Hq|]. by intros e He i r ->. }
    set (rest := bind (convergence_loop (LT := LT) fuel data clusters)
                      after_loop).
    unfold bind.
    destruct (initial_centroids data clusters g fr) as [ti fr1 [[]|e|]];
      simpl in *.
    + destruct (loop_then_close_bounded fuel data clusters fr1 Mx HM)
        as (H1 & H2 & H3); [congruence|].
      fold rest in H1, H2, H3.
      split_and!.
      * rewrite !iterations_run_app, Hcn, Hpn. lia.
      * rewrite !Forall_app. auto.
      * done.
    + split_and!; [rewrite iterations_run_app, Hcn, Hpn; lia | | done].
      rewrite Forall_app. auto.
    + by destruct Hf.
Qed.

End LoopClaims.

Section Buffers.

Context {MT PT ET LT : Type}.
Context `{!MetricType MT, !InitialPartitionPolicy PT,
          !EmptyClusterPolicy MT ET, !LloydStepType MT LT}.
Local Abbreviation frame := (frame MT PT ET).
Local Abbreviation locals := (locals LT).

Lemma last_written_app t1 t2 acc :
  last_written (t1 ++ t2) acc = last_written t2 (last_written t1 acc).
Proof.
  revert acc. induction t1 as [|e t1 IH]; intros acc; [done|].
  destruct e; simpl; apply IH.
Qed.

Lemma last_written_quiet t acc :
  Forall (fun e => is_Call_Iterate e = false) t -> last_written t acc = acc.
Proof.
  intros Ht. revert acc. induction Ht as [|e t He _ IH]; intros acc; [done|].
  destruct e; simpl; try apply IH. discriminate.
Qed.

(** A returning loop has run its body, and the last [Iterate] call wrote
    the buffer chosen by the parity of the last iteration number. *)
Lemma do_while_returns data clusters :
  forall fuel (lv : locals) (fr : frame) t fr' lv',
    (0 <= iteration lv < size_t_modulus)%Z ->
    do_while fuel (loop_body data clusters) lv fr = Outcome t fr' (Ok lv') ->
    (forall acc,
        last_written t acc = Some (target_of (wrap (iteration lv' - 1)))) /\
    exists pre r t2,
      t = Call_Iterate (target_of (iteration lv)) ::
          pre ++ Info_iteration (wrap (iteration lv + 1)) r :: t2 /\
      Forall quiet pre.
Proof.
  induction fuel as [|fuel IH]; intros lv fr t fr' lv' Hit; simpl;
    [discriminate|].
  destruct (loop_body_cases data clusters lv fr)
    as (pre & Hpre & [(fr1 & lv1 & c & Hb & Hit1 & _ & _)
                     |(fr1 & e & He & Hb)]).
  - rewrite (bind_Ok _ _ _ _ _ _ Hb). simpl fst. simpl snd.
    assert (Hbody : forall acc,
               last_written
                 (Call_Iterate (target_of (iteration lv)) ::
                  pre ++ [Info_iteration (iteration lv1) c]) acc =
               Some (target_of (iteration lv))).
    { intros acc. simpl. apply last_written_quiet.
      apply Forall_app. split; [by apply quiet_no_call|].
      by repeat constructor. }
    destruct (loop_condition _ _ _); cbn [fst snd].
    + destruct (do_while fuel (loop_body data clusters) lv1 fr1)
        as [t2 fr2 [lv2| |]] eqn:Hrec; simpl; try discriminate.
      intros [= <- <- <-].
      destruct (IH lv1 fr1 t2 fr2 lv2) as (IH1 & _); [|done|].
      { rewrite Hit1. apply wrap_range. }
      split.
      * intros acc. rewrite app_comm_cons, last_written_app. apply IH1.
      * exists pre, c, t2. split; [|done].
        rewrite Hit1. simpl. by rewrite <- app_assoc.
    + simpl. intros [= <- <- <-]. split.
      * intros acc. rewrite app_nil_r, Hbody, Hit1.
        by rewrite wrap_succ_pred.
      * exists pre, c, []. split; [|done].
        by rewrite app_nil_r, Hit1.
  - rewrite (bind_Throw _ _ _ _ _ _ Hb). discriminate.
Qed.

Lemma after_loop_centroids (lv : locals) (fr : frame) :
  centroids (out_state (after_loop lv fr)) =
  match target_of (wrap (iteration lv - 1)) with
  | Other => centroidsOther lv
  | Primary => centroids fr
  end.
Proof.
  unfold after_loop, target_of.
  cbv [bind when modify get emit ret out_val out_state out_trace].
  destruct (wrap (iteration lv - 1) mod 2 =? 0)%Z; simpl;
    by destruct (negb _).
Qed.

(** When the loop ends, the centroids handed back are the contents of
    the buffer that the last [Iterate] call names: the alternate buffer
    when the last iteration had an even number (its contents are moved into
    the result), the primary buffer, left as it is, otherwise. *)
Lemma loop_exit_parity
    fuel data clusters (fr fr1 : frame) (lv : locals) t :
  convergence_loop fuel data clusters fr = Outcome t fr1 (Ok lv) ->
  let last_iteration := wrap (iteration lv - 1) in
  let returned := centroids (out_state (after_loop lv fr1)) in
  last_written t None = Some (target_of last_iteration) /\
  match target_of last_iteration with
  | Other =>
      (last_iteration mod 2 = 0)%Z /\ returned = centroidsOther lv
  | Primary =>
      (last_iteration mod 2 <> 0)%Z /\ returned = centroids fr1
  end.
Proof.
  rewrite convergence_loop_unfold. intros Hloop. cbv zeta.
  apply do_while_returns in Hloop as (Hlast & _);
    [|simpl; unfold size_t_modulus; lia].
  split; [apply Hlast|].
  rewrite after_loop_centroids. unfold target_of.
  destruct (wrap (iteration lv - 1) mod 2 =? 0)%Z eqn:E.
  - by apply Z.eqb_eq in E.
  - by apply Z.eqb_neq in E.
Qed.

(** A call that comes to an end has run the loop body: before any
    other [Iterate] call or end-of-iteration report, it calls [Iterate]
    (writing the alternate buffer), goes through the empty-cluster pass and
    reports iteration 1, whatever the iteration limit and the residual. *)
Lemma returning_call_first_pass fuel data clusters g (fr : frame) :
  let o := Cluster (LT := LT) fuel data clusters g fr in
  out_val o = Ok tt ->
  1 <= iterations_run (out_trace o) /\
  exists before pass r after,
    out_trace o =
    before ++ Call_Iterate Other :: pass ++ Info_iteration 1 r :: after /\
    iterations_run before = 0 /\
    Forall (fun e => is_Info_iteration e = false) before /\
    Forall quiet pass.
Proof.
  cbv zeta.
  destruct (g && centroid_guess_mismatch data clusters (centroids fr))
    eqn:Hg.
  { rewrite Cluster_rejected by done. discriminate. }
  rewrite Cluster_accepted by done. cbv zeta. simpl. intros Hok.
  pose proof (configuration_events data clusters false (centroids fr)) as Hc.
  rewrite app_nil_r in Hc.
  destruct (outside_loop_events Configuration _ ltac:(done) Hc) as (Hcn & Hci).
  destruct (bind _ _ fr) as [t s r] eqn:Hrun. simpl in *. subst r.
  apply bind_returns in Hrun as (ti & fr1 & [] & t' & Hi & Hrest & ->).
  apply bind_returns in Hrest as (tl & fr2 & lv & ta & Hl & Ha & ->).
  destruct (tame_initial_centroids false data clusters g fr) as (Ht & _).
  rewrite Hi in Ht. simpl in Ht.
  destruct (outside_loop_events Partitioning _ ltac:(done) Ht) as (Hpn & Hpi).
  rewrite convergence_loop_unfold in Hl.
  apply do_while_returns in Hl as (_ & pre & r & t2 & -> & Hpre);
    [|simpl; unfold size_t_modulus; lia].
  simpl. split.
  - rewrite !iterations_run_app, iterations_run_cons_call. lia.
  - exists (expected_warnings data clusters ++ ti), pre, r, (t2 ++ ta).
    split_and!.
    + rewrite <- !app_assoc. simpl. by rewrite <- ?app_assoc.
    + rewrite iterations_run_app. lia.
    + by apply Forall_app.
    + done.
Qed.

End Buffers.

Section Residual.

Context {MT PT ET LT : Type}.
Context `{!MetricType MT, !InitialPartitionPolicy PT,
          !EmptyClusterPolicy MT ET, !LloydStepType MT LT}.
Local Abbreviation frame := (frame MT PT ET).
Local Abbreviation locals := (locals LT).

Lemma empty_cluster_check_throws data i (lv : locals) (fr : frame) e :
  out_val (empty_cluster_check data i lv fr) = Throw e -> e = OutOfBounds.
Proof.
  unfold empty_cluster_check.
  cbv [bind get emit modify ret throw out_val out_state out_trace].
  destruct (counts lv !! i) as [[|n]|]; try done.
  - destruct (iteration lv mod 2 =? 0)%Z;
      by destruct (EmptyCluster _ _ _ _ _ _ _ _) as [[e' new] cnt].
  - by intros [= <-].
Qed.

(** The only exception a pass of the loop raises is the out-of-bounds
    access to [counts]. *)
Lemma loop_body_throws data clusters (lv : locals) (fr : frame) e :
  out_val (loop_body data clusters lv fr) = Throw e -> e = OutOfBounds.
Proof.
  destruct (lloyd_iterate_outcome lv fr) as (fr1 & lv1 & c & H1 & _ & _).
  unfold loop_body. rewrite (bind_Ok _ _ _ _ _ _ H1). simpl.
  unfold bind at 1.
  pose proof (for_loop_throws (fun e => e = OutOfBounds)
                (empty_cluster_check data)
                (empty_cluster_check_throws data) clusters 0 lv1 fr1) as Ht.
  destruct (for_loop 0 clusters (empty_cluster_check data) lv1 fr1)
    as [t2 fr2 [lv2|e2|]]; simpl in *; try done.
  intros [= <-]. by apply Ht.
Qed.

(** C6: when [Iterate] hands back a NaN or infinite residual, the residual
    is replaced by [1e-4], a positive number above the threshold, so that
    the loop condition of that pass is just "the iteration limit is not
    reached" and the loop goes on whenever it is not; the pass emits only
    loop events and throws neither [Fatal] nor an assertion failure. *)
Theorem C6_anomalous_residual_keeps_iterating
    data clusters (lv lv1 : locals) (fr fr1 : frame) t1 cNorm :
  lloyd_iterate lv fr = Outcome t1 fr1 (Ok (lv1, cNorm)) ->
  isnan cNorm || isinf cNorm = true ->
  let o := loop_body data clusters lv fr in
  clamp_residual cNorm = lit_1e_4 /\
  lt zero (clamp_residual cNorm) = true /\
  gt (clamp_residual cNorm) lit_1e_5 = true /\
  Forall (in_phase Looping) (out_trace o) /\
  out_val o <> Throw Fatal /\ out_val o <> Throw AssertFailed /\
  forall lv' b,
    out_val o = Ok (lv', b) ->
    b = negb (iteration lv' =? maxIterations (this (out_state o)))%Z /\
    forall fuel,
      iteration lv' <> maxIterations (this (out_state o)) ->
      out_val (do_while (S fuel) (loop_body data clusters) lv fr) =
      out_val (do_while fuel (loop_body data clusters) lv' (out_state o)).
Proof.
  intros Hit Hbad. cbv zeta.
  assert (Hclamp : clamp_residual cNorm = lit_1e_4)
    by (unfold clamp_residual; by rewrite Hbad).
  destruct (tame_loop_body false data clusters lv fr) as (Ht & Hv & _ & _).
  split_and!; try done.
  - by rewrite Hclamp.
  - by apply clamp_residual_gt.
  - intros He. by apply loop_body_throws in He.
  - intros lv' b Hok.
    destruct (loop_body_cases data clusters lv fr)
      as (pre & Hpre & [(fr' & lv2 & c & Hb & _ & _ & fr1' & lv1' & Hit')
                       |(fr' & e & He & Hb)]).
    + rewrite Hit in Hit'. injection Hit' as _ _ _ <-.
      rewrite Hb in Hok |- *. simpl in *. injection Hok as <- <-.
      unfold loop_condition. rewrite clamp_residual_gt by done. simpl.
      split; [done|]. intros fuel Hne.
      rewrite (bind_Ok _ _ _ _ _ _ Hb). simpl.
      unfold loop_condition. rewrite clamp_residual_gt by done.
      apply Z.eqb_neq in Hne. by rewrite Hne.
    + by rewrite Hb in Hok.
Qed.

End Residual.

Section Configuration.

Context {MT PT ET LT : Type}.
Context `{!MetricType MT, !InitialPartitionPolicy PT,
          !EmptyClusterPolicy MT ET, !LloydStepType MT LT}.
Local Abbreviation frame := (frame MT PT ET).
Local Abbreviation locals := (locals LT).

(** C3 (amended): whatever the iteration limit, zero included, the warnings
    of a call are those for more clusters than points and for zero
    clusters, and no others; a limit of zero leaves the residual test as
    the only loop condition. *)
Theorem C3_no_warning_for_zero_limit fuel data clusters g (fr : frame) :
  warnings (out_trace (Cluster (LT := LT) fuel data clusters g fr)) =
  expected_warnings data clusters /\
  forall cNorm (iteration : positive),
    loop_condition cNorm (Z.pos iteration) 0 = gt cNorm lit_1e_5.
Proof.
  split; [apply Cluster_warnings|].
  intros cNorm it. unfold loop_condition. simpl. apply andb_true_r.
Qed.

End Configuration.

(* ================================================================== *)
(** ** Centroids computed from assignments                             *)
(* ================================================================== *)

Section Means.

Context {MT PT ET : Type}.
Local Abbreviation frame := (frame MT PT ET).

Lemma set_centroids_same (fr : frame) c :
  centroids fr = c -> set_centroids c fr = fr.
Proof. destruct fr. simpl. by intros ->. Qed.

Lemma update_col_ok f j (fr : frame) D cs :
  centroids fr = Mat D cs -> j < length cs ->
  update_col f j fr = Outcome [] (set_centroids (Mat D (alter f j cs)) fr) (Ok tt).
Proof.
  intros Hc Hj. unfold update_col.
  cbv [bind get modify throw out_val out_state out_trace].
  rewrite Hc. unfold n_cols. simpl.
  by rewrite (proj2 (Nat.ltb_lt _ _) Hj).
Qed.

(** The accumulation loop is a fold over the points with their clusters. *)
Lemma accumulate_loop data asg D :
  length asg = n_cols data ->
  forall n start sums counts (fr : frame),
    start + n = n_cols data ->
    Forall (fun a => a < length sums) asg ->
    centroids fr = Mat D sums ->
    for_loop start n
      (fun i counts =>
         match asg !! i, columns data !! i with
         | Some a, Some p =>
             bind (update_col (fun c => vec_add c p) a)
                  (fun _ => ret (alter S a counts))
         | _, _ => throw OutOfBounds
         end) counts fr =
    let r := foldl accumulate_step (sums, counts)
               (zip (drop start asg) (drop start (columns data))) in
    Outcome [] (set_centroids (Mat D r.1) fr) (Ok r.2).
Proof.
  intros Hlen. induction n as [|n IH]; intros start sums counts fr Hn Hasg Hc.
  - simpl. rewrite drop_ge by lia. simpl.
    by rewrite set_centroids_same.
  - simpl for_loop.
    destruct (lookup_lt_is_Some_2 asg start) as [a Ha]; [lia|].
    destruct (lookup_lt_is_Some_2 (columns data) start) as [p Hp];
      [unfold n_cols in Hn; lia|].
    rewrite (drop_S _ _ _ Ha), (drop_S _ _ _ Hp). simpl.
    assert (a < length sums) as Hlt
      by (eapply (proj1 (Forall_lookup _ _) Hasg); eauto).
    unfold bind at 1. rewrite Ha, Hp.
    rewrite (bind_silent _ _ _ _ _ (update_col_ok _ a fr D sums Hc Hlt)).
    simpl.
    rewrite (IH (S start) (alter (fun c => vec_add c p) a sums)
                (alter S a counts)
                (set_centroids (Mat D (alter (fun c => vec_add c p) a sums)) fr));
      [done | lia | by rewrite length_alter | done].
Qed.

Lemma accumulate_fold pairs : forall sums counts j,
  let r := foldl accumulate_step (sums, counts) pairs in
  let members := snd <$> filter (fun ap : nat * vec => ap.1 = j) pairs in
  r.1 !! j = (fun s => foldl vec_add s members) <$> sums !! j /\
  r.2 !! j = (fun c => c + length members) <$> counts !! j /\
  length r.1 = length sums /\ length r.2 = length counts.
Proof.
  induction pairs as [|[a p] pairs IH]; intros sums counts j; simpl.
  - split_and!; try done.
    + by destruct (sums !! j).
    + destruct (counts !! j); simpl; [f_equal; lia|done].
  - destruct (IH (alter (fun c => vec_add c p) a sums) (alter S a counts) j)
      as (H1 & H2 & H3 & H4).
    unfold accumulate_step at 2 4 6 8. simpl.
    rewrite H1, H2, H3, H4, !length_alter.
    split_and!; try done.
    + destruct (decide (a = j)) as [->|Hne].
      * rewrite list_lookup_alter_eq, filter_cons_True by done.
        by destruct (sums !! j).
      * rewrite list_lookup_alter_ne, filter_cons_False by done. done.
    + destruct (decide (a = j)) as [->|Hne].
      * rewrite list_lookup_alter_eq, filter_cons_True by done.
        destruct (counts !! j); simpl; [by rewrite Nat.add_succ_r|done].
      * rewrite list_lookup_alter_ne, filter_cons_False by done. done.
Qed.

(** The division loop is a fold over the cluster indices. *)
Lemma divide_loop counts D :
  forall n start cs (fr : frame),
    start + n <= length counts -> length cs = length counts ->
    centroids fr = Mat D cs ->
    for_loop start n
      (fun i (_ : unit) =>
         match counts !! i with
         | Some n =>
             when (negb (n =? 0))
                  (update_col (fun c => vec_div c (of_size_t n)) i)
         | None => throw OutOfBounds
         end) tt fr =
    Outcome [] (set_centroids
                  (Mat D (foldl (divide_step counts) cs (seq start n))) fr)
            (Ok tt).
Proof.
  induction n as [|n IH]; intros start cs fr Hn Hlen Hc.
  - simpl. by rewrite set_centroids_same.
  - simpl for_loop. simpl seq. simpl foldl.
    destruct (lookup_lt_is_Some_2 counts start) as [c Hcount]; [lia|].
    unfold divide_step at 2. rewrite Hcount.
    destruct c as [|c]; simpl negb; simpl when.
    + rewrite (bind_silent _ _ fr fr tt) by done.
      by apply IH; [lia|..].
    + rewrite (bind_silent _ _ _ _ _
                 (update_col_ok _ start fr D cs Hc ltac:(lia))).
      rewrite (IH (S start)
                 (alter (fun c0 => vec_div c0 (of_size_t (S c))) start cs)
                 (set_centroids
                    (Mat D (alter (fun c0 => vec_div c0 (of_size_t (S c)))
                              start cs)) fr));
        [done | lia | by rewrite length_alter | done].
Qed.

Lemma divide_fold counts : forall n start cs j,
  foldl (divide_step counts) cs (seq start n) !! j =
  if decide (start <= j < start + n)
  then match counts !! j with
       | Some (S m) => (fun c => vec_div c (of_size_t (S m))) <$> cs !! j
       | _ => cs !! j
       end
  else cs !! j.
Proof.
  induction n as [|n IH]; intros start cs j; simpl.
  - destruct (decide _); [lia|done].
  - rewrite IH.
    assert (Hstep : divide_step counts cs start !! j =
                    if decide (j = start)
                    then match counts !! j with
                         | Some (S m) =>
                             (fun c => vec_div c (of_size_t (S m))) <$> cs !! j
                         | _ => cs !! j
                         end
                    else cs !! j).
    { unfold divide_step. destruct (decide (j = start)) as [->|Hne].
      - destruct (counts !! start) as [[|m]|]; try done.
        by rewrite list_lookup_alter_eq.
      - destruct (counts !! start) as [[|m]|]; try done.
        by rewrite list_lookup_alter_ne. }
    rewrite Hstep.
    destruct (decide (S start <= j < S start + n)),
             (decide (start <= j < start + S n)),
             (decide (j = start)); try lia; try done.
Qed.

(** The block that computes centroids from assignments yields the means of
    the clusters. *)
Lemma centroids_from_assignments_means data clusters asg (fr : frame) :
  valid_assignments data clusters asg ->
  centroids_from_assignments data clusters asg fr =
  Outcome [] (set_centroids (mean_centroids data clusters asg) fr) (Ok tt).
Proof.
  intros [Hlen Hasg]. unfold centroids_from_assignments.
  rewrite (bind_silent _ _ fr
             (set_centroids (zeros (n_rows data) clusters) fr) tt) by done.
  pose proof (accumulate_loop data asg (n_rows data) Hlen (n_cols data) 0
                (replicate clusters (replicate (n_rows data) zero))
                (replicate clusters 0)
                (set_centroids (zeros (n_rows data) clusters) fr)) as Hacc.
  rewrite !drop_0 in Hacc. cbv zeta in Hacc.
  rewrite (bind_silent _ _ _ _ _
             (Hacc eq_refl
                ltac:(by rewrite length_replicate) eq_refl)).
  clear Hacc.
  set (r := foldl accumulate_step _ _).
  assert (Hr : forall j,
             let members := cluster_members data asg j in
             r.1 !! j =
             (fun s => foldl vec_add s members)
               <$> replicate clusters (replicate (n_rows data) zero) !! j /\
             r.2 !! j =
             (fun c => c + length members) <$> replicate clusters 0 !! j).
  { intros j.
    destruct (accumulate_fold (zip asg (columns data))
                (replicate clusters (replicate (n_rows data) zero))
                (replicate clusters 0) j) as (H1 & H2 & _). by split. }
  destruct (accumulate_fold (zip asg (columns data))
              (replicate clusters (replicate (n_rows data) zero))
              (replicate clusters 0) 0) as (_ & _ & Hl1 & Hl2).
  fold r in Hl1, Hl2. rewrite length_replicate in Hl1. rewrite length_replicate in Hl2.
  rewrite (divide_loop r.2 (n_rows data) clusters 0 r.1
             (set_centroids (Mat (n_rows data) r.1)
                (set_centroids (zeros (n_rows data) clusters) fr)));
    [|lia|congruence|done].
  f_equal. unfold set_centroids, mean_centroids. simpl. do 2 f_equal.
  apply list_eq. intros j.
  rewrite divide_fold, list_lookup_fmap.
  destruct (Hr j) as (H1 & H2). cbv zeta in H1, H2.
  destruct (decide (j < clusters)) as [Hj|Hj].
  - rewrite lookup_seq_lt by done.
    rewrite lookup_replicate_2 in H1 by done.
    rewrite lookup_replicate_2 in H2 by done. simpl in *.
    rewrite decide_True by lia. rewrite H1, H2. simpl.
    unfold cluster_mean.
    by destruct (cluster_members data asg j).
  - rewrite lookup_seq_ge by lia.
    rewrite decide_False by lia.
    rewrite H1. by rewrite (proj1 (lookup_replicate_None _ _ _)) by lia.
Qed.

(** A cluster without points keeps the zero vector. *)
Lemma mean_centroids_empty data clusters asg j :
  j < clusters -> cluster_members data asg j = [] ->
  columns (mean_centroids data clusters asg) !! j =
  Some (replicate (n_rows data) zero).
Proof.
  intros Hj Hm. unfold mean_centroids. simpl.
  rewrite list_lookup_fmap, lookup_seq_lt by done. simpl.
  by rewrite Hm.
Qed.

Lemma mean_centroids_shape data clusters asg :
  n_cols (mean_centroids data clusters asg) = clusters /\
  n_rows (mean_centroids data clusters asg) = n_rows data.
Proof.
  unfold n_cols, mean_centroids. simpl.
  by rewrite length_fmap, length_seq.
Qed.

End Means.

(* ================================================================== *)
(** ** Initial guesses                                                 *)
(* ================================================================== *)

Section Guesses.

Context {MT PT ET LT : Type}.
Context `{!MetricType MT, !InitialPartitionPolicy PT,
          !EmptyClusterPolicy MT ET, !LloydStepType MT LT}.
Local Abbreviation frame := (frame MT PT ET).
Local Abbreviation locals := (locals LT).


Lemma update_col_shape data clusters f j (fr fr' : frame) t :
  has_shape data clusters fr ->
  update_col f j fr = Outcome t fr' (Ok tt) ->
  has_shape data clusters fr'.
Proof.
  unfold update_col, has_shape, n_cols.
  cbv [bind get modify throw out_val out_state out_trace].
  destruct (_ <? _); [|discriminate]. simpl.
  intros [H1 H2] [= _ <-]. simpl. by rewrite length_alter.
Qed.

Lemma centroids_from_assignments_shape data clusters asg (fr fr' : frame) t :
  centroids_from_assignments data clusters asg fr = Outcome t fr' (Ok tt) ->
  has_shape data clusters fr'.
Proof.
  unfold centroids_from_assignments. intros H.
  apply bind_returns in H as (t1 & fr1 & [] & t2 & H1 & H2 & _).
  apply bind_returns in H2 as (t3 & fr2 & counts & t4 & H3 & H4 & _).
  assert (has_shape data clusters fr1) as Hs1.
  { injection H1 as _ <-. unfold has_shape, n_cols. simpl.
    by rewrite length_replicate. }
  assert (has_shape data clusters fr2) as Hs2.
  { eapply (for_loop_inv (fun _ s => has_shape data clusters s));
      [|exact Hs1|exact H3].
    intros i a s t' s' a' Hs. cbv beta.
    do 2 (case_match; [|discriminate]).
    intros Hb. apply bind_returns in Hb as (? & s1 & [] & ? & Hu & Hr & _).
    injection Hr as _ <- _. eapply update_col_shape; eauto. }
  eapply (for_loop_inv (fun _ s => has_shape data clusters s));
    [|exact Hs2|exact H4].
  intros i [] s t' s' [] Hs. cbv beta. case_match; [|discriminate].
  destruct (negb _); simpl.
  - by apply update_col_shape.
  - by intros [= _ <-].
Qed.


(** C7: without an initial guess and with a partitioner that returns
    assignments (one per point, each naming a cluster), the centroids the
    loop starts from are, cluster by cluster, the arithmetic mean of the
    points assigned to the cluster, and the zero vector for a cluster
    without points. *)
Theorem C7_initial_centroids_are_cluster_means
    data clusters (fr : frame) f p' asg :
  ipp_Cluster = ReturnsAssignments f ->
  f (partitioner (this fr)) data clusters = (p', asg) ->
  valid_assignments data clusters asg ->
  initial_centroids data clusters false fr =
  Outcome [Call_partitioner]
          (set_centroids (mean_centroids data clusters asg)
                         (set_partitioner p' fr))
          (Ok tt) /\
  forall j, j < clusters ->
    columns (mean_centroids data clusters asg) !! j =
    Some (cluster_mean (n_rows data) (cluster_members data asg j)) /\
    (cluster_members data asg j = [] ->
     columns (mean_centroids data clusters asg) !! j =
     Some (replicate (n_rows data) zero)).
Proof.
  intros Hshape Hf Hvalid. split.
  - assert (Hget : GetInitialAssignmentsOrCentroids data clusters [] fr =
                   Outcome [Call_partitioner] (set_partitioner p' fr)
                           (Ok (true, asg))).
    { unfold GetInitialAssignmentsOrCentroids. rewrite Hshape.
      cbv [bind get emit modify ret out_val out_state out_trace].
      by rewrite Hf. }
    unfold initial_centroids. cbn [negb when].
    rewrite (bind_Ok _ _ _ _ _ _ Hget). cbn [when].
    by rewrite (centroids_from_assignments_means data clusters asg
                  (set_partitioner p' fr) Hvalid).
  - intros j Hj. split.
    + unfold mean_centroids. simpl.
      by rewrite list_lookup_fmap, lookup_seq_lt.
    + by apply mean_centroids_empty.
Qed.

(** C9 (amended): in the overload with both guesses, when the assignment
    guess is flagged and is usable (one entry per point, each the index of
    a cluster), the call is the one-guess call started from the centroids
    recomputed from the assignment guess, whatever centroid matrix was
    passed and whether or not it was flagged as a guess. *)
Theorem C9_assignment_guess_overrides_centroid_guess
    DEBUG fuel data clusters initialCentroidGuess (fr : frame) :
  valid_assignments data clusters (assignments fr) ->
  Cluster_assignments (LT := LT) DEBUG fuel data clusters true
                      initialCentroidGuess fr =
  bind (Cluster fuel data clusters true)
       (fun _ => final_assignments DEBUG data)
       (set_centroids (mean_centroids data clusters (assignments fr)) fr) /\
  forall c flag,
    Cluster_assignments (LT := LT) DEBUG fuel data clusters true flag
                        (set_centroids c fr) =
    Cluster_assignments (LT := LT) DEBUG fuel data clusters true
                        initialCentroidGuess fr.
Proof.
  intros Hvalid.
  assert (Hgen : forall flag c,
    Cluster_assignments (LT := LT) DEBUG fuel data clusters true flag
                        (set_centroids c fr) =
    bind (Cluster fuel data clusters true)
         (fun _ => final_assignments DEBUG data)
         (set_centroids (mean_centroids data clusters (assignments fr)) fr)).
  { intros flag c. unfold Cluster_assignments. simpl when. simpl orb.
    erewrite bind_silent; [reflexivity|].
    rewrite (bind_silent get _ _ _ _ eq_refl).
    destruct Hvalid as [Hlen Hall]. simpl assignments.
    rewrite Hlen, Nat.eqb_refl. simpl.
    rewrite (bind_silent (ret tt) _ _ _ _ eq_refl).
    by rewrite centroids_from_assignments_means. }
  split.
  - rewrite <- (Hgen initialCentroidGuess (centroids fr)).
    by rewrite set_centroids_same.
  - intros c flag. rewrite Hgen.
    rewrite <- (Hgen initialCentroidGuess (centroids fr)).
    by rewrite set_centroids_same.
Qed.


Lemma assignment_guess_prologue data clusters (fr : frame) :
  bind get
    (fun fr0 : frame =>
       bind (when (negb (length (assignments fr0) =? n_cols data))
               (Log_Fatal (Fatal_wrong_assignments_length
                             (length (assignments fr0)) (n_cols data))))
            (fun _ => centroids_from_assignments data clusters
                        (assignments fr0))) fr =
  if length (assignments fr) =? n_cols data
  then centroids_from_assignments data clusters (assignments fr) fr
  else Outcome [Fatal_wrong_assignments_length
                  (length (assignments fr)) (n_cols data)] fr (Throw Fatal).
Proof.
  rewrite (bind_silent get _ fr fr fr eq_refl).
  destruct (length (assignments fr) =? n_cols data); cbn [negb when].
  - by rewrite (bind_silent (ret tt) _ fr fr tt eq_refl).
  - reflexivity.
Qed.


End Guesses.

(* ================================================================== *)
(** ** The final assignment pass                                       *)
(* ================================================================== *)

Section FinalPass.

Context {MT PT ET : Type} `{!MetricType MT}.
Local Abbreviation frame := (frame MT PT ET).

Lemma lt_asym (a b : double) : lt a b = true -> lt b a = false.
Proof.
  intros Hab. destruct (lt b a) eqn:Hba; [|done].
  by rewrite <- (lt_irrefl a), (lt_trans a b a).
Qed.

Lemma lt_not_le (a b : double) : lt a b = true -> le b a = false.
Proof.
  intros Hab. destruct (le b a) eqn:Hba; [|done].
  by rewrite <- (lt_irrefl b), (le_lt_trans b a b).
Qed.

(** What the scan returns: either nothing was below the running minimum,
    or the first column that attains the least distance. *)
Lemma closest_scan_spec (m : MT) (p : vec) :
  forall cs j minDistance closestCluster,
    let d := Evaluate m p in
    let r := closest_scan m p cs j minDistance closestCluster in
    (r = (minDistance, closestCluster) /\
     forall k c, cs !! k = Some c -> lt (d c) minDistance = false) \/
    (exists k c,
        cs !! k = Some c /\ r = (d c, j + k) /\
        lt (d c) minDistance = true /\
        (forall k' c', cs !! k' = Some c' -> lt (d c') (d c) = false) /\
        (forall k' c', k' < k -> cs !! k' = Some c' ->
                       le (d c') (d c) = false)).
Proof.
  induction cs as [|c0 cs IH]; intros j minD closest; cbv zeta; simpl.
  - left. split; [done|]. intros k c. by rewrite lookup_nil.
  - destruct (lt (Evaluate m p c0) minD) eqn:Hlt.
    + right.
      destruct (IH (S j) (Evaluate m p c0) j)
        as [(Hr & Hall)|(k & c & Hk & Hr & Hc & Hmin & Hfirst)].
      * exists 0, c0. rewrite Nat.add_0_r. split_and!; try done.
        -- intros [|k'] c'; simpl.
           ++ intros [= <-]. apply lt_irrefl.
           ++ apply Hall.
        -- intros k' c' Hk'. lia.
      * exists (S k), c. split_and!; try done.
        -- rewrite Hr. f_equal. lia.
        -- by apply (lt_trans _ (Evaluate m p c0)).
        -- intros [|k'] c'; simpl.
           ++ intros [= <-]. by apply lt_asym.
           ++ apply Hmin.
        -- intros [|k'] c' Hk'; simpl.
           ++ intros [= <-]. by apply lt_not_le.
           ++ apply Hfirst. lia.
    + destruct (IH (S j) minD closest)
        as [(Hr & Hall)|(k & c & Hk & Hr & Hc & Hmin & Hfirst)].
      * left. split; [done|]. intros [|k] c; simpl.
        -- by intros [= <-].
        -- apply Hall.
      * right. exists (S k), c. split_and!; try done.
        -- rewrite Hr. f_equal. lia.
        -- intros [|k'] c'; simpl.
           ++ intros [= <-].
              destruct (lt (Evaluate m p c0) (Evaluate m p c)) eqn:E; [|done].
              by rewrite <- Hlt, (lt_trans _ (Evaluate m p c)).
           ++ apply Hmin.
        -- intros [|k'] c' Hk'; simpl.
           ++ intros [= <-].
              destruct (le (Evaluate m p c0) (Evaluate m p c)) eqn:E; [|done].
              by rewrite <- Hlt, (le_lt_trans _ (Evaluate m p c)).
           ++ apply Hfirst. lia.
Qed.

(** With a centroid at a distance below infinity, the scan ends on a
    valid index. *)
Lemma nearest_centroid_spec (m : MT) (cs : list vec) (p : vec) :
  (exists j c, cs !! j = Some c /\ lt (Evaluate m p c) infinity = true) ->
  exists c,
    cs !! nearest_centroid m cs p = Some c /\
    nearest_centroid m cs p < length cs /\
    (forall j' c', cs !! j' = Some c' ->
                   lt (Evaluate m p c') (Evaluate m p c) = false) /\
    (forall j' c', j' < nearest_centroid m cs p -> cs !! j' = Some c' ->
                   le (Evaluate m p c') (Evaluate m p c) = false).
Proof.
  intros (j & c & Hj & Hc). unfold nearest_centroid.
  destruct (closest_scan_spec m p cs 0 infinity (length cs))
    as [(_ & Hall)|(k & c' & Hk & Hr & _ & Hmin & Hfirst)].
  - by rewrite (Hall j c Hj) in Hc.
  - rewrite Hr. simpl. exists c'. split_and!; try done.
    by apply lookup_lt_Some in Hk.
Qed.

(** Without one, it ends on the invalid index. *)
Lemma nearest_centroid_invalid (m : MT) (cs : list vec) (p : vec) :
  (forall j c, cs !! j = Some c -> lt (Evaluate m p c) infinity = false) ->
  nearest_centroid m cs p = length cs.
Proof.
  intros Hall. unfold nearest_centroid.
  destruct (closest_scan_spec m p cs 0 infinity (length cs))
    as [(-> & _)|(k & c' & Hk & _ & Hc & _)]; [done|].
  by rewrite (Hall k c' Hk) in Hc.
Qed.

Lemma Log_Assert_true DEBUG (fr : frame) :
  Log_Assert DEBUG true fr = Outcome [] fr (Ok tt).
Proof. unfold Log_Assert. by destruct DEBUG. Qed.

(** One turn of the final pass on a point with a valid nearest centroid. *)
Lemma final_pass_turn DEBUG data i p (fr : frame) :
  columns data !! i = Some p ->
  nearest_centroid (metric (this fr)) (columns (centroids fr)) p
    < n_cols (centroids fr) ->
  (do fr0 <- get;
   match columns data !! i with
   | None => throw OutOfBounds
   | Some p =>
       let minDistance := infinity in
       let closestCluster := n_cols (centroids fr0) in
       let '(_, closestCluster) :=
         closest_scan (metric (this fr0)) p (columns (centroids fr0)) 0
                      minDistance closestCluster in
       Log_Assert DEBUG (negb (closestCluster =? n_cols (centroids fr0))) >>
       modify (fun fr1 : frame =>
                 set_assignments (<[i := closestCluster]> (assignments fr1))
                                 fr1)
   end) fr =
  Outcome []
    (set_assignments
       (<[i := nearest_centroid (metric (this fr))
                 (columns (centroids fr)) p]> (assignments fr)) fr)
    (Ok tt).
Proof.
  intros Hp Hlt. rewrite (bind_silent get _ fr fr fr eq_refl).
  rewrite Hp. cbv zeta. unfold nearest_centroid, n_cols in *.
  destruct (closest_scan _ _ _ _ _ _) as [dmin cl]. simpl in Hlt.
  replace (cl =? length (columns (centroids fr))) with false
    by (symmetry; apply Nat.eqb_neq; lia).
  cbn [negb].
  by rewrite (bind_silent _ _ _ _ _ (Log_Assert_true DEBUG fr)).
Qed.

Lemma final_pass_loop DEBUG data (m : MT) (C : mat) :
  (forall i p, columns data !! i = Some p ->
               nearest_centroid m (columns C) p < n_cols C) ->
  forall n start (fr : frame),
    start + n = n_cols data ->
    length (assignments fr) = n_cols data ->
    metric (this fr) = m -> centroids fr = C ->
    for_loop start n
      (fun i (_ : unit) =>
         do fr0 <- get;
         match columns data !! i with
         | None => throw OutOfBounds
         | Some p =>
             let minDistance := infinity in
             let closestCluster := n_cols (centroids fr0) in
             let '(_, closestCluster) :=
               closest_scan (metric (this fr0)) p (columns (centroids fr0)) 0
                            minDistance closestCluster in
             Log_Assert DEBUG
               (negb (closestCluster =? n_cols (centroids fr0))) >>
             modify (fun fr1 : frame =>
                       set_assignments
                         (<[i := closestCluster]> (assignments fr1)) fr1)
         end) tt fr =
    Outcome []
      (set_assignments
         (take start (assignments fr) ++
          (nearest_centroid m (columns C) <$> drop start (columns data))) fr)
      (Ok tt).
Proof.
  intros Hvalid. induction n as [|n IH]; intros start fr Hn Hlen Hm HC.
  - simpl. unfold n_cols in *.
    rewrite drop_ge, take_ge, app_nil_r by lia.
    destruct fr; reflexivity.
  - simpl for_loop.
    destruct (lookup_lt_is_Some_2 (columns data) start) as [p Hp];
      [unfold n_cols in *; lia|].
    rewrite (bind_silent _ _ _ _ _
               (final_pass_turn DEBUG data start p fr Hp
                  ltac:(rewrite Hm, HC; eauto))).
    rewrite IH; [|lia|simpl; by rewrite length_insert|done|done].
    simpl. rewrite Hm, HC. f_equal. unfold set_assignments. simpl. f_equal.
    rewrite (drop_S _ _ _ Hp). simpl.
    rewrite (take_S_r _ _ (nearest_centroid m (columns C) p)).
    + rewrite take_insert_ge by lia. by rewrite <- app_assoc.
    + apply list_lookup_insert_eq. lia.
Qed.

(** When every point has a centroid at a distance that
    compares below [+infinity], the final pass comes to an end without
    emitting anything or touching the centroids, and hands each point the
    index of the first centroid at the least distance: no centroid is
    strictly closer, and every centroid of lower index is strictly
    farther or incomparable; that index is below the number of columns of
    the centroid matrix. *)
Lemma final_assignments_nearest DEBUG data clusters (fr : frame) :
  n_cols (centroids fr) = clusters ->
  (forall i p, columns data !! i = Some p ->
     exists j c, columns (centroids fr) !! j = Some c /\
                 lt (Evaluate (metric (this fr)) p c) infinity = true) ->
  let o := final_assignments DEBUG data fr in
  let d := Evaluate (metric (this fr)) in
  out_val o = Ok tt /\ out_trace o = [] /\
  centroids (out_state o) = centroids fr /\
  length (assignments (out_state o)) = n_cols data /\
  forall i p, columns data !! i = Some p ->
    exists j c,
      assignments (out_state o) !! i = Some j /\ j < clusters /\
      columns (centroids fr) !! j = Some c /\
      (forall j' c', columns (centroids fr) !! j' = Some c' ->
                     lt (d p c') (d p c) = false) /\
      (forall j' c', j' < j -> columns (centroids fr) !! j' = Some c' ->
                     le (d p c') (d p c) = false).
Proof.
  intros HK Hnear. cbv zeta. unfold final_assignments.
  rewrite (bind_silent _ _ fr
             (set_assignments (set_size (n_cols data) (assignments fr)) fr)
             tt eq_refl).
  assert (Hsize : length (set_size (n_cols data) (assignments fr))
                  = n_cols data).
  { unfold set_size. destruct (_ =? _) eqn:E.
    - by apply Nat.eqb_eq in E.
    - by rewrite length_replicate. }
  rewrite (final_pass_loop DEBUG data (metric (this fr)) (centroids fr));
    [|intros i p Hp; destruct (Hnear i p Hp) as (j & c & Hj & Hc);
      by destruct (nearest_centroid_spec (metric (this fr))
                     (columns (centroids fr)) p) as (? & ? & ? & _); eauto
     |done|done|done|done].
  simpl. rewrite drop_0.
  split_and!; try done.
  - by rewrite length_fmap.
  - intros i p Hp.
    destruct (nearest_centroid_spec (metric (this fr))
                (columns (centroids fr)) p (Hnear i p Hp))
      as (c & Hc & Hlt & Hmin & Hfirst).
    exists (nearest_centroid (metric (this fr)) (columns (centroids fr)) p), c.
    split_and!; try done.
    + by rewrite list_lookup_fmap, Hp.
    + unfold n_cols in HK. lia.
Qed.

End FinalPass.

(* ================================================================== *)
(** ** Running again from the centroids of a previous run              *)
(* ================================================================== *)

Section Rerun.

Context {MT PT ET LT : Type}.
Context `{!MetricType MT, !InitialPartitionPolicy PT,
          !EmptyClusterPolicy MT ET, !LloydStepType MT LT}.
Local Abbreviation frame := (frame MT PT ET).
Local Abbreviation locals := (locals LT).

Lemma lloyd_iterate_even (lv : locals) (fr : frame) :
  (iteration lv mod 2 = 0)%Z ->
  exists lv1,
    lloyd_iterate lv fr =
    Outcome [Call_Iterate Other] fr
      (Ok (lv1, (Iterate (lloydStep lv) (centroids fr) (centroidsOther lv)
                   (counts lv)).2)).
Proof.
  intros Heven. unfold lloyd_iterate.
  cbv [bind get emit modify ret out_val out_state out_trace].
  rewrite (proj2 (Z.eqb_eq _ _) Heven).
  destruct (Iterate _ _ _ _) as [[[ls new] cnt] r]. simpl. eauto.
Qed.

(** A loop whose first residual does not exceed the threshold runs its
    body once. *)
Lemma do_while_once fuel data clusters (lv : locals) (fr : frame) :
  (iteration lv mod 2 = 0)%Z ->
  gt (clamp_residual
        (Iterate (lloydStep lv) (centroids fr) (centroidsOther lv)
           (counts lv)).2) lit_1e_5 = false ->
  let o := do_while fuel (loop_body data clusters) lv fr in
  iterations_run (out_trace o) <= 1 /\
  (1 <= fuel -> out_val o <> OutOfFuel).
Proof.
  intros Heven Hres. destruct fuel as [|fuel]; simpl.
  - split; [unfold iterations_run; simpl; lia | lia].
  - destruct (lloyd_iterate_even lv fr Heven) as (lv1 & H1).
    destruct (loop_body_cases data clusters lv fr)
      as (pre & Hpre & [(fr' & lv' & c & Hb & _ & _ & fr1 & lv1' & Hit)
                       |(fr' & e & He & Hb)]).
    + rewrite H1 in Hit. injection Hit as _ _ Hc. subst c.
      rewrite (bind_Ok _ _ _ _ _ _ Hb). cbn [fst snd].
      unfold loop_condition. rewrite Hres. simpl. split; [|done].
      rewrite app_nil_r, iterations_run_cons_call, iterations_run_app.
      rewrite (iterations_run_none pre) by by apply quiet_no_call.
      by rewrite (iterations_run_none [_]) by by repeat constructor.
    + rewrite (bind_Throw _ _ _ _ _ _ Hb). simpl. split; [|done].
      rewrite iterations_run_cons_call.
      by rewrite (iterations_run_none pre) by by apply quiet_no_call.
Qed.

(** A call with a centroid guess whose first pass gives a residual that
    does not exceed the threshold calls [Iterate] at most once, and one
    unit of fuel is enough for it to come to an end. *)
Lemma Cluster_stops_after_first_pass fuel2 data clusters (fr1 : frame) :
  gt (clamp_residual
        (Iterate (LloydStep_new (LT := LT) data (metric (this fr1)))
           (centroids fr1) empty_mat (replicate clusters 0)).2)
     lit_1e_5 = false ->
  let second := Cluster (LT := LT) fuel2 data clusters true fr1 in
  iterations_run (out_trace second) <= 1 /\
  (1 <= fuel2 -> out_val second <> OutOfFuel).
Proof.
  cbv zeta. intros Hres.
  destruct (centroid_guess_mismatch data clusters (centroids fr1)) eqn:Hg.
  - rewrite Cluster_rejected by done. simpl. split; [|done].
    pose proof (configuration_events data clusters true (centroids fr1))
      as Hc.
    destruct (outside_loop_events Configuration _ ltac:(done) Hc) as (-> & _).
    lia.
  - rewrite Cluster_accepted by done. cbv zeta. simpl.
    pose proof (configuration_events data clusters false (centroids fr1))
      as Hc.
    rewrite app_nil_r in Hc.
    destruct (outside_loop_events Configuration _ ltac:(done) Hc)
      as (Hcn & _).
    unfold initial_centroids. cbn [negb when].
    destruct (do_while_once fuel2 data clusters
                (mkLocals (replicate clusters 0) 0%Z
                   (LloydStep_new data (metric (this fr1))) empty_mat) fr1
                eq_refl Hres) as (Hn & Hf).
    rewrite <- convergence_loop_unfold in Hn, Hf.
    unfold bind.
    destruct (convergence_loop fuel2 data clusters fr1)
      as [tl fr2 [lv| e |]]; simpl in *.
    + destruct (tame_after_loop false lv fr2) as (Ha & _ & Hfa & _).
      destruct (outside_loop_events Closing _ ltac:(done) Ha) as (Han & _).
      split; [|intros _; by apply Hfa].
      rewrite !iterations_run_app, Hcn, Han. lia.
    + split; [|done]. rewrite iterations_run_app, Hcn. lia.
    + split; [|intros H1; by destruct (Hf H1)].
      rewrite iterations_run_app, Hcn. lia.
Qed.

End Rerun.

(* ================================================================== *)
(** ** Concrete runs                                                   *)
(* ================================================================== *)

Module Runs.

Import Policies.

(** C1: on three points with finite coordinates, -3 * 2^510 once and
    3 * 2^510 twice, a call for one cluster with the iteration limit 1 that
    starts from a centroid at the origin, in a release build, returns with
    the assignments 1, 0 and 0, although the only cluster has the index 0.
    The one iteration sees finite distances only and leaves the mean 2^510;
    in the final pass the squared distance of the first point to it
    overflows, the distance is [+infinity], which does not compare below
    the initial minimum, and the scan keeps the value the source calls
    invalid (line 331).  A debug build stops on the assertion of line 344,
    which states that this value is never stored. *)
Lemma C1_release_build_stores_invalid_index :
  let o := Cluster_assignments (LT := NaiveKMeans unit) false 10 outlier 1
             false true outlier_start in
  let o' := Cluster_assignments (LT := NaiveKMeans unit) true 10 outlier 1
              false true outlier_start in
  let finite x := isnan x || isinf x = false in
  Forall (Forall finite) (columns outlier) /\
  Forall (fun p => finite (EuclideanDistance_Evaluate tt p [of_Z 0]))
         (columns outlier) /\
  out_val o = Ok tt /\
  out_trace o =
  [Call_Iterate Other; Info_iteration 1 (dyadic 1 510); Info_terminated 1;
   Info_distance_calculations 3] /\
  centroids (out_state o) = Mat 1 [[dyadic 1 510]] /\
  EuclideanDistance_Evaluate tt [dyadic (-3) 510] [dyadic 1 510] =
  infinity /\
  assignments (out_state o) = [1; 0; 0] /\
  ~ Forall (fun a => a < 1) (assignments (out_state o)) /\
  out_val o' = Throw AssertFailed.
Proof.
  cbv zeta. split_and!; try (vm_compute; reflexivity).
  - repeat constructor.
  - repeat constructor.
  - replace (assignments _) with [1; 0; 0] by (vm_compute; reflexivity).
    intros H. apply Forall_cons in H as [H _]. lia.
Qed.

(** The same happens on a dataset with a missing value: the distance of
    the point to the only centroid is NaN. *)
Lemma nan_distance_keeps_invalid_index :
  let o := final_assignments false missing_value missing_value_start in
  let o' := final_assignments true missing_value missing_value_start in
  n_cols (centroids missing_value_start) = 1 /\
  out_val o = Ok tt /\
  assignments (out_state o) = [1] /\
  ~ Forall (fun a => a < 1) (assignments (out_state o)) /\
  out_val o' = Throw AssertFailed.
Proof.
  cbv zeta. split_and!; try (vm_compute; reflexivity).
  replace (assignments _) with [1] by (vm_compute; reflexivity).
  intros H. apply Forall_cons in H as [H _]. lia.
Qed.

Lemma final_assignments_nearest_on_four :
  let fr := mkFrame (engine 5) [] (points_1d [0; 3]%Z) in
  n_cols (centroids fr) = 2 /\
  out_val (final_assignments false four fr) = Ok tt /\
  assignments (out_state (final_assignments false four fr)) = [0; 0; 1; 1].
Proof.
  cbv zeta. split; [reflexivity|].
  split; [|vm_compute; reflexivity].
  refine (proj1 (final_assignments_nearest false four 2
                   (mkFrame (engine 5) [] (points_1d [0; 3]%Z))
                   eq_refl _)).
  intros i p Hp. exists 0, [of_Z 0]. split; [reflexivity|].
  destruct i as [|[|[|[|i]]]]; simpl in Hp; try discriminate;
    injection Hp as <-; vm_compute; reflexivity.
Defined.


(** C3, as stated, fails: a run with the iteration limit 0 comes to its
    end without any warning. *)
Lemma C3_counterexample_zero_limit :
  let o := Cluster (LT := NaiveKMeans unit) 10 line 2 true (line_start 0) in
  maxIterations (this (line_start 0)) = 0%Z /\
  out_val o = Ok tt /\
  warnings (out_trace o) = [] /\
  iterations_run (out_trace o) = 5.
Proof. cbv zeta. split_and!; vm_compute; reflexivity. Qed.

Lemma C4_witness :
  (0 < 2 < size_t_modulus)%Z /\
  maxIterations (this (line_start 2)) = 2%Z /\
  (Z.of_nat (iterations_run
               (out_trace (Cluster (LT := NaiveKMeans unit) 10 line 2 true
                             (line_start 2)))) <= 2)%Z.
Proof.
  refine ((fun H : (0 < 2 < size_t_modulus)%Z =>
             conj H (conj eq_refl
               (proj1 (C4_iteration_limit (LT := NaiveKMeans unit)
                         10 line 2 true (line_start 2) 2 H eq_refl)))) _).
  split; reflexivity.
Defined.

Lemma C6_witness :
  let fr := mkFrame (engine 5) [] missing_value in
  let lv := mkLocals [0] 0%Z
              (LloydStep_new (LT := NaiveKMeans unit) missing_value tt)
              empty_mat in
  exists t1 fr1 lv1 cNorm,
    lloyd_iterate lv fr = Outcome t1 fr1 (Ok (lv1, cNorm)) /\
    isnan cNorm || isinf cNorm = true /\
    clamp_residual cNorm = lit_1e_4.
Proof.
  cbv zeta. do 4 eexists.
  refine ((fun H1 H2 => conj H1 (conj H2
             (proj1 (C6_anomalous_residual_keeps_iterating
                       missing_value 1 _ _ _ _ _ _ H1 H2)))) _ _).
  - vm_compute. reflexivity.
  - vm_compute. reflexivity.
Defined.

Lemma C7_witness :
  let fr := mkFrame (engine 5) [] empty_mat in
  ipp_Cluster = ReturnsAssignments round_robin /\
  round_robin (partitioner (this fr)) four 2 = (tt, [0; 1; 0; 1]) /\
  valid_assignments four 2 [0; 1; 0; 1] /\
  initial_centroids four 2 false fr =
  Outcome [Call_partitioner]
          (set_centroids (mean_centroids four 2 [0; 1; 0; 1])
                         (set_partitioner tt fr))
          (Ok tt).
Proof.
  cbv zeta.
  refine ((fun H : valid_assignments four 2 [0; 1; 0; 1] =>
             conj eq_refl (conj eq_refl (conj H
               (proj1 (C7_initial_centroids_are_cluster_means
                         four 2 (mkFrame (engine 5) [] empty_mat)
                         round_robin tt [0; 1; 0; 1]
                         eq_refl eq_refl H))))) _).
  split; [reflexivity|]. repeat constructor.
Defined.

(** C8, as stated, fails in two ways.  A first run that stops on its
    iteration limit leaves centroids from which the engine runs two more
    iterations.  So does a first run that has converged: on the points 0,
    2 + 2^-20 and 3 it stops after one iteration with the residual 2^-19,
    which is below the threshold, and a second run from the centroids it
    hands back moves the middle point to the other cluster and takes two
    iterations. *)
Lemma C8_counterexample_second_run_iterates_twice :
  let capped := Cluster (LT := NaiveKMeans unit) 10 line 2 true
                  (line_start 2) in
  let after_capped := Cluster (LT := NaiveKMeans unit) 10 line 2 true
                        (out_state capped) in
  let converged := Cluster (LT := NaiveKMeans unit) 10 near_tie 2 true
                     near_tie_start in
  let after_converged := Cluster (LT := NaiveKMeans unit) 10 near_tie 2 true
                           (out_state converged) in
  (out_val capped = Ok tt /\
   out_val after_capped = Ok tt /\
   iterations_run (out_trace after_capped) = 2) /\
  (out_trace converged =
   [Call_Iterate Other; Info_iteration 1 (dyadic 1 (-19));
    Info_converged 1; Info_distance_calculations 6] /\
   gt (dyadic 1 (-19)) lit_1e_5 = false /\
   out_val converged = Ok tt /\
   out_val after_converged = Ok tt /\
   iterations_run (out_trace after_converged) = 2).
Proof. cbv zeta. split_and!; vm_compute; reflexivity. Qed.

(** C9, as stated, fails for an assignment guess that cannot be used.
    With a guess of two entries for four points the call stops on the fatal
    error and the centroid guess is as it was; with a guess that names a
    third cluster where two are asked for it stops on the bounds check and
    leaves sums that are not the means of the guess. *)
Lemma C9_counterexample_unusable_guess :
  let short := Cluster_assignments (LT := NaiveKMeans unit) false 10 four 2
                 true true four_short_guess in
  let stray := Cluster_assignments (LT := NaiveKMeans unit) false 10 four 2
                 true true four_stray_guess in
  (out_val short = Throw Fatal /\
   centroids (out_state short) = centroids four_short_guess /\
   centroids (out_state short) <>
   mean_centroids four 2 (assignments four_short_guess)) /\
  (out_val stray = Throw OutOfBounds /\
   centroids (out_state stray) = points_1d [1; 2]%Z /\
   centroids (out_state stray) <>
   mean_centroids four 2 (assignments four_stray_guess)).
Proof.
  cbv zeta. split_and!; try (vm_compute; reflexivity);
    vm_compute; discriminate.
Qed.

Lemma C9_witness :
  valid_assignments four 2 (assignments four_both_guesses) /\
  Cluster_assignments (LT := NaiveKMeans unit) false 10 four 2 true true
                      four_both_guesses =
  bind (Cluster (LT := NaiveKMeans unit) 10 four 2 true)
       (fun _ => final_assignments false four)
       (set_centroids
          (mean_centroids four 2 (assignments four_both_guesses))
          four_both_guesses).
Proof.
  refine ((fun H => conj H
             (proj1 (C9_assignment_guess_overrides_centroid_guess
                       (LT := NaiveKMeans unit) false 10 four 2 true
                       four_both_guesses H))) _).
  split; [reflexivity|]. repeat constructor.
Defined.

End Runs.

(* ================================================================== *)
(** ** The final pass without a reachable centroid                     *)
(* ================================================================== *)

Section FinalPassEdges.

Context {MT PT ET : Type} `{!MetricType MT}.
Local Abbreviation frame := (frame MT PT ET).

Lemma nearest_centroid_le (m : MT) (cs : list vec) (p : vec) :
  nearest_centroid m cs p <= length cs.
Proof.
  unfold nearest_centroid.
  destruct (closest_scan_spec m p cs 0 infinity (length cs))
    as [(-> & _)|(k & c & Hk & -> & _)]; simpl; [done|].
  apply lookup_lt_Some in Hk. lia.
Qed.

(** The scan ends on the invalid index exactly when no centroid is at a
    distance below infinity. *)
Lemma nearest_centroid_invalid_iff (m : MT) (cs : list vec) (p : vec) :
  nearest_centroid m cs p = length cs <->
  forall j c, cs !! j = Some c -> lt (Evaluate m p c) infinity = false.
Proof.
  split; [|apply nearest_centroid_invalid].
  intros Hn j c Hj. destruct (lt (Evaluate m p c) infinity) eqn:E; [|done].
  destruct (nearest_centroid_spec m cs p) as (_ & _ & Hlt & _); [eauto|lia].
Qed.

(** One turn of the pass in a release build. *)
Lemma final_pass_turn_release data i p (fr : frame) :
  columns data !! i = Some p ->
  (do fr0 <- get;
   match columns data !! i with
   | None => throw OutOfBounds
   | Some p =>
       let minDistance := infinity in
       let closestCluster := n_cols (centroids fr0) in
       let '(_, closestCluster) :=
         closest_scan (metric (this fr0)) p (columns (centroids fr0)) 0
                      minDistance closestCluster in
       Log_Assert false (negb (closestCluster =? n_cols (centroids fr0))) >>
       modify (fun fr1 : frame =>
                 set_assignments (<[i := closestCluster]> (assignments fr1))
                                 fr1)
   end) fr =
  Outcome []
    (set_assignments
       (<[i := nearest_centroid (metric (this fr))
                 (columns (centroids fr)) p]> (assignments fr)) fr)
    (Ok tt).
Proof.
  intros Hp. rewrite (bind_silent get _ fr fr fr eq_refl).
  rewrite Hp. cbv zeta. unfold nearest_centroid, n_cols.
  by destruct (closest_scan _ _ _ _ _ _) as [dmin cl].
Qed.

(** One turn of the pass in a debug build, on a point without a valid
    nearest centroid. *)
Lemma final_pass_turn_assert data i p (fr : frame) :
  columns data !! i = Some p ->
  nearest_centroid (metric (this fr)) (columns (centroids fr)) p
    = n_cols (centroids fr) ->
  (do fr0 <- get;
   match columns data !! i with
   | None => throw OutOfBounds
   | Some p =>
       let minDistance := infinity in
       let closestCluster := n_cols (centroids fr0) in
       let '(_, closestCluster) :=
         closest_scan (metric (this fr0)) p (columns (centroids fr0)) 0
                      minDistance closestCluster in
       Log_Assert true (negb (closestCluster =? n_cols (centroids fr0))) >>
       modify (fun fr1 : frame =>
                 set_assignments (<[i := closestCluster]> (assignments fr1))
                                 fr1)
   end) fr = Outcome [] fr (Throw AssertFailed).
Proof.
  intros Hp Hbad. rewrite (bind_silent get _ fr fr fr eq_refl).
  rewrite Hp. cbv zeta. unfold nearest_centroid, n_cols in *.
  destruct (closest_scan _ _ _ _ _ _) as [dmin cl]. simpl in Hbad.
  rewrite Hbad, Nat.eqb_refl. reflexivity.
Qed.

Lemma final_pass_loop_release data :
  forall n start (fr : frame),
    start + n = n_cols data ->
    length (assignments fr) = n_cols data ->
    for_loop start n
      (fun i (_ : unit) =>
         do fr0 <- get;
         match columns data !! i with
         | None => throw OutOfBounds
         | Some p =>
             let minDistance := infinity in
             let closestCluster := n_cols (centroids fr0) in
             let '(_, closestCluster) :=
               closest_scan (metric (this fr0)) p (columns (centroids fr0)) 0
                            minDistance closestCluster in
             Log_Assert false
               (negb (closestCluster =? n_cols (centroids fr0))) >>
             modify (fun fr1 : frame =>
                       set_assignments
                         (<[i := closestCluster]> (assignments fr1)) fr1)
         end) tt fr =
    Outcome []
      (set_assignments
         (take start (assignments fr) ++
          (nearest_centroid (metric (this fr)) (columns (centroids fr))
             <$> drop start (columns data))) fr)
      (Ok tt).
Proof.
  induction n as [|n IH]; intros start fr Hn Hlen.
  - simpl. unfold n_cols in *.
    rewrite drop_ge, take_ge, app_nil_r by lia.
    destruct fr; reflexivity.
  - simpl for_loop.
    destruct (lookup_lt_is_Some_2 (columns data) start) as [p Hp];
      [unfold n_cols in *; lia|].
    rewrite (bind_silent _ _ _ _ _
               (final_pass_turn_release data start p fr Hp)).
    rewrite IH; [|lia|simpl; by rewrite length_insert].
    simpl. f_equal. unfold set_assignments. simpl. f_equal.
    rewrite (drop_S _ _ _ Hp). simpl.
    set (v := nearest_centroid _ _ p).
    rewrite (take_S_r _ _ v).
    + rewrite take_insert_ge by lia. by rewrite <- app_assoc.
    + apply list_lookup_insert_eq. lia.
Qed.

Lemma final_pass_loop_assert data :
  forall n start (fr : frame),
    start + n = n_cols data ->
    length (assignments fr) = n_cols data ->
    (exists i p, start <= i /\ columns data !! i = Some p /\
                 nearest_centroid (metric (this fr))
                   (columns (centroids fr)) p = n_cols (centroids fr)) ->
    let o :=
      for_loop start n
        (fun i (_ : unit) =>
           do fr0 <- get;
           match columns data !! i with
           | None => throw OutOfBounds
           | Some p =>
               let minDistance := infinity in
               let closestCluster := n_cols (centroids fr0) in
               let '(_, closestCluster) :=
                 closest_scan (metric (this fr0)) p
                              (columns (centroids fr0)) 0
                              minDistance closestCluster in
               Log_Assert true
                 (negb (closestCluster =? n_cols (centroids fr0))) >>
               modify (fun fr1 : frame =>
                         set_assignments
                           (<[i := closestCluster]> (assignments fr1)) fr1)
           end) tt fr in
    out_val o = Throw AssertFailed /\ out_trace o = [] /\
    centroids (out_state o) = centroids fr /\
    this (out_state o) = this fr.
Proof.
  induction n as [|n IH]; intros start fr Hn Hlen (i & p & Hi & Hp & Hbad).
  - apply lookup_lt_Some in Hp. unfold n_cols in *. lia.
  - cbv zeta. simpl for_loop.
    destruct (lookup_lt_is_Some_2 (columns data) start) as [q Hq];
      [unfold n_cols in *; lia|].
    destruct (decide (nearest_centroid (metric (this fr))
                        (columns (centroids fr)) q
                      = n_cols (centroids fr))) as [Hq_bad|Hq_ok].
    + by rewrite (bind_Throw _ _ _ _ _ _
                    (final_pass_turn_assert data start q fr Hq Hq_bad)).
    + pose proof (nearest_centroid_le (metric (this fr))
                    (columns (centroids fr)) q) as Hle.
      rewrite (bind_silent _ _ _ _ _
                 (final_pass_turn true data start q fr Hq
                    ltac:(unfold n_cols in *; lia))).
      set (fr' := set_assignments _ fr).
      destruct (IH (S start) fr') as (Hv & Ht & Hc & Hthis);
        [lia|simpl; by rewrite length_insert| |].
      { exists i, p. split_and!; try done.
        destruct (decide (i = start)) as [->|]; [|lia].
        rewrite Hq in Hp. injection Hp as ->. done. }
      exact (conj Hv (conj Ht (conj Hc Hthis))).
Qed.

Lemma set_size_length n (a : list nat) : length (set_size n a) = n.
Proof.
  unfold set_size. destruct (_ =? _) eqn:E.
  - by apply Nat.eqb_eq in E.
  - by rewrite length_replicate.
Qed.

Lemma final_assignments_release data (fr : frame) :
  final_assignments false data fr =
  Outcome [] (set_assignments
                (nearest_centroid (metric (this fr))
                   (columns (centroids fr)) <$> columns data) fr)
          (Ok tt).
Proof.
  unfold final_assignments.
  rewrite (bind_silent _ _ fr
             (set_assignments (set_size (n_cols data) (assignments fr)) fr)
             tt eq_refl).
  rewrite final_pass_loop_release;
    [|done|simpl; apply set_size_length].
  simpl. by rewrite drop_0.
Qed.

(** Whatever the build, a final pass that returns has emitted nothing and
    has replaced the assignments by the indices found by the scan, which
    in a debug build are all valid. *)
Lemma final_assignments_returns DEBUG data (fr fr' : frame) t :
  final_assignments DEBUG data fr = Outcome t fr' (Ok tt) ->
  t = [] /\
  fr' = set_assignments
          (nearest_centroid (metric (this fr))
             (columns (centroids fr)) <$> columns data) fr /\
  (DEBUG = true ->
   forall i p, columns data !! i = Some p ->
               nearest_centroid (metric (this fr))
                 (columns (centroids fr)) p < n_cols (centroids fr)).
Proof.
  destruct DEBUG.
  - set (m := metric (this fr)). set (cs := columns (centroids fr)).
    unfold final_assignments.
    rewrite (bind_silent _ _ fr
               (set_assignments (set_size (n_cols data) (assignments fr)) fr)
               tt eq_refl).
    set (fr1 := set_assignments (set_size (n_cols data) (assignments fr)) fr).
    match goal with
    | |- context [for_loop ?a ?b ?c ?d ?e] => set (o := for_loop a b c d e)
    end.
    destruct (decide (Exists (fun p => nearest_centroid m cs p = length cs)
                             (columns data))) as [Hbad|Hgood].
    + apply Exists_exists in Hbad as (p & Hin & Hp).
      apply list_elem_of_lookup in Hin as (i & Hi).
      assert (Ho : out_val o = Throw AssertFailed /\ out_trace o = [] /\
                   centroids (out_state o) = centroids fr /\
                   this (out_state o) = this fr).
      { apply (final_pass_loop_assert data (n_cols data) 0 fr1 eq_refl
                 (set_size_length _ _)).
        exists i, p. split_and!; [lia|done|exact Hp]. }
      destruct Ho as (Hv & _). intros Hrun. rewrite Hrun in Hv. done.
    + apply not_Exists_Forall in Hgood; [|intros x; apply _].
      assert (Hvalid : forall i p, columns data !! i = Some p ->
                         nearest_centroid m cs p < n_cols (centroids fr)).
      { intros i p Hp.
        pose proof (proj1 (Forall_lookup _ _) Hgood i p Hp) as Hne.
        pose proof (nearest_centroid_le m cs p). simpl in Hne.
        unfold n_cols. fold cs. lia. }
      pose proof (final_pass_loop true data m (centroids fr) Hvalid
                    (n_cols data) 0 fr1 eq_refl (set_size_length _ _)
                    eq_refl eq_refl) as Ho.
      change (o = Outcome [] (set_assignments
                                (take 0 (assignments fr1) ++
                                 (nearest_centroid m (columns (centroids fr))
                                    <$> drop 0 (columns data))) fr1) (Ok tt))
        in Ho.
      rewrite Ho. simpl. rewrite drop_0. intros [= <- <-].
      split_and!; try done.
  - rewrite final_assignments_release. intros [= <- <-].
    split_and!; try done.
Qed.

(** X1: in a release build the final pass always comes to an end and
    emits nothing; whatever the assignment row held before, it then has one
    entry per point, the index found by the scan, and that index is the
    invalid one (the number of centroid columns) exactly for the points
    that have no centroid at a distance below [+infinity], as every point
    has when there is no centroid at all. *)
Theorem X1_release_pass_overwrites_every_entry data (fr : frame) :
  let m := metric (this fr) in
  let cs := columns (centroids fr) in
  final_assignments false data fr =
  Outcome [] (set_assignments (nearest_centroid m cs <$> columns data) fr)
          (Ok tt) /\
  (forall p, nearest_centroid m cs p = n_cols (centroids fr) <->
             forall j c, cs !! j = Some c ->
                         lt (Evaluate m p c) infinity = false) /\
  (cs = [] ->
   assignments (out_state (final_assignments false data fr)) =
   replicate (n_cols data) 0).
Proof.
  cbv zeta.
  assert (Hrun : final_assignments false data fr =
                 Outcome [] (set_assignments
                               (nearest_centroid (metric (this fr))
                                  (columns (centroids fr)) <$> columns data)
                               fr) (Ok tt)).
  { apply final_assignments_release. }
  split_and!; [done|intros p; apply nearest_centroid_invalid_iff|].
  intros Hcs. rewrite Hrun. simpl. rewrite Hcs.
  unfold n_cols. clear. induction (columns data) as [|p ps IH]; [done|].
  rewrite fmap_cons. simpl length. simpl replicate. by f_equal.
Qed.

(** X2: in a debug build the final pass stops on the assertion exactly
    when some point has no centroid at a distance below [+infinity], and
    returns otherwise; either way it emits nothing and leaves the centroids
    and the object as they were. *)
Theorem X2_debug_pass_asserts_on_unreachable_point data (fr : frame) :
  let m := metric (this fr) in
  let cs := columns (centroids fr) in
  let o := final_assignments true data fr in
  let unreachable (p : vec) :=
    forall j c, cs !! j = Some c -> lt (Evaluate m p c) infinity = false in
  (out_val o = Throw AssertFailed <->
   exists i p, columns data !! i = Some p /\ unreachable p) /\
  (out_val o = Ok tt <->
   ~ exists i p, columns data !! i = Some p /\ unreachable p) /\
  out_trace o = [] /\
  centroids (out_state o) = centroids fr /\ this (out_state o) = this fr.
Proof.
  cbv zeta.
  set (m := metric (this fr)). set (cs := columns (centroids fr)).
  unfold final_assignments.
  rewrite (bind_silent _ _ fr
             (set_assignments (set_size (n_cols data) (assignments fr)) fr)
             tt eq_refl).
  set (fr1 := set_assignments (set_size (n_cols data) (assignments fr)) fr).
  match goal with
  | |- context [for_loop ?a ?b ?c ?d ?e] => set (o := for_loop a b c d e)
  end.
  destruct (decide (Exists (fun p => nearest_centroid m cs p = length cs)
                           (columns data))) as [Hbad|Hgood].
  - apply Exists_exists in Hbad as (p & Hin & Hp).
    apply list_elem_of_lookup in Hin as (i & Hi).
    assert (Ho : out_val o = Throw AssertFailed /\ out_trace o = [] /\
                 centroids (out_state o) = centroids fr /\
                 this (out_state o) = this fr).
    { apply (final_pass_loop_assert data (n_cols data) 0 fr1 eq_refl
               (set_size_length _ _)).
      exists i, p. split_and!; [lia|done|exact Hp]. }
    destruct Ho as (Hv & Ht & Hc & Hthis). rewrite Hv, Ht, Hc, Hthis.
    assert (Hex : exists i p, columns data !! i = Some p /\
                    forall j c, cs !! j = Some c ->
                                lt (Evaluate m p c) infinity = false).
    { exists i, p. split; [done|].
      by apply nearest_centroid_invalid_iff. }
    split_and!; try done.
  - apply not_Exists_Forall in Hgood; [|intros x; apply _].
    assert (Hvalid : forall i p, columns data !! i = Some p ->
                       nearest_centroid m cs p < n_cols (centroids fr)).
    { intros i p Hp.
      pose proof (proj1 (Forall_lookup _ _) Hgood i p Hp) as Hne.
      pose proof (nearest_centroid_le m cs p). simpl in Hne.
      unfold n_cols. fold cs. lia. }
    pose proof (final_pass_loop true data m (centroids fr) Hvalid
                  (n_cols data) 0 fr1 eq_refl (set_size_length _ _)
                  eq_refl eq_refl) as Ho.
    change (o = Outcome [] (set_assignments
                              (take 0 (assignments fr1) ++
                               (nearest_centroid m (columns (centroids fr))
                                  <$> drop 0 (columns data))) fr1) (Ok tt))
      in Ho.
    rewrite Ho. simpl.
    assert (Hno : ~ exists i p, columns data !! i = Some p /\
                    forall j c, cs !! j = Some c ->
                                lt (Evaluate m p c) infinity = false).
    { intros (i & p & Hp & Hun).
      apply nearest_centroid_invalid_iff in Hun.
      specialize (Hvalid i p Hp). unfold n_cols in Hvalid. fold cs in Hvalid.
      lia. }
    split_and!; try done.
Qed.

End FinalPassEdges.

(* ================================================================== *)
(** ** An assignment guess that names a cluster that does not exist    *)
(* ================================================================== *)

Section GuessOutOfRange.

Context {MT PT ET LT : Type}.
Context `{!MetricType MT, !InitialPartitionPolicy PT,
          !EmptyClusterPolicy MT ET, !LloydStepType MT LT}.
Local Abbreviation frame := (frame MT PT ET).
Local Abbreviation locals := (locals LT).

Lemma update_col_out_of_bounds f j (fr : frame) :
  n_cols (centroids fr) <= j ->
  update_col f j fr = Outcome [] fr (Throw OutOfBounds).
Proof.
  intros Hj. unfold update_col.
  cbv [bind get modify throw out_val out_state out_trace].
  by rewrite (proj2 (Nat.ltb_ge _ _) Hj).
Qed.

(** The first entry of a row that is not below [K]. *)
Lemma first_stray_entry (K : nat) (asg : list nat) : forall i a,
  asg !! i = Some a -> K <= a ->
  exists i0 a0,
    i0 <= i /\ asg !! i0 = Some a0 /\ K <= a0 /\
    forall j b, j < i0 -> asg !! j = Some b -> b < K.
Proof.
  induction i as [i IH] using lt_wf_ind. intros a Ha Hbad.
  destruct (decide (Exists (fun b => K <= b) (take i asg))) as [Hex|Hall].
  - apply Exists_exists in Hex as (b & Hin & Hb).
    apply list_elem_of_lookup in Hin as (j & Hj).
    pose proof (lookup_lt_Some _ _ _ Hj) as Hlt.
    rewrite length_take in Hlt.
    rewrite lookup_take_lt in Hj by lia.
    destruct (IH j ltac:(lia) b Hj Hb) as (i0 & a0 & ? & ? & ? & ?).
    exists i0, a0. split_and!; try done. lia.
  - apply not_Exists_Forall in Hall; [|intros x; apply _].
    exists i, a. split_and!; try done.
    intros j b Hj Hb.
    pose proof (proj1 (Forall_lookup _ _) Hall j b) as Hgood.
    rewrite lookup_take_lt in Hgood by lia.
    specialize (Hgood Hb). simpl in Hgood. lia.
Qed.

(** The accumulation loop stops at the first cluster index that is out of
    range; the sums of the points before it stay in the centroid matrix. *)
Lemma accumulate_loop_stops data asg D :
  length asg = n_cols data ->
  forall n start sums (counts : list nat) (fr : frame) i0 a0,
    start + n = n_cols data ->
    centroids fr = Mat D sums ->
    start <= i0 -> asg !! i0 = Some a0 -> length sums <= a0 ->
    (forall j b, start <= j < i0 -> asg !! j = Some b -> b < length sums) ->
    for_loop start n
      (fun i counts =>
         match asg !! i, columns data !! i with
         | Some a, Some p =>
             bind (update_col (fun c => vec_add c p) a)
                  (fun _ => ret (alter S a counts))
         | _, _ => throw OutOfBounds
         end) counts fr =
    Outcome []
      (set_centroids
         (Mat D (foldl accumulate_step (sums, counts)
                   (zip (take (i0 - start) (drop start asg))
                        (drop start (columns data)))).1) fr)
      (Throw OutOfBounds).
Proof.
  intros Hlen.
  induction n as [|n IH];
    intros start sums counts fr i0 a0 Hn Hc Hi Ha Hbad Hgood.
  - apply lookup_lt_Some in Ha. lia.
  - simpl for_loop.
    destruct (lookup_lt_is_Some_2 asg start) as [b Hb]; [lia|].
    destruct (lookup_lt_is_Some_2 (columns data) start) as [p Hp];
      [unfold n_cols in Hn; lia|].
    unfold bind at 1. rewrite Hb, Hp.
    destruct (decide (start = i0)) as [->|Hne].
    + rewrite Hb in Ha. injection Ha as ->.
      rewrite (bind_Throw _ _ _ _ _ _
                 (update_col_out_of_bounds _ a0 fr
                    ltac:(rewrite Hc; unfold n_cols; simpl; lia))).
      rewrite Nat.sub_diag. simpl.
      by rewrite <- Hc, set_centroids_same.
    + assert (b < length sums) as Hlt by (apply (Hgood start); [lia|done]).
      rewrite (bind_silent _ _ _ _ _ (update_col_ok _ b fr D sums Hc Hlt)).
      simpl.
      rewrite (IH (S start) (alter (fun c => vec_add c p) b sums)
                  (alter S b counts)
                  (set_centroids
                     (Mat D (alter (fun c => vec_add c p) b sums)) fr)
                  i0 a0); [|lia|done|lia|done|by rewrite length_alter|].
      * replace (i0 - start) with (S (i0 - S start)) by lia.
        rewrite (drop_S _ _ _ Hb), (drop_S _ _ _ Hp). simpl.
        by destruct fr.
      * intros j c Hj Hjc. rewrite length_alter. apply (Hgood j); [lia|done].
Qed.

(** X3: an assignment guess of the right length that names a cluster
    index not below the number of clusters stops the call on the
    bounds-checked column access while the centroids are being summed:
    before any warning, any call of the partitioner or of [Iterate]; the
    object and the assignment row are as they were, but the centroid matrix
    passed in has already been replaced: it has as many rows as the points
    and as many columns as clusters, and the column of each cluster holds
    the sum, not divided by any count, of the points that come before the
    first offending entry of the guess and that the guess gives to the
    cluster. *)
Theorem X3_guess_naming_missing_cluster
    DEBUG fuel data clusters initialCentroidGuess (fr : frame) i a :
  length (assignments fr) = n_cols data ->
  assignments fr !! i = Some a ->
  clusters <= a ->
  let o := Cluster_assignments (LT := LT) DEBUG fuel data clusters
             true initialCentroidGuess fr in
  out_val o = Throw OutOfBounds /\ out_trace o = [] /\
  has_shape data clusters (out_state o) /\
  assignments (out_state o) = assignments fr /\
  this (out_state o) = this fr /\
  exists i0 a0,
    i0 <= i /\ assignments fr !! i0 = Some a0 /\ clusters <= a0 /\
    (forall j b, j < i0 -> assignments fr !! j = Some b -> b < clusters) /\
    forall j, j < clusters ->
      columns (centroids (out_state o)) !! j =
      Some (foldl vec_add (replicate (n_rows data) zero)
              (cluster_members data (take i0 (assignments fr)) j)).
Proof.
  intros Hlen Ha Hbad. cbv zeta.
  destruct (first_stray_entry clusters (assignments fr) i a Ha Hbad)
    as (i0 & a0 & Hi0 & Ha0 & Hbad0 & Hgood).
  pose proof (accumulate_loop_stops data (assignments fr) (n_rows data)
                Hlen (n_cols data) 0
                (replicate clusters (replicate (n_rows data) zero))
                (replicate clusters 0)
                (set_centroids (zeros (n_rows data) clusters) fr) i0 a0
                eq_refl eq_refl ltac:(lia) Ha0
                ltac:(rewrite length_replicate; exact Hbad0)) as Hrun.
  rewrite Nat.sub_0_r, !drop_0 in Hrun.
  specialize (Hrun ltac:(intros j b Hj Hb; rewrite length_replicate;
                         apply (Hgood j); [lia|done])).
  set (sums' := (foldl accumulate_step
                   (replicate clusters (replicate (n_rows data) zero),
                    replicate clusters 0)
                   (zip (take i0 (assignments fr)) (columns data))).1) in *.
  assert (Hpro : centroids_from_assignments data clusters (assignments fr) fr =
                 Outcome [] (set_centroids (Mat (n_rows data) sums') fr)
                         (Throw OutOfBounds)).
  { unfold centroids_from_assignments.
    rewrite (bind_silent _ _ fr
               (set_centroids (zeros (n_rows data) clusters) fr) tt eq_refl).
    rewrite (bind_Throw _ _ _ _ _ _ Hrun). by destruct fr. }
  unfold Cluster_assignments. cbn [when].
  pose proof (assignment_guess_prologue data clusters fr) as Hp.
  rewrite Hlen, Nat.eqb_refl, Hpro in Hp.
  rewrite (bind_Throw _ _ _ _ _ _ Hp).
  assert (Hcols : forall j,
             sums' !! j =
             (fun s => foldl vec_add s
                         (cluster_members data (take i0 (assignments fr)) j))
               <$> replicate clusters (replicate (n_rows data) zero) !! j /\
             length sums' = clusters).
  { intros j.
    destruct (accumulate_fold (zip (take i0 (assignments fr)) (columns data))
                (replicate clusters (replicate (n_rows data) zero))
                (replicate clusters 0) j) as (H1 & _ & H3 & _).
    rewrite length_replicate in H3. split; [exact H1|exact H3]. }
  unfold has_shape, n_cols. simpl.
  split_and!; try done.
  - apply (Hcols 0).
  - exists i0, a0. split_and!; try done.
    intros j Hj. destruct (Hcols j) as [-> _].
    by rewrite lookup_replicate_2.
Qed.

End GuessOutOfRange.

(* ================================================================== *)
(** ** The parts of a call that returns                                *)
(* ================================================================== *)

Section Anatomy.

Context {MT PT ET LT : Type}.
Context `{!MetricType MT, !InitialPartitionPolicy PT,
          !EmptyClusterPolicy MT ET, !LloydStepType MT LT}.
Local Abbreviation frame := (frame MT PT ET).
Local Abbreviation locals := (locals LT).

(** A call that returns went through the partitioning, the loop and the
    closing statements, in this order. *)
Lemma Cluster_returns fuel data clusters g (fr : frame) :
  let o := Cluster (LT := LT) fuel data clusters g fr in
  out_val o = Ok tt ->
  g && centroid_guess_mismatch data clusters (centroids fr) = false /\
  exists ti fr1 tl fr2 lv ta,
    initial_centroids data clusters g fr = Outcome ti fr1 (Ok tt) /\
    do_while fuel (loop_body data clusters)
      (mkLocals (replicate clusters 0) 0%Z
                (LloydStep_new data (metric (this fr1))) empty_mat) fr1 =
    Outcome tl fr2 (Ok lv) /\
    after_loop lv fr2 = Outcome ta (out_state o) (Ok tt) /\
    out_trace o = expected_warnings data clusters ++ ti ++ tl ++ ta.
Proof.
  cbv zeta.
  destruct (g && centroid_guess_mismatch data clusters (centroids fr))
    eqn:Hg.
  { rewrite Cluster_rejected by done. discriminate. }
  rewrite Cluster_accepted by done. cbv zeta. simpl. intros Hok.
  split; [done|].
  destruct (bind _ _ fr) as [t s r] eqn:Hrun. simpl in *. subst r.
  apply bind_returns in Hrun as (ti & fr1 & [] & t' & Hi & Hrest & ->).
  apply bind_returns in Hrest as (tl & fr2 & lv & ta & Hl & Ha & ->).
  rewrite convergence_loop_unfold in Hl.
  by exists ti, fr1, tl, fr2, lv, ta.
Qed.





End Anatomy.

(* ================================================================== *)
(** ** The shape of the centroids through the loop                     *)
(* ================================================================== *)

Section Shapes.

Context {MT PT ET LT : Type}.
Context `{!MetricType MT, !InitialPartitionPolicy PT,
          !EmptyClusterPolicy MT ET, !LloydStepType MT LT}.
Local Abbreviation frame := (frame MT PT ET).
Local Abbreviation locals := (locals LT).

Lemma wrap_parity z : (wrap z mod 2 = z mod 2)%Z.
Proof.
  unfold wrap, size_t_modulus. apply Z.mod_mod_divide.
  exists (2 ^ 63)%Z. reflexivity.
Qed.

Lemma parity_succ z :
  ((wrap (z + 1) mod 2 =? 0) = negb (z mod 2 =? 0))%Z.
Proof.
  rewrite wrap_parity.
  destruct (z mod 2 =? 0)%Z eqn:E; simpl.
  - apply Z.eqb_eq in E. apply Z.eqb_neq. Z.div_mod_to_equations. lia.
  - apply Z.eqb_neq in E. apply Z.eqb_eq. Z.div_mod_to_equations. lia.
Qed.

Lemma parity_pred z :
  ((wrap (z - 1) mod 2 =? 0) = negb (z mod 2 =? 0))%Z.
Proof.
  rewrite wrap_parity.
  destruct (z mod 2 =? 0)%Z eqn:E; simpl.
  - apply Z.eqb_eq in E. apply Z.eqb_neq. Z.div_mod_to_equations. lia.
  - apply Z.eqb_neq in E. apply Z.eqb_eq. Z.div_mod_to_equations. lia.
Qed.

Lemma lloyd_iterate_shape data clusters (lv lv1 : locals) (fr fr1 : frame)
    t r :
  Iterate_keeps_shape (LT := LT) ->
  shaped data clusters (current_centroids lv fr) ->
  lloyd_iterate lv fr = Outcome t fr1 (Ok (lv1, r)) ->
  iteration lv1 = iteration lv /\
  shaped data clusters (written_centroids (iteration lv) lv1 fr1).
Proof.
  intros HI. unfold lloyd_iterate, current_centroids, written_centroids, shaped.
  cbv [bind get emit modify ret out_val out_state out_trace].
  destruct (iteration lv mod 2 =? 0)%Z; intros [Hc Hr].
  - pose proof (HI (lloydStep lv) (centroids fr) (centroidsOther lv)
                  (counts lv)) as [H1 H2].
    destruct (Iterate _ _ _ _) as [[[ls new] cnt] r']. simpl in *.
    intros [= _ _ <- _]. simpl. split; [done|]. split; congruence.
  - pose proof (HI (lloydStep lv) (centroidsOther lv) (centroids fr)
                  (counts lv)) as [H1 H2].
    destruct (Iterate _ _ _ _) as [[[ls new] cnt] r']. simpl in *.
    intros [= _ <- <- _]. simpl. split; [done|]. split; congruence.
Qed.

Lemma empty_cluster_check_shape data0 clusters data i (lv lv' : locals)
    (fr fr' : frame) t it :
  EmptyCluster_keeps_shape (ET := ET) ->
  iteration lv = it /\
  shaped data0 clusters (written_centroids it lv fr) ->
  empty_cluster_check data i lv fr = Outcome t fr' (Ok lv') ->
  iteration lv' = it /\
  shaped data0 clusters (written_centroids it lv' fr').
Proof.
  intros HE [<- Hs]. revert Hs.
  unfold empty_cluster_check, written_centroids, shaped.
  cbv [bind get emit modify ret throw out_val out_state out_trace].
  destruct (counts lv !! i) as [[|n]|]; try discriminate.
  - destruct (iteration lv mod 2 =? 0)%Z eqn:E; intros [Hc Hr].
    + pose proof (HE (emptyClusterAction (this fr)) data i (centroids fr)
                    (centroidsOther lv) (counts lv) (metric (this fr))
                    (iteration lv)) as [H1 H2].
      destruct (EmptyCluster _ _ _ _ _ _ _ _) as [[e new] cnt]. simpl in *.
      intros [= _ _ <-]. simpl. split; [done|]. split; congruence.
    + pose proof (HE (emptyClusterAction (this fr)) data i (centroidsOther lv)
                    (centroids fr) (counts lv) (metric (this fr))
                    (iteration lv)) as [H1 H2].
      destruct (EmptyCluster _ _ _ _ _ _ _ _) as [[e new] cnt]. simpl in *.
      intros [= _ <- <-]. simpl. split; [done|]. split; congruence.
  - intros Hs [= _ <- <-]. done.
Qed.

(** A returning pass of the loop hands a well-shaped matrix to the next. *)
Lemma loop_body_shape data clusters (lv lv' : locals) (fr fr' : frame) t b :
  Iterate_keeps_shape (LT := LT) -> EmptyCluster_keeps_shape (ET := ET) ->
  shaped data clusters (current_centroids lv fr) ->
  loop_body data clusters lv fr = Outcome t fr' (Ok (lv', b)) ->
  shaped data clusters (current_centroids lv' fr').
Proof.
  intros HI HE Hs. unfold loop_body. intros Hb.
  apply bind_returns in Hb as (t1 & fr1 & [lv1 r] & t2 & H1 & H2 & _).
  apply bind_returns in H2 as (t3 & fr2 & lv2 & t4 & H3 & H4 & _).
  destruct (lloyd_iterate_shape data clusters lv lv1 fr fr1 t1 r HI Hs H1)
    as (Hit & Hw).
  assert (Hpass : iteration lv2 = iteration lv /\
                  shaped data clusters
                    (written_centroids (iteration lv) lv2 fr2)).
  { eapply (for_loop_inv
              (fun a s => iteration a = iteration lv /\
                          shaped data clusters
                            (written_centroids (iteration lv) a s)));
      [|split; [exact Hit|exact Hw]|exact H3].
    intros i a s t' s' a' Ha Hrun.
    eapply empty_cluster_check_shape; eauto. }
  destruct Hpass as (Hit2 & Hw2).
  revert H4. cbv [bind get emit modify ret out_val out_state out_trace].
  simpl. intros [= _ <- <- _].
  unfold current_centroids, written_centroids in *. simpl.
  rewrite Hit2, parity_succ.
  by destruct (iteration lv mod 2 =? 0)%Z.
Qed.

Lemma do_while_shape data clusters :
  Iterate_keeps_shape (LT := LT) -> EmptyCluster_keeps_shape (ET := ET) ->
  forall fuel (lv lv' : locals) (fr fr' : frame) t,
    shaped data clusters (current_centroids lv fr) ->
    do_while fuel (loop_body data clusters) lv fr = Outcome t fr' (Ok lv') ->
    shaped data clusters (current_centroids lv' fr').
Proof.
  intros HI HE.
  induction fuel as [|fuel IH]; intros lv lv' fr fr' t Hs; simpl;
    [discriminate|].
  intros Hrun.
  apply bind_returns in Hrun as (t1 & fr1 & [lv1 b] & t2 & H1 & H2 & _).
  pose proof (loop_body_shape data clusters lv lv1 fr fr1 t1 b HI HE Hs H1)
    as Hs1.
  cbn [fst snd] in H2. destruct b.
  - eapply IH; eauto.
  - injection H2 as _ <- <-. done.
Qed.

Lemma initial_centroids_shape data clusters g (fr fr1 : frame) t :
  g && centroid_guess_mismatch data clusters (centroids fr) = false ->
  g = true \/ partitioner_gives_shape (PT := PT) data clusters ->
  initial_centroids data clusters g fr = Outcome t fr1 (Ok tt) ->
  shaped data clusters (centroids fr1).
Proof.
  intros Hg Hp. unfold initial_centroids.
  destruct g; cbn [negb when].
  - intros [= _ <-]. simpl in Hg. unfold centroid_guess_mismatch in Hg.
    apply orb_false_elim in Hg as [H1 H2].
    apply negb_false_iff, Nat.eqb_eq in H1, H2. done.
  - destruct Hp as [|Hp]; [done|].
    unfold GetInitialAssignmentsOrCentroids, partitioner_gives_shape in *.
    intros Hrun.
    apply bind_returns in Hrun as (t1 & s1 & [got asg] & t2 & H1 & H2 & _).
    rewrite (bind_silent get _ fr fr fr eq_refl) in H1.
    apply bind_returns in H1 as (t3 & s3 & [] & t4 & H3 & H4 & _).
    injection H3 as _ <-.
    destruct ipp_Cluster as [f|f].
    + destruct (f _ _ _) as [p a].
      revert H4. cbv [bind modify ret out_val out_state out_trace].
      intros [= _ <- <- <-]. cbn [when] in H2.
      by apply centroids_from_assignments_shape in H2.
    + specialize (Hp (partitioner (this fr)) (centroids fr)).
      destruct (f _ _ _ _) as [p c].
      revert H4. cbv [bind modify ret out_val out_state out_trace].
      intros [= _ <- <- _]. cbn [when] in H2.
      injection H2 as _ <-. done.
Qed.

(** X5: with a Lloyd step that writes centroids of the shape of those it
    reads and an empty-cluster policy that keeps the shape of the matrix
    it is given, a call that returns hands back a centroid matrix with one
    column per cluster and as many rows as the data, whichever of the two
    buffers ends up as the result; this holds for an accepted centroid
    guess and for a run started by the partitioner (from the centroids
    computed for its assignments, or from its own centroids when it gives
    them in this shape). *)
Theorem X5_returned_centroids_have_shape
    fuel data clusters g (fr : frame) :
  Iterate_keeps_shape (LT := LT) ->
  EmptyCluster_keeps_shape (ET := ET) ->
  g = true \/ partitioner_gives_shape (PT := PT) data clusters ->
  let o := Cluster (LT := LT) fuel data clusters g fr in
  out_val o = Ok tt ->
  has_shape data clusters (out_state o).
Proof.
  intros HI HE Hp. cbv zeta. intros Hok.
  destruct (Cluster_returns fuel data clusters g fr Hok)
    as (Hg & ti & fr1 & tl & fr2 & lv & ta & Hi & Hl & Ha & Ht).
  pose proof (initial_centroids_shape data clusters g fr fr1 ti Hg Hp Hi)
    as Hs1.
  pose proof (do_while_shape data clusters HI HE fuel
                (mkLocals (replicate clusters 0) 0%Z
                   (LloydStep_new data (metric (this fr1))) empty_mat)
                lv fr1 fr2 tl Hs1 Hl)
    as Hs2.
  pose proof (after_loop_centroids lv fr2) as Hc.
  rewrite Ha in Hc. simpl in Hc.
  unfold has_shape. rewrite Hc.
  unfold target_of, current_centroids, shaped in *.
  rewrite parity_pred.
  by destruct (iteration lv mod 2 =? 0)%Z.
Qed.

End Shapes.

(* ================================================================== *)
(** ** What one pass of the loop reports                               *)
(* ================================================================== *)

Section Passes.

Context {MT PT ET LT : Type}.
Context `{!MetricType MT, !InitialPartitionPolicy PT,
          !EmptyClusterPolicy MT ET, !LloydStepType MT LT}.
Local Abbreviation frame := (frame MT PT ET).
Local Abbreviation locals := (locals LT).

Lemma lloyd_iterate_counts (lv : locals) (fr : frame) :
  let step := Iterate (lloydStep lv) (current_centroids lv fr)
                (written_centroids (iteration lv) lv fr) (counts lv) in
  exists fr1 lv1,
    lloyd_iterate lv fr =
    Outcome [Call_Iterate (target_of (iteration lv))] fr1
            (Ok (lv1, step.2)) /\
    counts lv1 = step.1.2 /\ iteration lv1 = iteration lv.
Proof.
  unfold lloyd_iterate, target_of, current_centroids, written_centroids.
  cbv [bind get emit modify ret out_val out_state out_trace].
  destruct (iteration lv mod 2 =? 0)%Z;
    destruct (Iterate _ _ _ _) as [[[ls new] cnt] r]; simpl; eauto.
Qed.

Lemma empty_cluster_events_cons tgt i js :
  empty_cluster_events tgt (i :: js) =
  Info_cluster_empty i :: Call_EmptyCluster i tgt ::
  empty_cluster_events tgt js.
Proof. reflexivity. Qed.

(** The pass over the clusters, for a policy that leaves the counts as
    they are. *)
Lemma empty_cluster_pass data :
  EmptyCluster_keeps_counts (ET := ET) ->
  forall n start (lv : locals) (fr : frame),
    start + n <= length (counts lv) ->
    exists fr' lv',
      for_loop start n (empty_cluster_check data) lv fr =
      Outcome (empty_cluster_events (target_of (iteration lv))
                 (filter (fun i => counts lv !! i = Some 0) (seq start n)))
              fr' (Ok lv') /\
      counts lv' = counts lv /\ iteration lv' = iteration lv.
Proof.
  intros HE. induction n as [|n IH]; intros start lv fr Hlen.
  - by exists fr, lv.
  - destruct (lookup_lt_is_Some_2 (counts lv) start) as [c Hc]; [lia|].
    assert (Hturn : exists fr1 lv1,
               empty_cluster_check data start lv fr =
               Outcome (if decide (c = 0)
                        then [Info_cluster_empty start;
                              Call_EmptyCluster start
                                (target_of (iteration lv))]
                        else []) fr1 (Ok lv1) /\
               counts lv1 = counts lv /\ iteration lv1 = iteration lv).
    { unfold empty_cluster_check, target_of. rewrite Hc.
      cbv [bind get emit modify ret out_val out_state out_trace].
      destruct c as [|c]; simpl; [|by eauto].
      destruct (iteration lv mod 2 =? 0)%Z.
      - pose proof (HE (emptyClusterAction (this fr)) data start
                      (centroids fr) (centroidsOther lv) (counts lv)
                      (metric (this fr)) (iteration lv)) as Hk.
        destruct (EmptyCluster _ _ _ _ _ _ _ _) as [[e new] cnt].
        simpl in *. subst cnt. eauto.
      - pose proof (HE (emptyClusterAction (this fr)) data start
                      (centroidsOther lv) (centroids fr) (counts lv)
                      (metric (this fr)) (iteration lv)) as Hk.
        destruct (EmptyCluster _ _ _ _ _ _ _ _) as [[e new] cnt].
        simpl in *. subst cnt. eauto. }
    destruct Hturn as (fr1 & lv1 & Hturn & Hc1 & Hi1).
    destruct (IH (S start) lv1 fr1) as (fr' & lv' & Hrest & Hc' & Hi');
      [rewrite Hc1; lia|].
    exists fr', lv'. split; [|split; congruence].
    simpl for_loop. rewrite (bind_Ok _ _ _ _ _ _ Hturn), Hrest. simpl.
    rewrite Hc1, Hi1. f_equal.
    destruct (decide (c = 0)) as [->|Hne].
    + by rewrite filter_cons_True.
    + rewrite filter_cons_False; [done|]. rewrite Hc. congruence.
Qed.

(** X6: in one pass of the loop, with an empty-cluster policy that leaves
    the counts as they are and counts of at least [clusters] entries coming
    back from [Iterate], the pass returns and its trace is the [Iterate]
    call, then, for each cluster whose count is zero and for no other, in
    increasing order and once each, the message that the cluster is empty
    followed by the call of the policy on the buffer [Iterate] has just
    written, then the report of the iteration with the residual as
    [Iterate] returned it (before any replacement of a NaN or infinite
    value) and the incremented iteration number. *)
Theorem X6_pass_reports_each_empty_cluster
    data clusters (lv : locals) (fr : frame) :
  EmptyCluster_keeps_counts (ET := ET) ->
  let step := Iterate (lloydStep lv) (current_centroids lv fr)
                (written_centroids (iteration lv) lv fr) (counts lv) in
  let target := target_of (iteration lv) in
  let o := loop_body data clusters lv fr in
  clusters <= length step.1.2 ->
  (exists lv', out_val o =
               Ok (lv', loop_condition (clamp_residual step.2)
                          (wrap (iteration lv + 1))
                          (maxIterations (this fr))) /\
               counts lv' = step.1.2 /\
               iteration lv' = wrap (iteration lv + 1)) /\
  out_trace o =
  Call_Iterate target ::
  empty_cluster_events target
    (filter (fun i => step.1.2 !! i = Some 0) (seq 0 clusters)) ++
  [Info_iteration (wrap (iteration lv + 1)) step.2].
Proof.
  intros HE. cbv zeta. intros Hlen.
  destruct (lloyd_iterate_counts lv fr) as (fr1 & lv1 & H1 & Hc1 & Hi1).
  destruct (empty_cluster_pass data HE clusters 0 lv1 fr1)
    as (fr2 & lv2 & H2 & Hc2 & Hi2); [rewrite Hc1; exact Hlen|].
  assert (Hmax : maxIterations (this fr2) = maxIterations (this fr)).
  { destruct (lloyd_iterate_outcome lv fr) as (fr1' & ? & ? & H1' & _ & Hthis).
    rewrite H1 in H1'. injection H1' as <- _ _.
    pose proof (tame_for_loop quiet false (empty_cluster_check data) clusters
                  (tame_empty_cluster_check false data) 0 lv1 fr1)
      as (_ & _ & _ & Hs).
    rewrite H2 in Hs. simpl in Hs. by rewrite Hs, Hthis. }
  unfold loop_body.
  rewrite (bind_Ok _ _ _ _ _ _ H1). cbv beta iota.
  rewrite (bind_Ok _ _ _ _ _ _ H2).
  cbv [bind get emit modify ret out_val out_state out_trace].
  simpl. rewrite Hi2, Hi1, Hc1, Hmax. split.
  - eexists. split; [reflexivity|]. simpl. split; [congruence|done].
  - reflexivity.
Qed.

End Passes.

(* ================================================================== *)
(** ** The iteration-count termination policy                          *)
(* ================================================================== *)

Section MaxIterationFacts.

Import MaxIterationTermination.

Lemma after_calls_snoc args a (p : t) :
  after_calls (args ++ [a]) p = (IsConverged a.1 a.2 (after_calls args p)).1.
Proof. unfold after_calls. by rewrite foldl_app. Qed.

(** Short of the wrap-around, the counter is the number of calls. *)
Lemma after_calls_iteration args : forall p : t,
  (0 <= iteration p)%Z ->
  (iteration p + Z.of_nat (length args) < size_t_modulus)%Z ->
  iteration (after_calls args p) =
  (iteration p + Z.of_nat (length args))%Z /\
  maxIterations (after_calls args p) = maxIterations p.
Proof.
  induction args as [|a args IH]; intros p H0 Hlt.
  - simpl. split; [lia|done].
  - change (after_calls (a :: args) p)
      with (after_calls args (IsConverged a.1 a.2 p).1).
    rewrite length_cons, Nat2Z.inj_succ in *.
    destruct (IH (IsConverged a.1 a.2 p).1) as (H1 & H2).
    + simpl. pose proof (wrap_range (iteration p + 1)). lia.
    + simpl. rewrite wrap_small by lia. lia.
    + rewrite H1, H2. simpl.
      rewrite wrap_small by lia. split; [lia|done].
Qed.

(** X7: for a policy built with the limit [M], the call number [k] of
    [IsConverged] (short of the wrap-around of the counter) answers true
    exactly when [k >= M], whatever matrices are passed: false for the
    calls before the [M]-th, true from the [M]-th on.  For the limit 0,
    for which alone the constructor logs that the algorithm will never
    terminate, this makes the first call and every later one answer
    true. *)
Theorem X7_answer_of_call_number (M : Z) args H W :
  (0 <= M < size_t_modulus)%Z ->
  (Z.of_nat (length args) + 1 < size_t_modulus)%Z ->
  let k := (Z.of_nat (length args) + 1)%Z in
  let p := after_calls args (new M).2 in
  (IsConverged H W p).2 = (M <=? k)%Z /\
  iteration (IsConverged H W p).1 = k /\
  ((new M).1 = [Warn_never_terminates] <-> M = 0%Z) /\
  (M = 0%Z -> (IsConverged H W p).2 = true).
Proof.
  intros HM Hk. cbv zeta.
  destruct (after_calls_iteration args (new M).2) as (Hi & Hm);
    [simpl; lia|simpl; lia|].
  simpl in Hi, Hm. unfold IsConverged. simpl.
  rewrite Hi, Hm, wrap_small by lia.
  split_and!; try done.
  - unfold new. destruct (M =? 0)%Z eqn:E; simpl.
    + apply Z.eqb_eq in E. done.
    + apply Z.eqb_neq in E. split; [discriminate|done].
  - intros ->. apply Z.leb_le. lia.
Qed.

(** X8: [Index()] never wraps below zero: on every object whose members
    hold a [size_t] it lies between 0 and the limit; after a call of
    [IsConverged] (short of the wrap-around of the counter) it is the
    number of iterations left, [max 0 (limit - iteration)], and the call
    has answered true exactly when it is 0. *)
Theorem X8_index_is_iterations_left (p : t) H W :
  in_range p ->
  (iteration p + 1 < size_t_modulus)%Z ->
  let r := IsConverged H W p in
  (0 <= Index p <= maxIterations p)%Z /\
  Index r.1 = Z.max 0 (maxIterations p - (iteration p + 1)) /\
  r.2 = (Index r.1 =? 0)%Z /\
  in_range r.1.
Proof.
  intros [HM Hi] Hlt. cbv zeta.
  unfold Index, IsConverged, in_range. simpl.
  rewrite (wrap_small (iteration p + 1)) by lia.
  split; [|split; [|split]].
  - destruct (_ <? _)%Z eqn:E; [lia|].
    apply Z.ltb_ge in E. rewrite wrap_small by lia. lia.
  - destruct (_ <? _)%Z eqn:E.
    + apply Z.ltb_lt in E. lia.
    + apply Z.ltb_ge in E. rewrite wrap_small by lia. lia.
  - destruct (maxIterations p <? iteration p + 1)%Z eqn:E.
    + apply Z.ltb_lt in E. simpl. apply Z.leb_le. lia.
    + apply Z.ltb_ge in E. rewrite wrap_small by lia.
      destruct (maxIterations p - (iteration p + 1) =? 0)%Z eqn:E2.
      * apply Z.eqb_eq in E2. apply Z.leb_le. lia.
      * apply Z.eqb_neq in E2. apply Z.leb_gt. lia.
  - lia.
Qed.

End MaxIterationFacts.

(* ================================================================== *)
(** ** The wrapper that consults a policy once per pass over the data  *)
(* ================================================================== *)

Section CompleteIncrementalFacts.

Import CompleteIncrementalTermination.

Context {T : Type} `{!TerminationPolicy T}.

Lemma calls_app args1 args2 (c : t T) :
  calls (args1 ++ args2) c =
  match calls args1 c with
  | None => None
  | Some (c1, bs1) =>
      match calls args2 c1 with
      | None => None
      | Some (c2, bs2) => Some (c2, bs1 ++ bs2)
      end
  end.
Proof.
  revert c. induction args1 as [|[W H] args1 IH]; intros c; simpl.
  - by destruct (calls args2 c) as [[c2 bs2]|].
  - destruct (IsConverged W H c) as [[c1 b]|]; [|done].
    rewrite IH. destruct (calls args1 c1) as [[c2 bs]|]; [|done].
    by destruct (calls args2 c2) as [[c3 bs2]|].
Qed.

Lemma mod_succ_small (i n : Z) :
  (0 <= i)%Z -> (0 < n)%Z -> (i mod n + 1 < n)%Z ->
  ((i + 1) mod n = i mod n + 1)%Z.
Proof.
  intros Hi Hn Hlt.
  pose proof (Z.mod_pos_bound i n Hn).
  symmetry. apply (Z.mod_unique_pos _ _ (i / n)); [lia|].
  pose proof (Z.div_mod i n). lia.
Qed.

Lemma mod_succ_full (i n : Z) :
  (0 <= i)%Z -> (0 < n)%Z -> (i mod n + 1 = n)%Z -> ((i + 1) mod n = 0)%Z.
Proof.
  intros Hi Hn Hlt.
  symmetry. apply (Z.mod_unique_pos _ _ (i / n + 1)); [lia|].
  pose proof (Z.div_mod i n). lia.
Qed.

(** Calls that stay within a pass answer false and leave the wrapped
    policy as it is. *)
Lemma calls_within_pass args : forall c : t T,
  (0 <= iteration c)%Z -> (0 < incrementalIndex c)%Z ->
  (iteration c + Z.of_nat (length args) < size_t_modulus)%Z ->
  (iteration c mod incrementalIndex c + Z.of_nat (length args)
   < incrementalIndex c)%Z ->
  calls args c =
  Some (mk (tPolicy c) (incrementalIndex c)
           (iteration c + Z.of_nat (length args)),
        replicate (length args) false).
Proof.
  induction args as [|[W H] args IH]; intros c H0 Hn Hlt Hmod.
  - simpl. rewrite Z.add_0_r. by destruct c.
  - rewrite length_cons, Nat2Z.inj_succ in *.
    pose proof (Z.mod_pos_bound (iteration c) (incrementalIndex c) Hn).
    simpl. unfold IsConverged.
    rewrite wrap_small by lia.
    destruct (incrementalIndex c =? 0)%Z eqn:E0;
      [apply Z.eqb_eq in E0; lia|].
    rewrite mod_succ_small by lia.
    destruct (iteration c mod incrementalIndex c + 1 =? 0)%Z eqn:E1;
      [apply Z.eqb_eq in E1; lia|].
    rewrite IH; simpl; [|lia|lia|lia|rewrite mod_succ_small by lia; lia].
    do 3 f_equal. lia.
Qed.

(** X9: once the number of calls made is a multiple of the incremental
    index [n >= 1] (as it is after [Initialize]), the next [n] calls form
    one pass: the first [n - 1] answer false and do not touch the wrapped
    policy, whatever matrices they are given; the [n]-th consults the
    wrapped policy exactly once, with its own matrices, and returns the
    answer of that policy; the count is then again a multiple of [n]. *)
Theorem X9_one_pass_consults_once (c : t T) pre W H :
  let n := incrementalIndex c in
  (0 <= iteration c)%Z ->
  (iteration c mod n = 0)%Z ->
  Z.of_nat (length pre) = (n - 1)%Z ->
  (iteration c + n < size_t_modulus)%Z ->
  let inner := tp_IsConverged W H (tPolicy c) in
  calls (pre ++ [(W, H)]) c =
  Some (mk inner.1 n (iteration c + n),
        replicate (length pre) false ++ [inner.2]) /\
  ((iteration c + n) mod n = 0)%Z.
Proof.
  cbv zeta. intros H0 Hmod Hlen Hlt.
  assert (0 < incrementalIndex c)%Z as Hn by lia.
  rewrite calls_app, calls_within_pass by lia.
  simpl. unfold IsConverged. simpl.
  rewrite wrap_small by lia.
  destruct (incrementalIndex c =? 0)%Z eqn:E0;
    [apply Z.eqb_eq in E0; lia|].
  assert (Hfull : ((iteration c + Z.of_nat (length pre) + 1)
                   mod incrementalIndex c = 0)%Z).
  { replace (iteration c + Z.of_nat (length pre) + 1)%Z
      with (iteration c + 1 * incrementalIndex c)%Z by lia.
    by rewrite Z_mod_plus_full. }
  rewrite Hfull. simpl.
  destruct (tp_IsConverged W H (tPolicy c)) as [p b]. simpl.
  split.
  - do 3 f_equal. lia.
  - replace (iteration c + incrementalIndex c)%Z
      with (iteration c + 1 * incrementalIndex c)%Z by lia.
    by rewrite Z_mod_plus_full.
Qed.



End CompleteIncrementalFacts.

(* ================================================================== *)
(** ** The wrapper around the iteration-count policy                   *)
(* ================================================================== *)

Section WrappedLimit.

Local Abbreviation MIT := MaxIterationTermination.t.
Local Abbreviation CIT := (CompleteIncrementalTermination.t MIT).

Lemma div_succ_full (i n : Z) :
  (0 <= i)%Z -> (0 < n)%Z -> ((i + 1) mod n = 0)%Z ->
  ((i + 1) / n = i / n + 1)%Z.
Proof.
  intros Hi Hn Hm.
  pose proof (Z.div_mod (i + 1) n ltac:(lia)) as H1.
  pose proof (Z.div_mod i n ltac:(lia)) as H2.
  pose proof (Z.mod_pos_bound i n Hn) as H3.
  rewrite Hm in H1. nia.
Qed.

Lemma div_succ_small (i n : Z) :
  (0 <= i)%Z -> (0 < n)%Z -> ((i + 1) mod n <> 0)%Z ->
  ((i + 1) / n = i / n)%Z.
Proof.
  intros Hi Hn Hm.
  pose proof (Z.div_mod (i + 1) n ltac:(lia)) as H1.
  pose proof (Z.div_mod i n ltac:(lia)) as H2.
  pose proof (Z.mod_pos_bound i n Hn) as H3.
  pose proof (Z.mod_pos_bound (i + 1) n Hn) as H4.
  nia.
Qed.

(** Before the limit is reached the wrapped counter is the number of
    completed passes and every call answers false. *)
Lemma calls_before_limit (n M : Z) :
  (0 < n)%Z -> (n * M < size_t_modulus)%Z ->
  forall args (c : CIT),
    CompleteIncrementalTermination.incrementalIndex c = n ->
    (0 <= CompleteIncrementalTermination.iteration c)%Z ->
    MaxIterationTermination.maxIterations
      (CompleteIncrementalTermination.tPolicy c) = M ->
    MaxIterationTermination.iteration
      (CompleteIncrementalTermination.tPolicy c) =
    (CompleteIncrementalTermination.iteration c / n)%Z ->
    (CompleteIncrementalTermination.iteration c + Z.of_nat (length args)
     < n * M)%Z ->
    CompleteIncrementalTermination.calls args c =
    Some (CompleteIncrementalTermination.mk
            (MaxIterationTermination.mk M
               ((CompleteIncrementalTermination.iteration c
                 + Z.of_nat (length args)) / n))
            n
            (CompleteIncrementalTermination.iteration c
             + Z.of_nat (length args)),
          replicate (length args) false).
Proof.
  intros Hn HM. induction args as [|[W H] args IH];
    intros [[Mx j] idx i]; simpl; intros -> Hi -> -> Hlt.
  - by rewrite Z.add_0_r.
  - unfold CompleteIncrementalTermination.IsConverged. simpl.
    rewrite (wrap_small (i + 1)) by lia.
    destruct (n =? 0)%Z eqn:E0; [apply Z.eqb_eq in E0; lia|].
    assert (i + 1 < n * M)%Z as Hlt1 by lia.
    assert ((i + 1) / n < M)%Z as Hq
      by (apply Z.div_lt_upper_bound; lia).
    assert (0 <= i / n)%Z as Hq0 by (apply Z.div_pos; lia).
    assert (i / n <= i)%Z as Hqi by (apply Z.div_le_upper_bound; nia).
    destruct ((i + 1) mod n =? 0)%Z eqn:E1.
    + apply Z.eqb_eq in E1.
      pose proof (div_succ_full i n Hi Hn E1) as Hd.
      unfold MaxIterationTermination.IsConverged. simpl.
      rewrite (wrap_small (i / n + 1)) by lia.
      rewrite (IH (CompleteIncrementalTermination.mk
                     (MaxIterationTermination.mk M (i / n + 1)) n (i + 1)));
        simpl; [|done|lia|done|lia|lia].
      replace (M <=? i / n + 1)%Z with false
        by (symmetry; apply Z.leb_gt; lia).
      do 3 f_equal; [f_equal; f_equal|]; lia.
    + apply Z.eqb_neq in E1.
      pose proof (div_succ_small i n Hi Hn E1) as Hd.
      rewrite (IH (CompleteIncrementalTermination.mk
                     (MaxIterationTermination.mk M (i / n)) n (i + 1)));
        simpl; [|done|lia|done|lia|lia].
      do 3 f_equal; [f_equal; f_equal|]; lia.
Qed.

(** X11: wrapped around the iteration-count policy with the limit
    [M >= 1] and initialised on a matrix with [n >= 1] entries different
    from zero, the wrapper answers false to the first [n * M - 1] calls
    and true to call [n * M], whatever the members held before
    [Initialize] and whatever matrices are passed: the limit counts passes
    over the nonzero entries, not calls, and the wrapped counter then
    stands at [M]. *)
Theorem X11_limit_counts_passes V (M : Z) args W H idx it :
  let n := CompleteIncrementalTermination.count_nonzero V in
  (1 <= n)%Z -> (1 <= M)%Z -> (n * M < size_t_modulus)%Z ->
  Z.of_nat (length args) = (n * M - 1)%Z ->
  CompleteIncrementalTermination.calls (args ++ [(W, H)])
    (CompleteIncrementalTermination.Initialize V
       (CompleteIncrementalTermination.mk
          (MaxIterationTermination.new M).2 idx it)) =
  Some (CompleteIncrementalTermination.mk
          (MaxIterationTermination.mk M M) n (n * M),
        replicate (length args) false ++ [true]).
Proof.
  cbv zeta. intros Hn HM Hlt Hlen.
  set (n := CompleteIncrementalTermination.count_nonzero V) in *.
  rewrite calls_app.
  rewrite (calls_before_limit n M ltac:(lia) Hlt args); simpl;
    [|done|done|done|by rewrite Z.div_0_l by lia|lia].
  unfold CompleteIncrementalTermination.IsConverged. simpl.
  fold n. rewrite Hlen.
  replace (0 + (n * M - 1) + 1)%Z with (M * n)%Z by lia.
  replace (0 + (n * M - 1))%Z with (n * M - 1)%Z by lia.
  rewrite (wrap_small (M * n)) by lia.
  destruct (n =? 0)%Z eqn:E0; [apply Z.eqb_eq in E0; lia|].
  rewrite Z.mod_mul by lia. simpl.
  assert ((n * M - 1) / n = M - 1)%Z as Hd.
  { symmetry. apply (Z.div_unique_pos _ _ _ (n - 1)); lia. }
  rewrite Hd. replace (M - 1 + 1)%Z with M by lia.
  rewrite (wrap_small M) by nia.
  rewrite Z.leb_refl. do 3 f_equal. lia.
Qed.

End WrappedLimit.

(* ================================================================== *)
(** ** The sufficient statistics of the numeric split                  *)
(* ================================================================== *)

Section HoeffdingFacts.

Import HoeffdingNumericSplit.

Lemma scan_bins_spec (value : double) : forall ahead bin,
  let b := scan_bins value ahead bin in
  bin <= b <= bin + length ahead /\
  (forall j s, j < b - bin -> ahead !! j = Some s -> gt value s = true) /\
  (forall s, ahead !! (b - bin) = Some s -> gt value s = false).
Proof.
  induction ahead as [|s0 ahead IH]; intros bin; simpl.
  - split; [lia|]. split; [intros; lia|]. intros s. by rewrite lookup_nil.
  - destruct (gt value s0) eqn:E.
    + destruct (IH (S bin)) as (H1 & H2 & H3).
      split; [lia|]. split.
      * intros [|j] s Hj; simpl.
        -- by intros [= <-].
        -- apply H2. lia.
      * intros s.
        replace (scan_bins value ahead (S bin) - bin)
          with (S (scan_bins value ahead (S bin) - S bin)) by lia.
        simpl. apply H3.
    + split; [lia|]. split; [intros; lia|].
      intros s. rewrite Nat.sub_diag. simpl. by intros [= <-].
Qed.

Lemma find_bin_lt (nbins : Z) splitPoints value :
  (1 <= nbins < size_t_modulus)%Z ->
  find_bin nbins splitPoints value < Z.to_nat nbins.
Proof.
  intros Hb. unfold find_bin.
  destruct (scan_bins_spec value
              (take (Z.to_nat (wrap (nbins - 1))) splitPoints) 0)
    as ([_ H] & _).
  rewrite length_take in H. rewrite (wrap_small (nbins - 1)) in * by lia.
  lia.
Qed.

Lemma class_total_incr c row (C : nat) : forall cols col,
  col < length cols -> row < C ->
  Forall (fun colv : list nat => length colv = C) cols ->
  class_total c (UMat C (alter (alter S row) col cols)) =
  class_total c (UMat C cols) + (if decide (c = row) then 1 else 0).
Proof.
  unfold class_total. simpl.
  induction cols as [|colv cols IH]; intros col Hcol Hrow Hall; simpl in *;
    [lia|].
  apply Forall_cons in Hall as [Hlen Hall].
  destruct col as [|col]; simpl.
  - destruct (decide (c = row)) as [->|Hne].
    + rewrite list_lookup_alter_eq.
      destruct (lookup_lt_is_Some_2 colv row) as [x Hx]; [lia|].
      rewrite Hx. simpl. lia.
    + rewrite list_lookup_alter_ne by done. lia.
  - pose proof (IH col ltac:(lia) Hrow Hall) as IH'.
    change (list_alter (alter S row) col cols)
      with (alter (alter S row) col cols).
    rewrite IH'. lia.
Qed.

Lemma u_incr_ok (C B : nat) row col m :
  stats_shaped C B m -> row < C -> col < B ->
  exists m',
    u_incr row col m = Ok m' /\ stats_shaped C B m' /\
    forall c, class_total c m' =
              class_total c m + (if decide (c = row) then 1 else 0).
Proof.
  intros (Hr & Hc & Hall) Hrow Hcol. destruct m as [r cols]. simpl in *.
  subst r. unfold u_incr. simpl.
  assert ((row <? C) = true) as -> by (apply Nat.ltb_lt; lia).
  assert ((col <? length cols) = true) as -> by (apply Nat.ltb_lt; lia).
  simpl.
  eexists. split; [reflexivity|]. split.
  - unfold stats_shaped. simpl. rewrite length_alter.
    split_and!; try done.
    apply Forall_alter; [done|].
    intros colv _ Hlen. rewrite Forall_forall in Hall.
    rewrite length_alter. done.
  - intros c. apply class_total_incr; [lia|done|done].
Qed.

Lemma fold_count_stored (C : nat) (nbins : Z) points :
  (1 <= nbins < size_t_modulus)%Z ->
  forall pairs m,
    stats_shaped C (Z.to_nat nbins) m ->
    Forall (fun lo : nat * double => lo.1 < C) pairs ->
    exists m',
      foldl (count_stored nbins points) (Ok m) pairs = Ok m' /\
      stats_shaped C (Z.to_nat nbins) m' /\
      forall c, class_total c m' =
                class_total c m +
                length (filter (fun lo : nat * double => lo.1 = c) pairs).
Proof.
  intros Hb. induction pairs as [|[l o] pairs IH]; intros m Hm Hall.
  - exists m. simpl. split_and!; try done.
  - apply Forall_cons in Hall as [Hl Hall]. simpl in Hl.
    destruct (u_incr_ok C (Z.to_nat nbins) l (find_bin nbins points o) m
                Hm Hl (find_bin_lt nbins points o Hb))
      as (m1 & H1 & Hm1 & Ht1).
    destruct (IH m1 Hm1 Hall) as (m' & H2 & Hm' & Ht2).
    exists m'. simpl. rewrite H1. split_and!; try done.
    intros c. rewrite Ht2, Ht1.
    destruct (decide (c = l)) as [->|Hne].
    + rewrite filter_cons_True by done. simpl. lia.
    + rewrite filter_cons_False by (simpl; congruence). lia.
Qed.

Lemma u_zeros_shaped C B : stats_shaped C B (u_zeros C B).
Proof.
  unfold stats_shaped, u_zeros. simpl. rewrite length_replicate.
  split_and!; try done.
  apply Forall_replicate. by rewrite length_replicate.
Qed.

Lemma class_total_zeros c C B : class_total c (u_zeros C B) = 0.
Proof.
  unfold class_total, u_zeros. simpl.
  induction B as [|B IH]; simpl; [done|].
  rewrite IH. destruct (decide (c < C)) as [Hlt|Hge].
  - by rewrite lookup_replicate_2.
  - rewrite lookup_ge_None_2; [done|]. rewrite length_replicate. lia.
Qed.

(** While fewer than [observationsBeforeBinning - 1] samples are stored,
    [Train] stores one more. *)
Lemma Train_collecting C nbins obb seen value label :
  (1 <= obb < size_t_modulus)%Z ->
  (Z.of_nat (length seen) < obb - 1)%Z ->
  Train value label (collecting C nbins obb seen) =
  Ok (collecting C nbins obb (seen ++ [(value, label)])).
Proof.
  intros Ho Hk. unfold Train, collecting. simpl.
  rewrite (wrap_small (obb - 1)) by lia.
  rewrite (proj2 (Z.ltb_lt _ _) Hk).
  rewrite wrap_small by lia. rewrite Nat2Z.id.
  rewrite !fmap_app, !length_app. simpl.
  f_equal. f_equal.
  - rewrite insert_app_r_alt by (rewrite length_fmap; lia).
    rewrite length_fmap, Nat.sub_diag, <- app_assoc. f_equal.
    replace (Z.to_nat (obb - 1) - length seen)
      with (S (Z.to_nat (obb - 1) - (length seen + 1))) by lia.
    reflexivity.
  - rewrite insert_app_r_alt by (rewrite length_fmap; lia).
    rewrite length_fmap, Nat.sub_diag, <- app_assoc. f_equal.
    replace (Z.to_nat (obb - 1) - length seen)
      with (S (Z.to_nat (obb - 1) - (length seen + 1))) by lia.
    reflexivity.
  - lia.
Qed.

Lemma train_all_app samples1 samples2 (s : t) :
  train_all (samples1 ++ samples2) s =
  match train_all samples1 s with
  | Ok s1 => train_all samples2 s1
  | other => other
  end.
Proof.
  revert s. induction samples1 as [|[v l] samples1 IH]; intros s; simpl;
    [done|].
  destruct (Train v l s); try done; apply IH.
Qed.

Lemma train_all_collecting C nbins obb :
  (1 <= obb < size_t_modulus)%Z ->
  forall more seen,
    (Z.of_nat (length seen + length more) <= obb - 1)%Z ->
    train_all more (collecting C nbins obb seen) =
    Ok (collecting C nbins obb (seen ++ more)).
Proof.
  intros Ho. induction more as [|[v l] more IH]; intros seen Hlen; simpl.
  - by rewrite app_nil_r.
  - simpl in Hlen. rewrite Train_collecting by lia.
    rewrite IH by (rewrite length_app; simpl; lia).
    by rewrite <- app_assoc.
Qed.

Lemma label_count_zip c (seen : list (double * nat)) :
  length (filter (fun lo : nat * double => lo.1 = c)
                 (zip (snd <$> seen) (fst <$> seen))) =
  label_count c seen.
Proof.
  unfold label_count. induction seen as [|[v l] seen IH]; [done|].
  rewrite !fmap_cons. cbn [zip zip_with fst snd].
  destruct (decide (l = c)) as [->|Hne].
  - rewrite !filter_cons_True by done. simpl. by rewrite IH.
  - rewrite !filter_cons_False by done. done.
Qed.

Lemma label_count_app c s1 s2 :
  label_count c (s1 ++ s2) = label_count c s1 + label_count c s2.
Proof. unfold label_count. by rewrite filter_app, length_app. Qed.

(** The facts about an object whose bins are made. *)
Lemma Train_binned C value label (s : t) :
  (1 <= bins s < size_t_modulus)%Z ->
  (1 <= observationsBeforeBinning s < size_t_modulus)%Z ->
  samplesSeen s = observationsBeforeBinning s ->
  stats_shaped C (Z.to_nat (bins s)) (sufficientStatistics s) ->
  label < C ->
  exists m,
    Train value label s = Ok (set_statistics m s) /\
    stats_shaped C (Z.to_nat (bins s)) m /\
    forall c, class_total c m =
              class_total c (sufficientStatistics s) +
              (if decide (c = label) then 1 else 0).
Proof.
  intros Hb Ho Hseen Hm Hl. unfold Train.
  rewrite (wrap_small (observationsBeforeBinning s - 1)) by lia.
  rewrite Hseen.
  rewrite (proj2 (Z.ltb_ge _ _)) by lia.
  rewrite (proj2 (Z.eqb_neq _ _)) by lia.
  destruct (u_incr_ok C (Z.to_nat (bins s)) label
              (find_bin (bins s) (splitPoints s) value)
              (sufficientStatistics s) Hm Hl
              (find_bin_lt _ _ _ Hb)) as (m & H1 & Hm1 & Ht).
  exists m. by rewrite H1.
Qed.

Lemma train_all_binned C :
  forall samples (s : t),
    (1 <= bins s < size_t_modulus)%Z ->
    (1 <= observationsBeforeBinning s < size_t_modulus)%Z ->
    samplesSeen s = observationsBeforeBinning s ->
    stats_shaped C (Z.to_nat (bins s)) (sufficientStatistics s) ->
    Forall (fun vl : double * nat => vl.2 < C) samples ->
    exists m,
      train_all samples s = Ok (set_statistics m s) /\
      stats_shaped C (Z.to_nat (bins s)) m /\
      forall c, class_total c m =
                class_total c (sufficientStatistics s) +
                label_count c samples.
Proof.
  induction samples as [|[v l] samples IH]; intros s Hb Ho Hseen Hm Hall.
  - exists (sufficientStatistics s). simpl. split_and!.
    + by destruct s.
    + done.
    + intros c. unfold label_count. simpl. lia.
  - apply Forall_cons in Hall as [Hl Hall]. simpl in Hl.
    destruct (Train_binned C v l s Hb Ho Hseen Hm Hl) as (m1 & H1 & Hm1 & Ht1).
    destruct (IH (set_statistics m1 s)) as (m & H2 & Hm2 & Ht2); try done.
    exists m. simpl. rewrite H1, H2. split_and!; [done|done|].
    intros c. rewrite Ht2. simpl. rewrite Ht1.
    unfold label_count.
    destruct (decide (c = l)) as [->|Hne].
    + rewrite filter_cons_True by done. simpl. lia.
    + rewrite filter_cons_False by (simpl; congruence). lia.
Qed.

(** The call of [Train] that makes the bins counts the stored samples and
    the one it is given. *)
Lemma Train_binning C nbins obb seen value label :
  (1 <= nbins < size_t_modulus)%Z ->
  (1 <= obb < size_t_modulus)%Z ->
  Z.of_nat (length seen) = (obb - 1)%Z ->
  Forall (fun vl : double * nat => vl.2 < C) seen -> label < C ->
  exists s,
    Train value label (collecting C nbins obb seen) = Ok s /\
    bins s = nbins /\ observationsBeforeBinning s = obb /\
    samplesSeen s = obb /\
    length (splitPoints s) = Z.to_nat (nbins - 1) /\
    stats_shaped C (Z.to_nat nbins) (sufficientStatistics s) /\
    forall c, class_total c (sufficientStatistics s) =
              label_count c (seen ++ [(value, label)]).
Proof.
  intros Hb Ho Hlen Hall Hl. unfold Train, collecting. simpl.
  rewrite (wrap_small (obb - 1)) by lia.
  rewrite (proj2 (Z.ltb_ge _ _)) by lia.
  rewrite (proj2 (Z.eqb_eq _ _)) by lia.
  replace (Z.to_nat (obb - 1) - length seen) with 0 by lia.
  simpl. rewrite !app_nil_r.
  rewrite !take_ge by (rewrite length_fmap; lia).
  set (mm := foldl min_max_step (value, value) (fst <$> seen)).
  set (points := make_split_points nbins mm.1 mm.2).
  destruct (fold_count_stored C nbins points Hb
              (zip (snd <$> seen) (fst <$> seen))
              (u_zeros C (Z.to_nat nbins)) (u_zeros_shaped _ _))
    as (m1 & H1 & Hm1 & Ht1).
  { clear -Hall. induction seen as [|[v l] seen IH]; simpl; [constructor|].
    apply Forall_cons in Hall as [Hl Hall]. constructor; [done|by apply IH]. }
  rewrite H1. simpl.
  destruct (u_incr_ok C (Z.to_nat nbins) label
              (find_bin nbins points value) m1 Hm1 Hl
              (find_bin_lt _ _ _ Hb)) as (m & H2 & Hm2 & Ht2).
  rewrite H2. eexists. split; [reflexivity|]. simpl.
  split_and!; try done.
  - rewrite wrap_small by lia. lia.
  - unfold points, make_split_points.
    rewrite length_fmap, length_seq, wrap_small by lia. done.
  - intros c. rewrite Ht2, Ht1, class_total_zeros, label_count_zip.
    rewrite label_count_app. unfold label_count.
    destruct (decide (c = label)) as [->|Hne].
    + rewrite (filter_cons_True _ (value, label)) by done. simpl. lia.
    + rewrite (filter_cons_False _ (value, label))
        by (simpl; congruence).
      simpl. lia.
Qed.

(** X12: a split object built for [numClasses] classes, at least one bin
    and at least one observation before binning, trained on any stream of
    samples whose labels are below [numClasses], never stops on a bounds
    check.  Before the [observationsBeforeBinning]-th sample it only stores
    the samples, in the order of arrival, and the statistics stay zero; the
    fitness it reports is then 0.  From that sample on the statistics hold,
    for every class, exactly as many counts as the stream so far has
    samples of the class: the stored samples are all counted once when the
    bins are made, and each later one as it comes; the fitness reported is
    the fitness function's value on these statistics, the second-best
    fitness always 0, and [samplesSeen] stays at
    [observationsBeforeBinning] however many samples follow. *)
Theorem X12_statistics_count_every_sample
    {FF : FitnessFunction} (numClasses : nat) (nbins obb : Z) samples :
  (1 <= nbins < size_t_modulus)%Z ->
  (1 <= obb < size_t_modulus)%Z ->
  Forall (fun vl : double * nat => vl.2 < numClasses) samples ->
  exists s,
    train_all samples (new numClasses nbins obb) = Ok s /\
    samplesSeen s = Z.min (Z.of_nat (length samples)) obb /\
    ((Z.of_nat (length samples) < obb)%Z ->
     s = collecting numClasses nbins obb samples /\
     EvaluateFitnessFunction s = (zero, zero)) /\
    ((obb <= Z.of_nat (length samples))%Z ->
     (forall c, class_total c (sufficientStatistics s) =
                label_count c samples) /\
     stats_shaped numClasses (Z.to_nat nbins) (sufficientStatistics s) /\
     EvaluateFitnessFunction s =
     (fitness_Evaluate (sufficientStatistics s), zero)).
Proof.
  intros Hb Ho Hall.
  assert (Hnew : new numClasses nbins obb = collecting numClasses nbins obb [])
    by (unfold new, collecting; simpl; by rewrite Nat.sub_0_r).
  rewrite Hnew.
  destruct (decide (Z.of_nat (length samples) < obb)%Z) as [Hlt|Hge].
  - exists (collecting numClasses nbins obb samples).
    rewrite train_all_collecting by (simpl; lia). simpl.
    split_and!; try done; try lia.
    intros _. split; [done|].
    unfold EvaluateFitnessFunction. simpl.
    by rewrite (proj2 (Z.ltb_lt _ _) Hlt).
  - set (n := Z.to_nat (obb - 1)).
    destruct (lookup_lt_is_Some_2 samples n) as [[v l] Hvl]; [lia|].
    rewrite <- (take_drop_middle samples n (v, l) Hvl) in Hall |- *.
    apply Forall_app in Hall as [Hpre Hrest].
    apply Forall_cons in Hrest as [Hl Hpost]. simpl in Hl.
    assert (Hlen : length (take n samples) = n)
      by (rewrite length_take; lia).
    rewrite train_all_app.
    rewrite train_all_collecting by (simpl; lia). simpl.
    destruct (Train_binning numClasses nbins obb (take n samples) v l
                Hb Ho ltac:(lia) Hpre Hl)
      as (s1 & H1 & Hbins & Hobb & Hseen & Hsp & Hm1 & Ht1).
    rewrite H1.
    destruct (train_all_binned numClasses (drop (S n) samples) s1)
      as (m & H2 & Hshape & Ht2);
      [lia|lia|lia|by rewrite Hbins|done|].
    rewrite Hbins in Hshape.
    exists (set_statistics m s1). rewrite H2. simpl.
    rewrite length_app, length_cons, Hlen.
    split_and!; try done.
    + lia.
    + intros ?. lia.
    + intros _. split_and!; try done.
      * intros c. rewrite Ht2, Ht1.
        rewrite !label_count_app.
        change ((v, l) :: drop (S n) samples)
          with ([(v, l)] ++ drop (S n) samples).
        rewrite label_count_app. lia.
      * unfold EvaluateFitnessFunction. simpl.
        by rewrite (proj2 (Z.ltb_ge _ _)) by lia.
Qed.

(** X13: the bin a value is counted in.  With at least one bin it is
    below the number of bins; it is the index of the first split point,
    among the first [bins - 1], that the value does not exceed, and the
    number of those split points if the value exceeds them all: a value
    equal to a split point goes to the bin below it, and a NaN, which
    exceeds nothing, to bin 0. *)
Theorem X13_bin_of_a_value (nbins : Z) splitPoints value :
  let ahead := take (Z.to_nat (wrap (nbins - 1))) splitPoints in
  let b := find_bin nbins splitPoints value in
  b <= length ahead /\
  (forall j s, j < b -> ahead !! j = Some s -> gt value s = true) /\
  (forall s, ahead !! b = Some s -> gt value s = false) /\
  ((1 <= nbins < size_t_modulus)%Z -> b < Z.to_nat nbins) /\
  (value = nan -> b = 0).
Proof.
  cbv zeta. unfold find_bin.
  destruct (scan_bins_spec value
              (take (Z.to_nat (wrap (nbins - 1))) splitPoints) 0)
    as ([_ H1] & H2 & H3).
  rewrite Nat.sub_0_r in H2, H3.
  split_and!.
  - lia.
  - exact H2.
  - exact H3.
  - intros Hb. rewrite length_take in H1.
    rewrite (wrap_small (nbins - 1)) in * by lia. lia.
  - intros ->. destruct (take _ _) as [|s ahead]; [done|].
    simpl. by destruct s.
Qed.

End HoeffdingFacts.

(* ================================================================== *)
(** ** The partitioner and the assignments of a whole call             *)
(* ================================================================== *)

Section WholeCall.

Context {MT PT ET LT : Type}.
Context `{!MetricType MT, !InitialPartitionPolicy PT,
          !EmptyClusterPolicy MT ET, !LloydStepType MT LT}.
Local Abbreviation frame := (frame MT PT ET).
Local Abbreviation locals := (locals LT).

Lemma tame_silent {A} d (m : M frame A) (s : frame) :
  tame (fun _ => False) d m -> out_trace (m s) = [].
Proof.
  intros Hm. destruct (Hm s) as (Ht & _).
  destruct (out_trace (m s)) as [|e t]; [done|].
  by apply Forall_cons in Ht as [[] _].
Qed.

Lemma partitioner_calls_app t1 t2 :
  partitioner_calls (t1 ++ t2) = partitioner_calls t1 + partitioner_calls t2.
Proof. unfold partitioner_calls. by rewrite filter_app, length_app. Qed.

Lemma partitioner_calls_none t :
  Forall (fun e => phase_of e <> Partitioning) t -> partitioner_calls t = 0.
Proof.
  unfold partitioner_calls. induction 1 as [|e t He _ IH]; [done|].
  rewrite filter_cons_False; [done|]. by destruct e.
Qed.

Lemma loop_then_close_partitioner_calls fuel data clusters (fr : frame) :
  partitioner_calls
    (out_trace (bind (convergence_loop (LT := LT) fuel data clusters)
                     after_loop fr)) = 0.
Proof.
  apply partitioner_calls_none.
  assert (Ht : tame (fun e => phase_of e <> Partitioning) true
                 (bind (convergence_loop (LT := LT) fuel data clusters)
                       after_loop : M frame unit)).
  { apply tame_bind.
    - eapply tame_weaken; [|done|apply tame_convergence_loop].
      unfold in_phase. congruence.
    - intros lv. eapply tame_weaken; [|done|apply (tame_after_loop true)].
      unfold in_phase. congruence. }
  by destruct (Ht fr).
Qed.

Lemma initial_centroids_trace data clusters (fr : frame) :
  out_trace (initial_centroids data clusters false fr) = [Call_partitioner].
Proof.
  unfold initial_centroids. cbn [negb when]. rewrite bind_trace.
  assert (Hget : out_trace (GetInitialAssignmentsOrCentroids data clusters []
                              fr) = [Call_partitioner]).
  { unfold GetInitialAssignmentsOrCentroids.
    cbv [bind get emit modify ret out_val out_state out_trace].
    destruct ipp_Cluster as [f|f]; by destruct (f _ _ _). }
  rewrite Hget.
  destruct (out_val _) as [[got asg]| |]; [|done|done].
  simpl. f_equal.
  apply (tame_silent false). apply tame_when.
  apply tame_centroids_from_assignments.
Qed.

(** The calls of the partitioner in the four-parameter overload. *)
Lemma Cluster_partitioner_calls fuel data clusters g (fr : frame) :
  let t := out_trace (Cluster (LT := LT) fuel data clusters g fr) in
  if g then partitioner_calls t = 0
  else exists after,
      t = expected_warnings data clusters ++ Call_partitioner :: after /\
      partitioner_calls after = 0.
Proof.
  cbv zeta.
  assert (Hw : partitioner_calls (expected_warnings data clusters) = 0).
  { apply partitioner_calls_none.
    pose proof (configuration_events data clusters false (centroids fr)) as Hc.
    rewrite app_nil_r in Hc. eapply Forall_impl; [exact Hc|].
    unfold in_phase. congruence. }
  destruct g.
  - destruct (centroid_guess_mismatch data clusters (centroids fr)) eqn:Hg.
    + rewrite Cluster_rejected by done. simpl.
      rewrite partitioner_calls_app, Hw.
      apply partitioner_calls_none.
      unfold guess_complaints.
      destruct (negb _); [by repeat constructor|].
      destruct (negb _); by repeat constructor.
    + rewrite Cluster_accepted by done. cbv zeta. simpl.
      rewrite partitioner_calls_app, Hw. simpl.
      apply loop_then_close_partitioner_calls.
  - rewrite Cluster_accepted by done. cbv zeta. simpl.
    rewrite bind_trace, initial_centroids_trace.
    eexists. split; [reflexivity|].
    destruct (out_val _) as [[]| |]; [|done|done].
    apply loop_then_close_partitioner_calls.
Qed.

(** X14: the partitioner is consulted exactly once by a call that is
    given no initial guess, right after the warnings of the configuration
    checks and before anything else, and not at all by a call with an
    assignment guess or a centroid guess; this holds however the call
    ends. *)
Theorem X14_partitioner_called_once_without_guess
    DEBUG fuel data clusters
    initialAssignmentGuess initialCentroidGuess (fr : frame) :
  let o := Cluster_assignments (LT := LT) DEBUG fuel data clusters
             initialAssignmentGuess initialCentroidGuess fr in
  partitioner_calls (out_trace o) =
  (if initialAssignmentGuess || initialCentroidGuess then 0 else 1) /\
  (initialAssignmentGuess || initialCentroidGuess = false ->
   exists after,
     out_trace o =
     expected_warnings data clusters ++ Call_partitioner :: after /\
     partitioner_calls after = 0).
Proof.
  cbv zeta. unfold Cluster_assignments.
  assert (Hfinal : forall s : frame,
             out_trace (final_assignments DEBUG data s) = []).
  { intros s. apply (tame_silent false), tame_final_assignments. }
  destruct initialAssignmentGuess; cbn [when orb].
  - split; [|done].
    rewrite bind_trace, assignment_guess_prologue.
    destruct (length (assignments fr) =? n_cols data); [|done].
    rewrite (tame_silent false _ fr
               (tame_centroids_from_assignments _ false data clusters
                  (assignments fr))).
    destruct (out_val _) as [[]| |]; [|done|done].
    simpl. rewrite bind_trace, partitioner_calls_app.
    pose proof (Cluster_partitioner_calls fuel data clusters true
                  (out_state (centroids_from_assignments data clusters
                                (assignments fr) fr))) as Hc.
    simpl in Hc. rewrite Hc.
    destruct (out_val _) as [[]| |]; [|done|done].
    by rewrite Hfinal.
  - rewrite (bind_silent (ret tt) _ fr fr tt eq_refl).
    rewrite bind_trace.
    pose proof (Cluster_partitioner_calls fuel data clusters
                  initialCentroidGuess fr) as Hc.
    destruct initialCentroidGuess; simpl in Hc.
    + split; [|done]. rewrite partitioner_calls_app, Hc.
      destruct (out_val _) as [[]| |]; [|done|done].
      by rewrite Hfinal.
    + destruct Hc as (after & Ht & Hn).
      assert (Hend : match out_val (Cluster (LT := LT) fuel data clusters
                                      false fr) with
                     | Ok a => out_trace (final_assignments DEBUG data
                                 (out_state (Cluster (LT := LT) fuel data
                                               clusters false fr)))
                     | _ => []
                     end = []).
      { destruct (out_val _) as [[]| |]; [|done|done]. apply Hfinal. }
      rewrite Hend, app_nil_r, Ht.
      assert (Hw : partitioner_calls (expected_warnings data clusters) = 0).
      { unfold expected_warnings.
        by destruct (n_cols data <? clusters), (clusters =? 0). }
      split.
      * rewrite partitioner_calls_app, Hw.
        change (Call_partitioner :: after)
          with ([Call_partitioner] ++ after).
        rewrite partitioner_calls_app, Hn. reflexivity.
      * intros _. by exists after.
Qed.

(** X15: when the six-parameter overload returns, the assignments it
    hands back are those of the centroids it hands back: one entry per
    point, the index the scan of the final pass finds for the point among
    the returned centroids under the metric of the object, whatever the
    assignment row held at the start and whichever guesses were flagged.
    In a debug build each of these indices names a returned centroid. *)
Theorem X15_assignments_fit_returned_centroids
    DEBUG fuel data clusters
    initialAssignmentGuess initialCentroidGuess (fr : frame) :
  let o := Cluster_assignments (LT := LT) DEBUG fuel data clusters
             initialAssignmentGuess initialCentroidGuess fr in
  out_val o = Ok tt ->
  let found := nearest_centroid (metric (this (out_state o)))
                 (columns (centroids (out_state o))) in
  assignments (out_state o) = found <$> columns data /\
  length (assignments (out_state o)) = n_cols data /\
  (DEBUG = true ->
   Forall (fun a => a < n_cols (centroids (out_state o)))
          (assignments (out_state o))).
Proof.
  cbv zeta. unfold Cluster_assignments. intros Hok.
  destruct (bind _ _ fr) as [t s r] eqn:Hrun. simpl in *. subst r.
  apply bind_returns in Hrun as (t1 & fr1 & [] & t' & _ & Hrest & _).
  apply bind_returns in Hrest as (t2 & fr2 & [] & t3 & _ & Hfin & _).
  apply final_assignments_returns in Hfin as (_ & -> & Hvalid).
  simpl. split_and!.
  - done.
  - by rewrite length_fmap.
  - intros HD. apply Forall_fmap, Forall_lookup.
    intros i p Hp. simpl. eapply Hvalid; eauto.
Qed.

End WholeCall.

(* ================================================================== *)
(** ** The policies of the concrete runs honour the contracts          *)
(* ================================================================== *)

Section PolicyContracts.

Import Policies.

Context {MT : Type} `{!MetricType MT}.

Lemma accumulate_lengths (m : MT) cs : forall points sums counts,
  length (accumulate m cs points sums counts).1 = length sums /\
  length (accumulate m cs points sums counts).2 = length counts.
Proof.
  induction points as [|p points IH]; intros sums counts; simpl; [done|].
  destruct (IH (alter (fun c => vec_add c p) (nearest m p cs) sums)
               (alter S (nearest m p cs) counts)) as [H1 H2].
  by rewrite H1, H2, !length_alter.
Qed.

Lemma NaiveKMeans_keeps_shape : Iterate_keeps_shape (LT := NaiveKMeans MT).
Proof.
  intros ls c new counts. unfold same_shape. simpl.
  unfold naive_Iterate.
  pose proof (accumulate_lengths (naive_metric ls) (columns c)
                (columns (naive_dataset ls))
                (columns (zeros (n_rows c) (n_cols c)))
                (replicate (n_cols c) 0)) as [H1 H2].
  destruct (accumulate _ _ _ _ _) as [sums counts']. simpl in *.
  rewrite length_replicate in H1. rewrite length_replicate in H2.
  unfold n_cols at 1. simpl. unfold normalize.
  rewrite length_zip_with. split; [lia|done].
Qed.

Lemma AllowEmptyClusters_keeps_shape :
  EmptyCluster_keeps_shape (MT := MT) (ET := unit).
Proof. by intros e data i old new counts m it. Qed.

Lemma AllowEmptyClusters_keeps_counts :
  EmptyCluster_keeps_counts (MT := MT) (ET := unit).
Proof. by intros e data i old new counts m it. Qed.

End PolicyContracts.

(* ================================================================== *)
(** ** Further concrete runs                                           *)
(* ================================================================== *)

Module MoreRuns.

Import Policies.

Lemma X3_witness :
  let fr := mkFrame (engine 5) [0; 0; 1; 2] empty_mat in
  let o := Cluster_assignments (LT := NaiveKMeans unit) false 10 four 2
             true false fr in
  length (assignments fr) = n_cols four /\
  assignments fr !! 3 = Some 2 /\
  2 <= 2 /\
  out_val o = Throw OutOfBounds /\
  out_trace o = [] /\
  has_shape four 2 (out_state o) /\
  assignments (out_state o) = assignments fr /\
  this (out_state o) = this fr /\
  exists i0 a0,
    i0 <= 3 /\ assignments fr !! i0 = Some a0 /\ 2 <= a0 /\
    (forall j b, j < i0 -> assignments fr !! j = Some b -> b < 2) /\
    forall j, j < 2 ->
      columns (centroids (out_state o)) !! j =
      Some (foldl vec_add (replicate (n_rows four) zero)
              (cluster_members four (take i0 (assignments fr)) j)).
Proof.
  cbv zeta.
  refine ((fun H1 H2 H3 =>
             conj H1 (conj H2 (conj H3
               (X3_guess_naming_missing_cluster
                  (LT := NaiveKMeans unit) false 10 four 2 false
                  (mkFrame (engine 5) [0; 0; 1; 2] empty_mat) 3 2
                  H1 H2 H3)))) _ _ _).
  - reflexivity.
  - reflexivity.
  - lia.
Defined.

(** The same call leaves the sums of the first three points in the
    centroid matrix: 0 + 1 for the first cluster and 2 for the second,
    neither divided by its count. *)
Lemma stray_guess_leaves_partial_sums :
  let fr := mkFrame (engine 5) [0; 0; 1; 2] empty_mat in
  let o := Cluster_assignments (LT := NaiveKMeans unit) false 10 four 2
             true false fr in
  centroids fr = empty_mat /\
  out_val o = Throw OutOfBounds /\
  centroids (out_state o) = points_1d [1; 2]%Z.
Proof. cbv zeta. split_and!; vm_compute; reflexivity. Qed.


Lemma X5_witness :
  let o := Cluster (LT := NaiveKMeans unit) 10 line 2 true (line_start 2) in
  (true = true \/ partitioner_gives_shape (PT := unit) line 2) /\
  out_val o = Ok tt /\
  has_shape line 2 (out_state o).
Proof.
  cbv zeta.
  refine ((fun H1 H2 =>
             conj H1 (conj H2
               (X5_returned_centroids_have_shape
                  (LT := NaiveKMeans unit) 10 line 2 true (line_start 2)
                  NaiveKMeans_keeps_shape AllowEmptyClusters_keeps_shape
                  H1 H2))) _ _).
  - left. reflexivity.
  - vm_compute. reflexivity.
Defined.

Lemma X6_witness :
  let fr := mkFrame (engine 5) [] (points_1d [0; 100]%Z) in
  let lv := mkLocals (replicate 2 0) 0%Z
              (LloydStep_new (LT := NaiveKMeans unit) line tt) empty_mat in
  let step := Iterate (lloydStep lv) (current_centroids lv fr)
                (written_centroids (iteration lv) lv fr) (counts lv) in
  2 <= length step.1.2 /\
  out_trace (loop_body line 2 lv fr) =
  Call_Iterate Other ::
  empty_cluster_events Other
    (filter (fun i => step.1.2 !! i = Some 0) (seq 0 2)) ++
  [Info_iteration (wrap (0 + 1)) step.2].
Proof.
  cbv zeta.
  refine ((fun H =>
             conj H
               (proj2 (X6_pass_reports_each_empty_cluster
                         (LT := NaiveKMeans unit) line 2
                         (mkLocals (replicate 2 0) 0%Z
                            (LloydStep_new (LT := NaiveKMeans unit) line tt)
                            empty_mat)
                         (mkFrame (engine 5) [] (points_1d [0; 100]%Z))
                         AllowEmptyClusters_keeps_counts H))) _).
  vm_compute. lia.
Defined.

Lemma X7_witness :
  let args := [(empty_mat, empty_mat)] in
  let p := MaxIterationTermination.after_calls args
             (MaxIterationTermination.new 3).2 in
  (0 <= 3 < size_t_modulus)%Z /\
  (Z.of_nat (length args) + 1 < size_t_modulus)%Z /\
  (MaxIterationTermination.IsConverged empty_mat empty_mat p).2 =
  (3 <=? Z.of_nat (length args) + 1)%Z.
Proof.
  cbv zeta.
  refine ((fun H1 H2 =>
             conj H1 (conj H2
               (proj1 (X7_answer_of_call_number 3
                         [(empty_mat, empty_mat)] empty_mat empty_mat
                         H1 H2)))) _ _).
  - unfold size_t_modulus. lia.
  - reflexivity.
Defined.

Lemma X8_witness :
  let p := MaxIterationTermination.mk 3 1 in
  let r := MaxIterationTermination.IsConverged empty_mat empty_mat p in
  MaxIterationTermination.in_range p /\
  (MaxIterationTermination.iteration p + 1 < size_t_modulus)%Z /\
  (0 <= MaxIterationTermination.Index p
   <= MaxIterationTermination.maxIterations p)%Z.
Proof.
  cbv zeta.
  refine ((fun H1 H2 =>
             conj H1 (conj H2
               (proj1 (X8_index_is_iterations_left
                         (MaxIterationTermination.mk 3 1)
                         empty_mat empty_mat H1 H2)))) _ _).
  - unfold MaxIterationTermination.in_range, size_t_modulus. simpl. lia.
  - reflexivity.
Defined.

Lemma X9_witness :
  let c := CompleteIncrementalTermination.mk
             (MaxIterationTermination.mk 5 0) 2 0 in
  let inner := tp_IsConverged empty_mat empty_mat
                 (CompleteIncrementalTermination.tPolicy c) in
  (0 <= CompleteIncrementalTermination.iteration c)%Z /\
  (CompleteIncrementalTermination.iteration c mod 2 = 0)%Z /\
  Z.of_nat (length [(empty_mat, empty_mat)]) = (2 - 1)%Z /\
  (CompleteIncrementalTermination.iteration c + 2 < size_t_modulus)%Z /\
  CompleteIncrementalTermination.calls
    ([(empty_mat, empty_mat)] ++ [(empty_mat, empty_mat)]) c =
  Some (CompleteIncrementalTermination.mk inner.1 2 (0 + 2),
        replicate 1 false ++ [inner.2]).
Proof.
  cbv zeta.
  refine ((fun H1 H2 H3 H4 =>
             conj H1 (conj H2 (conj H3 (conj H4
               (proj1 (X9_one_pass_consults_once
                         (CompleteIncrementalTermination.mk
                            (MaxIterationTermination.mk 5 0) 2 0)
                         [(empty_mat, empty_mat)] empty_mat empty_mat
                         H1 H2 H3 H4)))))) _ _ _ _).
  - discriminate.
  - reflexivity.
  - reflexivity.
  - reflexivity.
Defined.

Lemma X11_witness :
  let V := points_1d [1; 2]%Z in
  let args := replicate 3 (empty_mat, empty_mat) in
  (1 <= CompleteIncrementalTermination.count_nonzero V)%Z /\
  (1 <= 2)%Z /\
  (CompleteIncrementalTermination.count_nonzero V * 2 < size_t_modulus)%Z /\
  Z.of_nat (length args) =
  (CompleteIncrementalTermination.count_nonzero V * 2 - 1)%Z /\
  CompleteIncrementalTermination.calls (args ++ [(empty_mat, empty_mat)])
    (CompleteIncrementalTermination.Initialize V
       (CompleteIncrementalTermination.mk
          (MaxIterationTermination.new 2).2 7 9)) =
  Some (CompleteIncrementalTermination.mk
          (MaxIterationTermination.mk 2 2)
          (CompleteIncrementalTermination.count_nonzero V)
          (CompleteIncrementalTermination.count_nonzero V * 2),
        replicate (length args) false ++ [true]).
Proof.
  cbv zeta.
  refine ((fun H1 H2 H3 H4 =>
             conj H1 (conj H2 (conj H3 (conj H4
               (X11_limit_counts_passes (points_1d [1; 2]%Z) 2
                  (replicate 3 (empty_mat, empty_mat))
                  empty_mat empty_mat 7 9 H1 H2 H3 H4))))) _ _ _ _).
  - vm_compute. discriminate.
  - lia.
  - vm_compute. reflexivity.
  - vm_compute. reflexivity.
Defined.

Lemma X12_witness :
  let samples := [(of_Z 0, 0); (of_Z 1, 1); (of_Z 2, 0); (of_Z 3, 1)] in
  (1 <= 2 < size_t_modulus)%Z /\
  (1 <= 3 < size_t_modulus)%Z /\
  Forall (fun vl : double * nat => vl.2 < 2) samples /\
  exists s,
    HoeffdingNumericSplit.train_all samples
      (HoeffdingNumericSplit.new 2 2 3) = Ok s /\
    HoeffdingNumericSplit.samplesSeen s =
    Z.min (Z.of_nat (length samples)) 3.
Proof.
  cbv zeta.
  refine ((fun H1 H2 H3 =>
             conj H1 (conj H2 (conj H3
               match X12_statistics_count_every_sample
                       (FF := fun _ => zero)
                       2 2 3
                       [(of_Z 0, 0); (of_Z 1, 1); (of_Z 2, 0); (of_Z 3, 1)]
                       H1 H2 H3 with
               | ex_intro _ s (conj Ha (conj Hb _)) =>
                   ex_intro _ s (conj Ha Hb)
               end))) _ _ _).
  - split; [lia|reflexivity].
  - split; [lia|reflexivity].
  - repeat constructor.
Defined.

Lemma X15_witness :
  let o := Cluster_assignments (LT := NaiveKMeans unit) false 10 four 2
             true true four_both_guesses in
  out_val o = Ok tt /\
  assignments (out_state o) =
  (nearest_centroid (metric (this (out_state o)))
     (columns (centroids (out_state o))) <$> columns four).
Proof.
  cbv zeta.
  refine ((fun H => conj H
             (proj1 (X15_assignments_fit_returned_centroids
                       (LT := NaiveKMeans unit) false 10 four 2 true true
                       four_both_guesses H))) _).
  vm_compute. reflexivity.
Defined.

End MoreRuns.

(* ================================================================== *)
(** ** The random Acol initialisation                                  *)
(* ================================================================== *)

Section RandomAcolFacts.

Import RandomAcolInitialization.

Variable columnsToAverage : nat.
Variable rand : nat -> nat.
Variable uniform : nat -> nat -> double.

Lemma sum_picks_cases (V : mat) : forall randCol w k,
  (exists w',
      sum_picks rand V randCol w k = Ok (w', k + randCol) /\
      forall j, j < randCol -> rand (k + j) < n_cols V) \/
  (sum_picks rand V randCol w k = Throw OutOfBounds /\
   exists j, j < randCol /\ n_cols V <= rand (k + j)).
Proof.
  induction randCol as [|randCol IH]; intros w k; simpl.
  - left. exists w. rewrite Nat.add_0_r. split; [done|]. intros j Hj. lia.
  - destruct (columns V !! rand k) as [v|] eqn:E.
    + apply lookup_lt_Some in E.
      destruct (IH (vec_add w v) (S k)) as [(w' & H1 & H2)|(H1 & j & Hj & H2)].
      * left. exists w'. split.
        -- rewrite H1. do 2 f_equal. lia.
        -- intros [|j] Hj; [by rewrite Nat.add_0_r|].
           replace (k + S j) with (S k + j) by lia. apply H2. lia.
      * right. split; [done|]. exists (S j). split; [lia|].
        by replace (k + S j) with (S k + j) by lia.
    + apply lookup_ge_None in E. right. split; [done|].
      exists 0. rewrite Nat.add_0_r. split; [lia|done].
Qed.

Lemma fill_columns_cases (V : mat) : forall remaining col W k,
  col + remaining <= length W ->
  (exists W',
      fill_columns columnsToAverage rand V col remaining W k =
      Ok (W', k + remaining * columnsToAverage) /\
      length W' = length W /\
      forall j, j < remaining * columnsToAverage -> rand (k + j) < n_cols V) \/
  (fill_columns columnsToAverage rand V col remaining W k =
   Throw OutOfBounds /\
   exists j, j < remaining * columnsToAverage /\ n_cols V <= rand (k + j)).
Proof.
  induction remaining as [|remaining IH]; intros col W k Hlen; simpl.
  - left. exists W. rewrite Nat.add_0_r. split_and!; try done.
    intros j Hj. lia.
  - destruct (lookup_lt_is_Some_2 W col) as [w Hw]; [lia|]. rewrite Hw.
    destruct (sum_picks_cases V columnsToAverage w k)
      as [(w' & H1 & H2)|(H1 & j & Hj & H2)].
    + rewrite H1.
      destruct (IH (S col) (<[col := w']> W) (k + columnsToAverage))
        as [(W' & H3 & H4 & H5)|(H3 & j & Hj & H5)];
        [rewrite length_insert; lia| |].
      * left. exists W'. rewrite H3, H4, length_insert. split_and!.
        -- do 2 f_equal. lia.
        -- done.
        -- intros j Hj.
           destruct (decide (j < columnsToAverage)) as [Hlt|Hge];
             [by apply H2|].
           replace (k + j)
             with (k + columnsToAverage + (j - columnsToAverage)) by lia.
           apply H5. lia.
      * right. rewrite H3. split; [done|].
        exists (columnsToAverage + j). split; [lia|].
        by replace (k + (columnsToAverage + j))
          with (k + columnsToAverage + j) by lia.
    + right. rewrite H1. split; [done|]. exists j. split; [lia|done].
Qed.

Lemma fill_columns_nothing_to_add (V : mat) :
  columnsToAverage = 0 ->
  forall remaining col W k,
    col + remaining <= length W ->
    fill_columns columnsToAverage rand V col remaining W k = Ok (W, k).
Proof.
  intros ->. induction remaining as [|remaining IH]; intros col W k Hlen;
    simpl; [done|].
  destruct (lookup_lt_is_Some_2 W col) as [w Hw]; [lia|]. rewrite Hw.
  rewrite list_insert_id by done. apply IH. lia.
Qed.

(** X16: [Initialize] logs its warning exactly when there are fewer
    columns in [V] than columns to average, and goes on in either case.  It
    returns exactly when each of the [r * columnsToAverage] random draws it
    makes is a column index of [V], and stops on the bounds check of
    [V.col] otherwise, as it always does for a [V] without columns when
    [r] and [columnsToAverage] are positive.  When it returns, [W] has the
    rows of [V] and [r] columns and [H] has [r] rows and the columns of
    [V]; with no column to average every entry of [W] is the NaN that the
    division of zero by zero gives. *)
Theorem X16_random_acol_initialisation (V : mat) (r : nat) :
  let out := Initialize columnsToAverage rand uniform V r in
  (out.1 = [Warn_more_columns_than_available] <->
   n_cols V < columnsToAverage) /\
  ((exists WH, out.2 = Ok WH) <->
   forall k, k < r * columnsToAverage -> rand k < n_cols V) /\
  (out.2 = Throw OutOfBounds <->
   exists k, k < r * columnsToAverage /\ n_cols V <= rand k) /\
  (forall W H, out.2 = Ok (W, H) ->
     n_rows W = n_rows V /\ n_cols W = r /\
     n_rows H = r /\ n_cols H = n_cols V) /\
  (columnsToAverage = 0 ->
   exists H, out.2 =
             Ok (Mat (n_rows V) (replicate r (replicate (n_rows V) nan)), H)) /\
  (n_cols V = 0 -> 0 < r -> 0 < columnsToAverage ->
   out.2 = Throw OutOfBounds).
Proof.
  cbv zeta. unfold Initialize. cbv zeta. cbn [fst snd].
  assert (Hlen : 0 + r <= length (columns (zeros (n_rows V) r)))
    by (simpl; rewrite length_replicate; lia).
  split; [|split; [|split; [|split; [|split]]]].
  - destruct (n_cols V <? columnsToAverage) eqn:E.
    + apply Nat.ltb_lt in E. done.
    + apply Nat.ltb_ge in E. split; [done|lia].
  - destruct (fill_columns_cases V r 0 _ 0 Hlen)
      as [(W' & H1 & H2 & H3)|(H1 & j & Hj & H2)]; rewrite H1.
    + split; [intros _; exact H3|eauto].
    + split; [by intros [? ?]|].
      intros Hall. specialize (Hall j Hj). simpl in H2. lia.
  - destruct (fill_columns_cases V r 0 _ 0 Hlen)
      as [(W' & H1 & H2 & H3)|(H1 & j & Hj & H2)]; rewrite H1.
    + split; [done|]. intros (k & Hk & Hbad).
      specialize (H3 k Hk). simpl in H3. lia.
    + split; [|done]. intros _. by exists j.
  - intros W H.
    destruct (fill_columns_cases V r 0 _ 0 Hlen)
      as [(W' & H1 & H2 & H3)|(H1 & j & Hj & H2)]; rewrite H1; [|done].
    intros [= <- <-]. unfold n_cols. simpl in *.
    rewrite !length_fmap, H2, length_replicate, length_seq. done.
  - intros H0.
    rewrite (fill_columns_nothing_to_add V H0 r 0 _ 0 Hlen).
    eexists. f_equal. f_equal. f_equal. subst columnsToAverage.
    unfold zeros. cbn [columns].
    rewrite fmap_replicate. f_equal.
    unfold vec_div. rewrite fmap_replicate. reflexivity.
  - intros Hm Hr Hc.
    destruct (fill_columns_cases V r 0 _ 0 Hlen)
      as [(W' & H1 & H2 & H3)|(H1 & j & Hj & H2)]; rewrite H1; [|done].
    specialize (H3 0 ltac:(nia)). lia.
Qed.

End RandomAcolFacts.

(* ================================================================== *)
(** ** The passes of the loop, one by one                              *)
(* ================================================================== *)

Section LastPass.

Context {MT PT ET LT : Type}.
Context `{!MetricType MT, !InitialPartitionPolicy PT,
          !EmptyClusterPolicy MT ET, !LloydStepType MT LT}.
Local Abbreviation frame := (frame MT PT ET).
Local Abbreviation locals := (locals LT).

(** What the call of [Iterate] leaves: the step object, the counts and
    the residual as [Iterate] returns them, its new centroids in the buffer
    that the iteration writes, and the buffer it reads as it was. *)
Lemma lloyd_iterate_exact (lv : locals) (fr : frame) :
  let step := Iterate (lloydStep lv) (current_centroids lv fr)
                (written_centroids (iteration lv) lv fr) (counts lv) in
  exists fr1 lv1,
    lloyd_iterate lv fr =
    Outcome [Call_Iterate (target_of (iteration lv))] fr1
            (Ok (lv1, step.2)) /\
    iteration lv1 = iteration lv /\
    counts lv1 = step.1.2 /\
    lloydStep lv1 = step.1.1.1 /\
    written_centroids (iteration lv) lv1 fr1 = step.1.1.2 /\
    current_centroids lv1 fr1 = current_centroids lv fr /\
    this fr1 = this fr.
Proof.
  unfold lloyd_iterate, target_of, current_centroids, written_centroids.
  cbv [bind get emit modify ret out_val out_state out_trace].
  destruct (iteration lv mod 2 =? 0)%Z eqn:E;
    destruct (Iterate _ _ _ _) as [[[ls new] cnt] r]; simpl;
    do 2 eexists; (split; [reflexivity|]); simpl; rewrite E;
    split_and!; reflexivity.
Qed.

(** The pass over the clusters does what [empty_cluster_repairs] says. *)
Lemma pass_is_repairs data : forall n start (lv : locals) (fr : frame),
  match empty_cluster_repairs data (metric (this fr)) (iteration lv)
          (current_centroids lv fr) (seq start n)
          (emptyClusterAction (this fr))
          (written_centroids (iteration lv) lv fr) (counts lv) with
  | Some (e', new', cnt', evs) =>
      exists fr' lv',
        for_loop start n (empty_cluster_check data) lv fr =
        Outcome evs fr' (Ok lv') /\
        iteration lv' = iteration lv /\
        written_centroids (iteration lv) lv' fr' = new' /\
        current_centroids lv' fr' = current_centroids lv fr /\
        counts lv' = cnt' /\
        lloydStep lv' = lloydStep lv /\
        emptyClusterAction (this fr') = e' /\
        metric (this fr') = metric (this fr) /\
        maxIterations (this fr') = maxIterations (this fr)
  | None =>
      exists evs fr',
        for_loop start n (empty_cluster_check data) lv fr =
        Outcome evs fr' (Throw OutOfBounds)
  end.
Proof.
  induction n as [|n IH]; intros start lv fr.
  - simpl. exists fr, lv. split_and!; reflexivity.
  - cbn [seq empty_cluster_repairs for_loop].
    destruct (counts lv !! start) as [[|c]|] eqn:Ec.
    + unfold current_centroids, written_centroids, target_of in *.
      destruct (iteration lv mod 2 =? 0)%Z eqn:E.
      * destruct (EmptyCluster (emptyClusterAction (this fr)) data start
                    (centroids fr) (centroidsOther lv) (counts lv)
                    (metric (this fr)) (iteration lv))
          as [[e1 new1] cnt1] eqn:EC.
        assert (Hcheck : empty_cluster_check data start lv fr =
                  Outcome [Info_cluster_empty start;
                           Call_EmptyCluster start Other]
                    (set_emptyClusterAction e1 fr)
                    (Ok (mkLocals cnt1 (iteration lv) (lloydStep lv) new1))).
        { unfold empty_cluster_check. rewrite Ec.
          cbv [bind get emit modify ret out_val out_state out_trace].
          rewrite E, EC. reflexivity. }
        rewrite (bind_Ok _ _ _ _ _ _ Hcheck).
        specialize (IH (S start)
                      (mkLocals cnt1 (iteration lv) (lloydStep lv) new1)
                      (set_emptyClusterAction e1 fr)).
        simpl in IH. rewrite E in IH.
        destruct (empty_cluster_repairs _ _ _ _ _ _ _ _)
          as [[[[e2 new2] cnt2] evs]|].
        -- destruct IH as (fr' & lv' & Hrun & H1 & H2 & H3 & H4 & H5 & H6
                           & H7 & H8).
           exists fr', lv'. rewrite Hrun. split_and!; done.
        -- destruct IH as (evs & fr' & Hrun).
           do 2 eexists. rewrite Hrun. simpl. reflexivity.
      * destruct (EmptyCluster (emptyClusterAction (this fr)) data start
                    (centroidsOther lv) (centroids fr) (counts lv)
                    (metric (this fr)) (iteration lv))
          as [[e1 new1] cnt1] eqn:EC.
        assert (Hcheck : empty_cluster_check data start lv fr =
                  Outcome [Info_cluster_empty start;
                           Call_EmptyCluster start Primary]
                    (set_centroids new1 (set_emptyClusterAction e1 fr))
                    (Ok (mkLocals cnt1 (iteration lv) (lloydStep lv)
                                  (centroidsOther lv)))).
        { unfold empty_cluster_check. rewrite Ec.
          cbv [bind get emit modify ret out_val out_state out_trace].
          rewrite E, EC. reflexivity. }
        rewrite (bind_Ok _ _ _ _ _ _ Hcheck).
        specialize (IH (S start)
                      (mkLocals cnt1 (iteration lv) (lloydStep lv)
                                (centroidsOther lv))
                      (set_centroids new1 (set_emptyClusterAction e1 fr))).
        simpl in IH. rewrite E in IH.
        destruct (empty_cluster_repairs _ _ _ _ _ _ _ _)
          as [[[[e2 new2] cnt2] evs]|].
        -- destruct IH as (fr' & lv' & Hrun & H1 & H2 & H3 & H4 & H5 & H6
                           & H7 & H8).
           exists fr', lv'. rewrite Hrun. split_and!; done.
        -- destruct IH as (evs & fr' & Hrun).
           do 2 eexists. rewrite Hrun. simpl. reflexivity.
    + assert (Hcheck : empty_cluster_check data start lv fr =
                       Outcome [] fr (Ok lv))
        by (unfold empty_cluster_check; by rewrite Ec).
      rewrite (bind_silent _ _ _ _ _ Hcheck).
      specialize (IH (S start) lv fr).
      destruct (empty_cluster_repairs _ _ _ _ _ _ _ _)
        as [[[[e2 new2] cnt2] evs]|]; exact IH.
    + assert (Hcheck : empty_cluster_check data start lv fr =
                       Outcome [] fr (Throw OutOfBounds))
        by (unfold empty_cluster_check; by rewrite Ec).
      exists [], fr. by rewrite (bind_Throw _ _ _ _ _ _ Hcheck).
Qed.

(** One pass of the loop, from the locals and the frame it starts with:
    [Iterate] on the buffer the parity chooses, the repairs of the empty
    clusters on what [Iterate] wrote, the message with the residual
    [Iterate] returned, and the loop condition on that residual.  The
    buffer the pass read is left as it was, and it is the one the next
    pass writes. *)
Lemma loop_body_anatomy data clusters (lv : locals) (fr : frame) :
  let it := iteration lv in
  let step := Iterate (lloydStep lv) (current_centroids lv fr)
                (written_centroids it lv fr) (counts lv) in
  match empty_cluster_repairs data (metric (this fr)) it
          (current_centroids lv fr) (seq 0 clusters)
          (emptyClusterAction (this fr)) step.1.1.2 step.1.2 with
  | Some (e', new', cnt', evs) =>
      exists fr' lv',
        loop_body data clusters lv fr =
        Outcome (Call_Iterate (target_of it) ::
                 evs ++ [Info_iteration (wrap (it + 1)) step.2]) fr'
                (Ok (lv', loop_condition (clamp_residual step.2)
                            (wrap (it + 1)) (maxIterations (this fr)))) /\
        iteration lv' = wrap (it + 1) /\
        current_centroids lv' fr' = new' /\
        written_centroids (iteration lv') lv' fr' = current_centroids lv fr /\
        counts lv' = cnt' /\
        lloydStep lv' = step.1.1.1 /\
        emptyClusterAction (this fr') = e' /\
        metric (this fr') = metric (this fr) /\
        maxIterations (this fr') = maxIterations (this fr)
  | None =>
      exists evs fr',
        loop_body data clusters lv fr =
        Outcome (Call_Iterate (target_of it) :: evs) fr' (Throw OutOfBounds)
  end.
Proof.
  cbv zeta.
  destruct (lloyd_iterate_exact lv fr)
    as (fr1 & lv1 & Hit & Hi1 & Hc1 & Hs1 & Hw1 & Hr1 & Ht1).
  pose proof (pass_is_repairs data clusters 0 lv1 fr1) as Hpass.
  rewrite Hi1, Hw1, Hr1, Hc1, Ht1 in Hpass.
  unfold loop_body. rewrite (bind_Ok _ _ _ _ _ _ Hit). cbn beta iota zeta.
  destruct (empty_cluster_repairs _ _ _ _ _ _ _ _)
    as [[[[e2 new2] cnt2] evs]|].
  - destruct Hpass as (fr' & lv' & Hrun & H1 & H2 & H3 & H4 & H5 & H6
                       & H7 & H8).
    rewrite (bind_Ok _ _ _ _ _ _ Hrun).
    cbv [bind get emit modify ret out_val out_state out_trace].
    rewrite H1, H8.
    eexists fr', _. split; [simpl; reflexivity|].
    unfold current_centroids, written_centroids in *. simpl.
    rewrite parity_succ. rewrite H1 in H3.
    destruct (iteration lv mod 2 =? 0)%Z; simpl;
      rewrite ?H5, ?Hs1, ?H7, ?Ht1; split_and!; done.
  - destruct Hpass as (evs & fr' & Hrun).
    rewrite (bind_Throw _ _ _ _ _ _ Hrun). simpl. by exists evs, fr'.
Qed.

(** A pass that returns, read backwards. *)
Lemma loop_body_returns data clusters (lv : locals) (fr : frame) t fr' lv' c :
  loop_body data clusters lv fr = Outcome t fr' (Ok (lv', c)) ->
  let step := Iterate (lloydStep lv) (current_centroids lv fr)
                (written_centroids (iteration lv) lv fr) (counts lv) in
  exists e' cnt' evs,
    empty_cluster_repairs data (metric (this fr)) (iteration lv)
      (current_centroids lv fr) (seq 0 clusters)
      (emptyClusterAction (this fr)) step.1.1.2 step.1.2 =
    Some (e', current_centroids lv' fr', cnt', evs) /\
    t = Call_Iterate (target_of (iteration lv)) ::
        evs ++ [Info_iteration (iteration lv') step.2] /\
    c = loop_condition (clamp_residual step.2) (iteration lv')
          (maxIterations (this fr')) /\
    iteration lv' = wrap (iteration lv + 1) /\
    written_centroids (iteration lv') lv' fr' = current_centroids lv fr /\
    counts lv' = cnt' /\
    lloydStep lv' = step.1.1.1 /\
    emptyClusterAction (this fr') = e' /\
    metric (this fr') = metric (this fr) /\
    maxIterations (this fr') = maxIterations (this fr).
Proof.
  intros Hb. cbv zeta.
  pose proof (loop_body_anatomy data clusters lv fr) as Ha. cbv zeta in Ha.
  destruct (empty_cluster_repairs _ _ _ _ _ _ _ _)
    as [[[[e2 new2] cnt2] evs]|].
  - destruct Ha as (fr2 & lv2 & Hrun & H1 & H2 & H3 & H4 & H5 & H6 & H7
                    & H8).
    rewrite Hb in Hrun. injection Hrun as -> <- <- ->.
    exists e2, cnt2, evs. rewrite H2, H8.
    split_and!; try done; by rewrite H1.
  - destruct Ha as (evs & fr2 & Hrun). rewrite Hb in Hrun. discriminate.
Qed.

(** A loop that returns went through passes whose condition held, and
    then through one whose condition did not. *)
Lemma do_while_last_pass data clusters :
  forall fuel (lv : locals) (fr : frame) t fr' lv',
    do_while fuel (loop_body data clusters) lv fr = Outcome t fr' (Ok lv') ->
    exists lv0 fr0 t0 t1,
      passes data clusters lv fr lv0 fr0 /\
      loop_body data clusters lv0 fr0 = Outcome t1 fr' (Ok (lv', false)) /\
      t = t0 ++ t1.
Proof.
  induction fuel as [|fuel IH]; intros lv fr t fr' lv'; simpl;
    [discriminate|].
  intros Hrun.
  apply bind_returns in Hrun as (t1 & s1 & [lv1 c] & t2 & Hb & Hk & ->).
  simpl in Hk. destruct c.
  - destruct (IH _ _ _ _ _ Hk) as (lv0 & fr0 & t0 & t1' & Hp & Hb' & ->).
    exists lv0, fr0, (t1 ++ t0), t1'.
    split; [by eapply passes_more|]. split; [done|by rewrite app_assoc].
  - injection Hk as <- <- <-. exists lv, fr, [], t1.
    split; [apply passes_none|]. split; [done|by rewrite app_nil_r].
Qed.

Lemma wrap_wrap z : wrap (wrap z) = wrap z.
Proof. unfold wrap. apply Z.mod_mod. unfold size_t_modulus. lia. Qed.

(** What the passes keep: a property of the step object that [Iterate]
    keeps, an iteration number within [size_t], the metric and the
    iteration limit. *)
Lemma passes_keep data clusters (I : LT -> Prop) :
  (forall ls c n k, I ls -> I (Iterate ls c n k).1.1.1) ->
  forall (lv : locals) (fr : frame) lv0 fr0,
    passes data clusters lv fr lv0 fr0 ->
    I (lloydStep lv) -> wrap (iteration lv) = iteration lv ->
    I (lloydStep lv0) /\ wrap (iteration lv0) = iteration lv0 /\
    metric (this fr0) = metric (this fr) /\
    maxIterations (this fr0) = maxIterations (this fr).
Proof.
  intros HI lv fr lv0 fr0 Hp.
  induction Hp as [lv fr|lv fr t lv1 fr1 lv2 fr2 Hb Hp IH]; [done|].
  intros Hs Hw.
  apply loop_body_returns in Hb
    as (e' & cnt' & evs & _ & _ & _ & Hit & _ & _ & Hls & _ & Hm & Hx).
  destruct IH as (IH1 & IH2 & IH3 & IH4).
  - rewrite Hls. by apply HI.
  - by rewrite Hit, wrap_wrap.
  - split_and!; [done|done|congruence|congruence].
Qed.

(** Without a count of zero the repairs change nothing. *)
Lemma repairs_without_empty_cluster data (m : MT) it old :
  forall js (e : ET) new cnt r,
    (forall i, i ∈ js -> cnt !! i <> Some 0) ->
    empty_cluster_repairs data m it old js e new cnt = Some r ->
    r = (e, new, cnt, []).
Proof.
  induction js as [|i js IH]; intros e new cnt r Hnz; simpl.
  - by intros [= <-].
  - destruct (cnt !! i) as [[|c]|] eqn:Hc; [|apply IH|done].
    + destruct (Hnz i); [left|done].
    + intros j Hj. apply Hnz. by right.
Qed.

(** With a policy that leaves the counts as they are, the repairs are the
    policy's calls for the clusters whose count is zero, each after the
    message that reports it. *)
Lemma repairs_events data (m : MT) it old :
  EmptyCluster_keeps_counts (ET := ET) ->
  forall js (e : ET) new cnt e2 new2 cnt2 evs,
    empty_cluster_repairs data m it old js e new cnt =
    Some (e2, new2, cnt2, evs) ->
    cnt2 = cnt /\
    evs = empty_cluster_events (target_of it)
            (filter (fun i => cnt !! i = Some 0) js).
Proof.
  intros HE. induction js as [|i js IH]; intros e new cnt e2 new2 cnt2 evs;
    simpl.
  - by intros [= <- <- <- <-].
  - destruct (cnt !! i) as [[|c]|] eqn:Hc; [| |done].
    + pose proof (HE e data i old new cnt m it) as Hk.
      destruct (EmptyCluster e data i old new cnt m it) as [[e1 new1] cnt1].
      simpl in Hk. subst cnt1.
      destruct (empty_cluster_repairs data m it old js e1 new1 cnt)
        as [[[[e3 new3] cnt3] evs3]|] eqn:Hr; [|done].
      intros [= <- <- <- <-].
      destruct (IH _ _ _ _ _ _ _ Hr) as (-> & ->).
      split; [done|]. by rewrite filter_cons_True.
    + intros Hr. destruct (IH _ _ _ _ _ _ _ Hr) as (-> & ->).
      split; [done|]. rewrite filter_cons_False; [done|].
      rewrite Hc. congruence.
Qed.

(** The matrix the closing statements leave is the one the next iteration
    would have read. *)
Lemma after_loop_current (lv : locals) (fr : frame) :
  centroids (out_state (after_loop lv fr)) = current_centroids lv fr.
Proof.
  rewrite after_loop_centroids. unfold target_of, current_centroids.
  rewrite parity_pred. by destruct (iteration lv mod 2 =? 0)%Z.
Qed.

End LastPass.


(* ================================================================== *)
(** ** What the returned matrix holds                                  *)
(* ================================================================== *)

Section ReturnedBuffer.

Context {MT PT ET LT : Type}.
Context `{!MetricType MT, !InitialPartitionPolicy PT,
          !EmptyClusterPolicy MT ET, !LloydStepType MT LT}.
Local Abbreviation frame := (frame MT PT ET).
Local Abbreviation locals := (locals LT).

(** C5: on loop exit the centroid matrix returned to the caller is the
    buffer the most recent iteration wrote.  When the loop returns with the
    locals [lv], its last pass started from some locals [lv0] and frame
    [fr0] reached by the earlier passes, and had the number
    [last_iteration], the iteration counter less one.  The matrix the
    closing statements leave in [centroids] is the matrix that the call of
    [Iterate] of that last pass wrote, after the repairs of the
    empty-cluster pass on it, and exactly what [Iterate] wrote when no
    cluster came out empty; the last [Iterate] call of the trace wrote the
    buffer of the parity of [last_iteration]: for an even number the
    alternate buffer, whose contents are taken over, and for an odd number
    the primary one, which is left as it is.  The other buffer holds what
    that last call read. *)
Theorem C5_returned_buffer_is_last_written
    fuel data clusters (fr fr1 : frame) (lv : locals) t :
  convergence_loop fuel data clusters fr = Outcome t fr1 (Ok lv) ->
  let last_iteration := wrap (iteration lv - 1) in
  let returned := centroids (out_state (after_loop lv fr1)) in
  (last_written t None = Some (target_of last_iteration) /\
   match target_of last_iteration with
   | Other =>
       (last_iteration mod 2 = 0)%Z /\ returned = centroidsOther lv
   | Primary =>
       (last_iteration mod 2 <> 0)%Z /\ returned = centroids fr1
   end) /\
  exists (lv0 : locals) (fr0 : frame) t0 t1,
    passes data clusters
      (mkLocals (replicate clusters 0) 0%Z
                (LloydStep_new data (metric (this fr))) empty_mat) fr
      lv0 fr0 /\
    loop_body data clusters lv0 fr0 = Outcome t1 fr1 (Ok (lv, false)) /\
    t = t0 ++ t1 /\
    iteration lv0 = last_iteration /\
    let step := Iterate (lloydStep lv0) (current_centroids lv0 fr0)
                  (written_centroids last_iteration lv0 fr0) (counts lv0) in
    (exists e' cnt' evs,
        empty_cluster_repairs data (metric (this fr0)) last_iteration
          (current_centroids lv0 fr0) (seq 0 clusters)
          (emptyClusterAction (this fr0)) step.1.1.2 step.1.2 =
        Some (e', returned, cnt', evs) /\
        t1 = Call_Iterate (target_of last_iteration) ::
             evs ++ [Info_iteration (iteration lv) step.2]) /\
    ((forall i, i < clusters -> step.1.2 !! i <> Some 0) ->
     returned = step.1.1.2) /\
    written_centroids (iteration lv) lv fr1 = current_centroids lv0 fr0.
Proof.
  intros Hloop. cbv zeta.
  split; [exact (loop_exit_parity fuel data clusters fr fr1 lv t Hloop)|].
  rewrite convergence_loop_unfold in Hloop.
  apply do_while_last_pass in Hloop as (lv0 & fr0 & t0 & t1 & Hp & Hb & ->).
  destruct (passes_keep data clusters (fun _ => True) ltac:(done) _ _ _ _ Hp
              Logic.I eq_refl) as (_ & Hw & _ & _).
  destruct (loop_body_returns data clusters lv0 fr0 t1 fr1 lv false Hb)
    as (e' & cnt' & evs & Hr & Ht & _ & Hit & Hwr & _).
  assert (Hrange : (0 <= iteration lv0 < size_t_modulus)%Z).
  { rewrite <- Hw. apply Z.mod_pos_bound. unfold size_t_modulus. lia. }
  assert (Hlast : wrap (iteration lv - 1) = iteration lv0)
    by (rewrite Hit; by apply wrap_succ_pred).
  rewrite Hlast, after_loop_current.
  exists lv0, fr0, t0, t1. split_and!; try done.
  - by exists e', cnt', evs.
  - intros Hnz.
    apply repairs_without_empty_cluster in Hr; [congruence|].
    intros i [_ Hi]%elem_of_seq. apply Hnz. lia.
Qed.

End ReturnedBuffer.

(* ================================================================== *)
(** ** The first pass of a call                                        *)
(* ================================================================== *)

Section FirstPass.

Context {MT PT ET LT : Type}.
Context `{!MetricType MT, !InitialPartitionPolicy PT,
          !EmptyClusterPolicy MT ET, !LloydStepType MT LT}.
Local Abbreviation frame := (frame MT PT ET).
Local Abbreviation locals := (locals LT).

(** C10 (amended): a call of [Cluster] that gets as far as the loop (its centroid
    guess, when there is one, is not rejected, and the initial centroids
    are obtained without an exception) runs the loop body once before any
    test of a termination condition, whatever the residual of the initial
    centroids and whatever the iteration limit, and however the call ends
    afterwards.  After the warnings and the events of the partitioning,
    which hold no [Iterate] call and no end-of-iteration report, comes the
    call of [Iterate] on the initial centroids, writing the alternate
    buffer; then the empty-cluster pass on what [Iterate] wrote: for each
    cluster in turn whose count is zero, the message and the call of the
    policy, whose matrix, counts and policy object are kept; then the
    report of iteration 1 with the residual of [Iterate], and only then the
    loop condition.  When the counts that come back from [Iterate] are too
    few, the pass ends on the bounds check, after the call of [Iterate]. *)
Theorem C10_at_least_one_iteration
    fuel data clusters g (fr fr1 : frame) ti :
  g && centroid_guess_mismatch data clusters (centroids fr) = false ->
  initial_centroids data clusters g fr = Outcome ti fr1 (Ok tt) ->
  1 <= fuel ->
  let o := Cluster (LT := LT) fuel data clusters g fr in
  let before := expected_warnings data clusters ++ ti in
  let lv0 := mkLocals (replicate clusters 0) 0%Z
               (LloydStep_new (LT := LT) data (metric (this fr1)))
               empty_mat in
  let step := Iterate (lloydStep lv0) (centroids fr1) empty_mat
                (replicate clusters 0) in
  iterations_run before = 0 /\
  Forall (fun e => is_Info_iteration e = false) before /\
  1 <= iterations_run (out_trace o) /\
  match empty_cluster_repairs data (metric (this fr1)) 0 (centroids fr1)
          (seq 0 clusters) (emptyClusterAction (this fr1))
          step.1.1.2 step.1.2 with
  | Some (e', new', cnt', evs) =>
      (exists fr' lv',
          loop_body data clusters lv0 fr1 =
          Outcome (Call_Iterate Other :: evs ++ [Info_iteration 1 step.2])
                  fr'
                  (Ok (lv', loop_condition (clamp_residual step.2) 1
                              (maxIterations (this fr1)))) /\
          centroidsOther lv' = new' /\
          centroids fr' = centroids fr1 /\
          counts lv' = cnt' /\
          emptyClusterAction (this fr') = e') /\
      (exists after,
          out_trace o =
          before ++
          Call_Iterate Other :: evs ++ Info_iteration 1 step.2 :: after) /\
      (EmptyCluster_keeps_counts (ET := ET) ->
       evs = empty_cluster_events Other
               (filter (fun i => step.1.2 !! i = Some 0) (seq 0 clusters)))
  | None =>
      out_val o = Throw OutOfBounds /\
      exists evs, out_trace o = before ++ Call_Iterate Other :: evs
  end.
Proof.
  intros Hg Hi Hfuel. cbv zeta.
  pose proof (configuration_events data clusters false (centroids fr)) as Hc.
  rewrite app_nil_r in Hc.
  destruct (outside_loop_events Configuration _ ltac:(done) Hc) as (Hcn & Hci).
  destruct (tame_initial_centroids false data clusters g fr) as (Hti & _).
  rewrite Hi in Hti. simpl in Hti.
  destruct (outside_loop_events Partitioning _ ltac:(done) Hti)
    as (Hpn & Hpi).
  split; [rewrite iterations_run_app; lia|].
  split; [by apply Forall_app|].
  rewrite Cluster_accepted by done. cbv zeta.
  rewrite (bind_Ok _ _ _ _ _ _ Hi). cbn [out_trace out_val out_state].
  destruct fuel as [|fuel]; [lia|].
  set (lv0 := mkLocals (replicate clusters 0) 0%Z
                (LloydStep_new (LT := LT) data (metric (this fr1)))
                empty_mat).
  pose proof (loop_body_anatomy data clusters lv0 fr1) as Ha.
  pose proof (repairs_events data (metric (this fr1)) 0%Z (centroids fr1))
    as Hev.
  change (match empty_cluster_repairs data (metric (this fr1)) 0
                  (centroids fr1) (seq 0 clusters)
                  (emptyClusterAction (this fr1))
                  (Iterate (lloydStep lv0) (centroids fr1) empty_mat
                     (replicate clusters 0)).1.1.2
                  (Iterate (lloydStep lv0) (centroids fr1) empty_mat
                     (replicate clusters 0)).1.2 with
          | Some (e', new', cnt', evs) =>
              exists fr' lv',
                loop_body data clusters lv0 fr1 =
                Outcome (Call_Iterate Other :: evs ++
                         [Info_iteration 1
                            (Iterate (lloydStep lv0) (centroids fr1)
                               empty_mat (replicate clusters 0)).2]) fr'
                  (Ok (lv', loop_condition
                              (clamp_residual
                                 (Iterate (lloydStep lv0) (centroids fr1)
                                    empty_mat (replicate clusters 0)).2)
                              1 (maxIterations (this fr1)))) /\
                iteration lv' = 1%Z /\
                current_centroids lv' fr' = new' /\
                written_centroids (iteration lv') lv' fr' = centroids fr1 /\
                counts lv' = cnt' /\
                lloydStep lv' =
                (Iterate (lloydStep lv0) (centroids fr1) empty_mat
                   (replicate clusters 0)).1.1.1 /\
                emptyClusterAction (this fr') = e' /\
                metric (this fr') = metric (this fr1) /\
                maxIterations (this fr') = maxIterations (this fr1)
          | None =>
              exists evs fr',
                loop_body data clusters lv0 fr1 =
                Outcome (Call_Iterate Other :: evs) fr' (Throw OutOfBounds)
          end) in Ha.
  rewrite (bind_trace (convergence_loop (S fuel) data clusters) after_loop).
  rewrite convergence_loop_unfold. fold lv0.
  destruct (empty_cluster_repairs _ _ _ _ _ _ _ _)
    as [[[[e' new'] cnt'] evs]|] eqn:Hr.
  - destruct Ha as (fr' & lv' & Hb & Hit & Hcur & Hwr & Hcnt & _ & He & _).
    unfold current_centroids in Hcur. unfold written_centroids in Hwr.
    rewrite Hit in Hcur, Hwr. cbn in Hcur, Hwr.
    cbn [do_while]. rewrite (bind_Ok _ _ _ _ _ _ Hb).
    cbn [out_trace out_state out_val fst snd].
    split; [|split; [|split]].
    + rewrite !iterations_run_app, iterations_run_cons_call. lia.
    + by exists fr', lv'.
    + eexists. rewrite <- !app_assoc. simpl. rewrite <- !app_assoc.
      simpl. reflexivity.
    + intros HE. by destruct (Hev HE _ _ _ _ _ _ _ _ Hr).
  - destruct Ha as (evs & fr' & Hb).
    cbn [do_while]. rewrite (bind_Throw _ _ _ _ _ _ Hb).
    cbn [out_trace out_state out_val].
    split; [|split].
    + rewrite !iterations_run_app, iterations_run_cons_call. lia.
    + unfold bind. rewrite convergence_loop_unfold. fold lv0.
      cbn [do_while]. by rewrite (bind_Throw _ _ _ _ _ _ Hb).
    + exists evs. by rewrite app_nil_r, <- app_assoc.
Qed.

End FirstPass.

(* ================================================================== *)
(** ** A second run from the centroids of a first                      *)
(* ================================================================== *)

Section SecondRun.

Context {MT PT ET LT : Type}.
Context `{!MetricType MT, !InitialPartitionPolicy PT,
          !EmptyClusterPolicy MT ET, !LloydStepType MT LT}.
Local Abbreviation frame := (frame MT PT ET).
Local Abbreviation locals := (locals LT).

(** C8 (amended): a second run that is given the final centroids of a
    first run as its centroid guess stops after at most one iteration when
    the first run has converged on a fixed point.  The first run's loop
    returns with the locals [lv] and the frame [fr1]; it was not stopped by
    the iteration limit, and its last iteration left the centroids as it
    found them: the buffer it read holds the same matrix as the one that is
    returned.  The Lloyd step is one whose residual depends on the
    centroids it reads only.  Then a call with the same data, number of
    clusters and metric and with the returned centroids as the guess calls
    [Iterate] at most once, and one unit of fuel is enough for it to come
    to an end. *)
Theorem C8_rerun_from_fixed_point
    fuel1 fuel2 data clusters (fr0 fr1 fr2 : frame) (lv : locals) t res :
  Iterate_residual_is (LT := LT) data (metric (this fr0)) res ->
  convergence_loop fuel1 data clusters fr0 = Outcome t fr1 (Ok lv) ->
  iteration lv <> maxIterations (this fr1) ->
  written_centroids (iteration lv) lv fr1 =
  centroids (out_state (after_loop lv fr1)) ->
  centroids fr2 = centroids (out_state (after_loop lv fr1)) ->
  metric (this fr2) = metric (this fr0) ->
  let second := Cluster (LT := LT) fuel2 data clusters true fr2 in
  iterations_run (out_trace second) <= 1 /\
  (1 <= fuel2 -> out_val second <> OutOfFuel).
Proof.
  intros (I & HI0 & HI) Hloop Hcap Hfix Hguess Hmetric.
  apply Cluster_stops_after_first_pass.
  rewrite convergence_loop_unfold in Hloop.
  apply do_while_last_pass in Hloop as (lv0 & fr0' & t0 & t1 & Hp & Hb & ->).
  destruct (passes_keep data clusters I (fun ls c n k H => proj1 (HI ls c n k H))
              _ _ _ _ Hp HI0 eq_refl) as (HIlv0 & _ & _ & _).
  destruct (loop_body_returns data clusters lv0 fr0' t1 fr1 lv false Hb)
    as (e' & cnt' & evs & _ & _ & Hc & _ & Hwr & _).
  rewrite Hguess, <- Hfix, Hwr, Hmetric.
  rewrite (proj2 (HI _ (current_centroids lv0 fr0') empty_mat
                     (replicate clusters 0) HI0)).
  rewrite <- (proj2 (HI _ (current_centroids lv0 fr0')
                       (written_centroids (iteration lv0) lv0 fr0')
                       (counts lv0) HIlv0)).
  symmetry in Hc. unfold loop_condition in Hc.
  apply andb_false_iff in Hc as [Hc|Hc]; [exact Hc|].
  apply negb_false_iff, Z.eqb_eq in Hc. done.
Qed.

End SecondRun.

Section NaiveStep.

Import Policies.

Context {MT : Type} `{!MetricType MT}.

(** The residual of the naive step is a function of the centroids it
    reads, for the step objects of a run. *)
Lemma NaiveKMeans_residual data (m : MT) :
  Iterate_residual_is (LT := NaiveKMeans MT) data m
    (fun c => (naive_Iterate (mkNaive data m 0) c empty_mat []).2).
Proof.
  exists (fun ls => naive_dataset ls = data /\ naive_metric ls = m).
  split; [done|].
  intros ls c n k [Hd Hm]. unfold Iterate. simpl.
  unfold naive_Iterate. simpl. rewrite Hd, Hm.
  destruct (accumulate _ _ _ _ _) as [sums counts']. simpl. done.
Qed.

End NaiveStep.

(* ================================================================== *)
(** ** Runs of the loop                                                *)
(* ================================================================== *)

Module LoopRuns.

Import Policies.

(** A call for two clusters on [line] with the guess 0 and 100, the
    reseeding policy and the iteration limit 1: the one iteration finds
    the second cluster empty, the policy moves its centroid to the last
    point, and the call returns the mean 5 that [Iterate] wrote beside the
    10 of the policy. *)
Lemma far_guess_run :
  let o := Cluster (LT := NaiveKMeans unit) 10 line 2 true (far_guess 1) in
  let step := Iterate (LloydStep_new (LT := NaiveKMeans unit) line tt)
                (points_1d [0; 100]%Z) empty_mat [0; 0] in
  out_val o = Ok tt /\
  step.1.1.2 = points_1d [5; 0]%Z /\
  step.1.2 = [11; 0] /\
  centroids (out_state o) = points_1d [5; 10]%Z /\
  emptyClusterAction (this (out_state o)) = 1 /\
  out_trace o =
  [Call_Iterate Other; Info_cluster_empty 1; Call_EmptyCluster 1 Other;
   Info_iteration 1 step.2; Info_terminated 1;
   Info_distance_calculations 22].
Proof. cbv zeta. split_and!; vm_compute; reflexivity. Qed.

Lemma C5_witness :
  let fr := far_guess 1 in
  let loop := convergence_loop (LT := NaiveKMeans unit) 10 line 2 fr in
  let t := out_trace loop in
  let fr1 := out_state loop in
  exists lv,
    loop = Outcome t fr1 (Ok lv) /\
    let last_iteration := wrap (iteration lv - 1) in
    let returned := centroids (out_state (after_loop lv fr1)) in
    (last_written t None = Some (target_of last_iteration) /\
     match target_of last_iteration with
     | Other =>
         (last_iteration mod 2 = 0)%Z /\ returned = centroidsOther lv
     | Primary =>
         (last_iteration mod 2 <> 0)%Z /\ returned = centroids fr1
     end) /\
    exists lv0 fr0 t0 t1,
      passes line 2
        (mkLocals (replicate 2 0) 0%Z
                  (LloydStep_new line (metric (this fr))) empty_mat) fr
        lv0 fr0 /\
      loop_body line 2 lv0 fr0 = Outcome t1 fr1 (Ok (lv, false)) /\
      t = t0 ++ t1 /\
      iteration lv0 = last_iteration /\
      let step := Iterate (lloydStep lv0) (current_centroids lv0 fr0)
                    (written_centroids last_iteration lv0 fr0)
                    (counts lv0) in
      (exists e' cnt' evs,
          empty_cluster_repairs line (metric (this fr0)) last_iteration
            (current_centroids lv0 fr0) (seq 0 2)
            (emptyClusterAction (this fr0)) step.1.1.2 step.1.2 =
          Some (e', returned, cnt', evs) /\
          t1 = Call_Iterate (target_of last_iteration) ::
               evs ++ [Info_iteration (iteration lv) step.2]) /\
      ((forall i, i < 2 -> step.1.2 !! i <> Some 0) ->
       returned = step.1.1.2) /\
      written_centroids (iteration lv) lv fr1 = current_centroids lv0 fr0.
Proof.
  cbv zeta. eexists.
  refine ((fun H => conj H
             (C5_returned_buffer_is_last_written (LT := NaiveKMeans unit)
                10 line 2 (far_guess 1) _ _ _ H)) _).
  vm_compute. reflexivity.
Defined.

(** C10, as stated, fails for a call that does not get as far as the
    loop: a call whose centroid guess is rejected stops on the fatal error
    and never calls [Iterate]. *)
Lemma C10_counterexample_rejected_guess :
  let o := Cluster (LT := NaiveKMeans unit) 10 four 2 true
             four_both_guesses in
  out_val o = Throw Fatal /\
  out_trace o = [Fatal_wrong_number_of_centroids 0 2] /\
  iterations_run (out_trace o) = 0 /\
  ~ 1 <= iterations_run (out_trace o).
Proof. cbv zeta. split_and!; vm_compute; (reflexivity || lia). Qed.

Lemma C10_witness :
  let fr := far_guess 1 in
  let o := Cluster (LT := NaiveKMeans unit) 10 line 2 true fr in
  let before := expected_warnings line 2 ++ [] in
  let lv0 := mkLocals (replicate 2 0) 0%Z
               (LloydStep_new (LT := NaiveKMeans unit) line
                  (metric (this fr)))
               empty_mat in
  let step := Iterate (lloydStep lv0) (centroids fr) empty_mat
                (replicate 2 0) in
  (true && centroid_guess_mismatch line 2 (centroids fr) = false /\
   initial_centroids line 2 true fr = Outcome [] fr (Ok tt) /\
   1 <= 10) /\
  iterations_run before = 0 /\
  Forall (fun e => is_Info_iteration e = false) before /\
  1 <= iterations_run (out_trace o) /\
  match empty_cluster_repairs line (metric (this fr)) 0 (centroids fr)
          (seq 0 2) (emptyClusterAction (this fr))
          step.1.1.2 step.1.2 with
  | Some (e', new', cnt', evs) =>
      (exists fr' lv',
          loop_body line 2 lv0 fr =
          Outcome (Call_Iterate Other :: evs ++ [Info_iteration 1 step.2])
                  fr'
                  (Ok (lv', loop_condition (clamp_residual step.2) 1
                              (maxIterations (this fr)))) /\
          centroidsOther lv' = new' /\
          centroids fr' = centroids fr /\
          counts lv' = cnt' /\
          emptyClusterAction (this fr') = e') /\
      (exists after,
          out_trace o =
          before ++
          Call_Iterate Other :: evs ++ Info_iteration 1 step.2 :: after) /\
      (EmptyCluster_keeps_counts (MT := unit) (ET := nat) ->
       evs = empty_cluster_events Other
               (filter (fun i => step.1.2 !! i = Some 0) (seq 0 2)))
  | None =>
      out_val o = Throw OutOfBounds /\
      exists evs, out_trace o = before ++ Call_Iterate Other :: evs
  end.
Proof.
  cbv zeta.
  refine ((fun H1 H2 H3 =>
             conj (conj H1 (conj H2 H3))
               (C10_at_least_one_iteration (LT := NaiveKMeans unit)
                  10 line 2 true (far_guess 1) (far_guess 1) [] H1 H2 H3))
            _ _ _).
  - vm_compute. reflexivity.
  - vm_compute. reflexivity.
  - lia.
Defined.

(** The first run of [C8_witness] as a whole call, and the second run
    from what it returns: the first run converges in five iterations with
    a last residual of zero, and the second takes one. *)
Lemma fixed_point_rerun :
  let first := Cluster (LT := NaiveKMeans unit) 10 line 2 true
                 (line_start 0) in
  let second := Cluster (LT := NaiveKMeans unit) 10 line 2 true
                  (out_state first) in
  out_val first = Ok tt /\
  iterations_run (out_trace first) = 5 /\
  centroids (out_state first) =
  Mat 1 [[dyadic 2 0]; [dyadic 15 (-1)]] /\
  out_val second = Ok tt /\
  out_trace second =
  [Call_Iterate Other; Info_iteration 1 zero; Info_converged 1;
   Info_distance_calculations 22].
Proof. cbv zeta. split_and!; vm_compute; reflexivity. Qed.

Lemma C8_witness :
  let fr0 := line_start 0 in
  let first := convergence_loop (LT := NaiveKMeans unit) 10 line 2 fr0 in
  let fr1 := out_state first in
  exists lv,
    let fr2 := out_state (after_loop lv fr1) in
    (Iterate_residual_is (LT := NaiveKMeans unit) line (metric (this fr0))
       (fun c => (naive_Iterate (mkNaive line tt 0) c empty_mat []).2) /\
     first = Outcome (out_trace first) fr1 (Ok lv) /\
     iteration lv <> maxIterations (this fr1) /\
     written_centroids (iteration lv) lv fr1 = centroids fr2 /\
     metric (this fr2) = metric (this fr0)) /\
    iterations_run
      (out_trace (Cluster (LT := NaiveKMeans unit) 10 line 2 true fr2))
    <= 1.
Proof.
  cbv zeta. eexists.
  refine ((fun H1 H2 H3 H4 =>
             conj (conj (NaiveKMeans_residual line tt)
                     (conj H1 (conj H2 (conj H3 H4))))
               (proj1 (C8_rerun_from_fixed_point (LT := NaiveKMeans unit)
                         10 10 line 2 (line_start 0) _ _ _ _ _
                         (NaiveKMeans_residual line tt) H1 H2 H3
                         eq_refl H4))) _ _ _ _).
  - vm_compute. reflexivity.
  - vm_compute. lia.
  - vm_compute. reflexivity.
  - vm_compute. reflexivity.
Defined.

End LoopRuns.
